(** * PoseSandbox: pose serialization, application and import

    A shallow embedding of [src/poses/pose-io.js] and the properties of its
    specification.

    Conventions of the embedding.
    - A JavaScript string is a [string]; every character stands for one code
      unit below 128, so [toLowerCase] folds the letters A-Z and [trim]
      strips the ASCII white space.
    - A JavaScript value that comes out of [JSON.parse] (a pose document) is a
      [jsval].  Numbers are never computed with, only copied, tested for
      truthiness and printed, so their type is a parameter of the development.
    - The live world, the scene and the notes element are shared mutable
      objects; they form the state [Live] that every operation threads.
      Injected collaborators that change the world ([addProp],
      [resetAllJointRotations]) are functions on [Live]; every call of an
      injected collaborator is recorded, in order, in a call log.
    - [throw] is an outcome of the state monad; the state reached when the
      exception leaves the function is kept, so that "nothing was mutated"
      is a statement about that state. *)

From Stdlib Require Import List String Ascii Bool Arith ZArith Lia DecimalString.
Import ListNotations.
Local Open Scope string_scope.
Local Open Scope list_scope.
Local Open Scope nat_scope.
#[local] Set Warnings "-register-all".

(** ** JavaScript strings *)

Module JsString.

Definition lower_char (c : ascii) : ascii :=
  let n := nat_of_ascii c in
  if (65 <=? n) && (n <=? 90) then ascii_of_nat (n + 32) else c.

Fixpoint toLowerCase (s : string) : string :=
  match s with
  | EmptyString => EmptyString
  | String c r => String (lower_char c) (toLowerCase r)
  end.

(** [s.includes(k)] *)
Fixpoint includes (s k : string) : bool :=
  String.prefix k s ||
  match s with
  | EmptyString => false
  | String _ r => includes r k
  end.

(** [s.endsWith(k)] *)
Definition endsWith (s k : string) : bool :=
  (String.length k <=? String.length s) &&
  String.eqb (String.substring (String.length s - String.length k) (String.length k) s) k.

(** White space stripped by [trim]: tab, line feed, vertical tab, form
    feed, carriage return and space. *)
Definition is_ws (c : ascii) : bool :=
  let n := nat_of_ascii c in
  ((9 <=? n) && (n <=? 13)) || (n =? 32).

Fixpoint trimStart (s : string) : string :=
  match s with
  | EmptyString => EmptyString
  | String c r => if is_ws c then trimStart r else s
  end.

Fixpoint trimEnd (s : string) : string :=
  match s with
  | EmptyString => EmptyString
  | String c r =>
      match trimEnd r with
      | EmptyString => if is_ws c then EmptyString else String c EmptyString
      | r' => String c r'
      end
  end.

Definition trim (s : string) : string := trimEnd (trimStart s).

Definition is_empty (s : string) : bool :=
  match s with EmptyString => true | _ => false end.

(** Decimal text of a non-negative integer, as a template literal or a
    property key prints it. *)
Definition of_nat (n : nat) : string := NilZero.string_of_uint (Nat.to_uint n).

End JsString.

Import JsString.

(** ** Exceptions and outcomes *)

Inductive exn : Type :=
| JsError (msg : string)      (* [throw new Error(msg)] *)
| TypeError (what : string)   (* a property read on null or undefined *)
| OtherError (what : string). (* raised by a collaborator: read or parse failure, ... *)

Inductive outcome (A : Type) : Type :=
| Ok (a : A)
| Throw (e : exn).
Arguments Ok {A} a.
Arguments Throw {A} e.

Definition is_ok {A} (o : outcome A) : bool :=
  match o with Ok _ => true | Throw _ => false end.

(** The messages of the validation errors, as the source spells them. *)
Definition InvalidPoseError : exn := JsError "Invalid pose JSON".
Definition MissingWorldError : exn := JsError "applyPose: missing world".
Definition MissingSceneError : exn := JsError "applyPose: missing scene".
Definition InvalidPresetObjectError : exn := JsError "Invalid preset/pose object".
Definition InvalidPresetError : exn := JsError "Pose missing joints".
Definition PresetMissingWorldError : exn := JsError "applyPoseJointsOnly: missing world".
Definition SerializeMissingWorldError : exn := JsError "serializePose: missing world".

(** ** The state and exception monad

    A computation over a state [Sigma] returns an outcome and the state it
    reached, also when it throws. *)

Definition M (Sigma A : Type) : Type := Sigma -> outcome A * Sigma.

Definition ret {Sigma A} (a : A) : M Sigma A := fun s => (Ok a, s).

Definition throw {Sigma A} (e : exn) : M Sigma A := fun s => (Throw e, s).

Definition bind {Sigma A B} (m : M Sigma A) (f : A -> M Sigma B) : M Sigma B :=
  fun s =>
    match m s with
    | (Ok a, s') => f a s'
    | (Throw e, s') => (Throw e, s')
    end.

(** [try { m } catch (err) { h err }] *)
Definition try_catch {Sigma A} (m : M Sigma A) (h : exn -> M Sigma A) : M Sigma A :=
  fun s =>
    match m s with
    | (Ok a, s') => (Ok a, s')
    | (Throw e, s') => h e s'
    end.

Definition lift {Sigma A} (o : outcome A) : M Sigma A := fun s => (o, s).

Definition when {Sigma} (b : bool) (m : M Sigma unit) : M Sigma unit :=
  if b then m else ret tt.

Declare Scope monad_scope.
Delimit Scope monad_scope with monad.
Notation "x <- m ;; k" := (bind m (fun x => k))
  (at level 61, m at next level, right associativity) : monad_scope.
Notation "m ;; k" := (bind m (fun _ => k))
  (at level 61, right associativity) : monad_scope.

(** [l.forEach(body)] *)
Fixpoint forEach {Sigma A} (l : list A) (body : A -> M Sigma unit) : M Sigma unit :=
  match l with
  | [] => ret tt
  | x :: r => bind (body x) (fun _ => forEach r body)
  end.

(** [l[l.length - 1]], and an update in place of that entry. *)
Fixpoint last_entry {A} (l : list A) : option A :=
  match l with
  | [] => None
  | [x] => Some x
  | _ :: r => last_entry r
  end.

Fixpoint update_last {A} (f : A -> A) (l : list A) : list A :=
  match l with
  | [] => []
  | [x] => [f x]
  | x :: r => x :: update_last f r
  end.

Definition isSome {A} (o : option A) : bool :=
  match o with Some _ => true | None => false end.

(** JavaScript numbers: the integer literals, the numbers that are falsy
    (zero and NaN), and [String(n)]. *)
Class JsNumber (num : Type) : Type := {
  num_of_nat : nat -> num;
  num_falsy : num -> bool;
  num_toString : num -> string
}.

Section PoseIO.

Context {num : Type} {JN : JsNumber num}.

(** ** JavaScript values *)

Inductive jsval : Type :=
| JUndefined
| JNull
| JBool (b : bool)
| JNum (n : num)
| JStr (s : string)
| JArr (l : list jsval)
| JObj (l : list (string * jsval)).

(** [!!v] *)
Definition truthy (v : jsval) : bool :=
  match v with
  | JUndefined | JNull => false
  | JBool b => b
  | JNum n => negb (num_falsy n)
  | JStr s => negb (is_empty s)
  | JArr _ | JObj _ => true
  end.

(** [a || b] *)
Definition js_or (a b : jsval) : jsval := if truthy a then a else b.

(** [typeof v === "object"] *)
Definition typeof_object (v : jsval) : bool :=
  match v with
  | JNull | JArr _ | JObj _ => true
  | _ => false
  end.

(** [typeof v === "string"] *)
Definition typeof_string (v : jsval) : bool :=
  match v with JStr _ => true | _ => false end.

(** [Array.isArray(v) && v.length === n] *)
Definition isArrayOfLength (v : jsval) (n : nat) : bool :=
  match v with
  | JArr l => List.length l =? n
  | _ => false
  end.

(** The values for which [String(v)] returns.  The conversion of an object
    goes through its [toString]; the data of this module holds no function,
    so an object with a property of its own under that name has no callable
    [toString], the inherited [valueOf] returns the object itself, and
    [String] throws a TypeError.  An array is converted by joining the texts
    of its elements. *)
Fixpoint String_returns (v : jsval) : bool :=
  match v with
  | JArr l => forallb String_returns l
  | JObj l => negb (existsb (fun kv => String.eqb (fst kv) "toString") l)
  | _ => true
  end.

(** [String(v)]: the text that the conversion returns, for a value for
    which it returns ([String_returns]). *)
Fixpoint js_String (v : jsval) : string :=
  match v with
  | JUndefined => "undefined"
  | JNull => "null"
  | JBool true => "true"
  | JBool false => "false"
  | JNum n => num_toString n
  | JStr s => s
  | JArr l =>
      (fix join (l : list jsval) : string :=
         match l with
         | [] => EmptyString
         | x :: r =>
             let sx := match x with
                       | JUndefined | JNull => EmptyString
                       | _ => js_String x
                       end in
             match r with
             | [] => sx
             | _ => String.append sx (String.append "," (join r))
             end
         end) l
  | JObj _ => "[object Object]"
  end.

(** Own properties.  An object is the list of its bindings (the first
    binding of a key is the one that counts); an array has its indices and
    [length]; a string has its characters and [length].  The names this
    module reads literally ([joints], [props], [notes], [type], [name],
    [position], [quaternion], [scale] and the indices) are never inherited
    by JSON data.  An inherited property can only be met at
    [data.joints[j.name]]; for JSON data it is then a function or the
    prototype object, never an array of four elements, which is all that
    line asks. *)
Fixpoint obj_get (l : list (string * jsval)) (k : string) : jsval :=
  match l with
  | [] => JUndefined
  | (k', v) :: r => if String.eqb k' k then v else obj_get r k
  end.

Fixpoint arr_get (l : list jsval) (i : nat) (k : string) : jsval :=
  match l with
  | [] => JUndefined
  | x :: r => if String.eqb (of_nat i) k then x else arr_get r (S i) k
  end.

Fixpoint str_get (s : string) (i : nat) (k : string) : jsval :=
  match s with
  | EmptyString => JUndefined
  | String c r =>
      if String.eqb (of_nat i) k then JStr (String c EmptyString)
      else str_get r (S i) k
  end.

(** [v[k]] for a [v] that is neither null nor undefined. *)
Definition getProp (v : jsval) (k : string) : jsval :=
  match v with
  | JObj l => obj_get l k
  | JArr l =>
      if String.eqb k "length" then JNum (num_of_nat (List.length l))
      else arr_get l 0 k
  | JStr s =>
      if String.eqb k "length" then JNum (num_of_nat (String.length s))
      else str_get s 0 k
  | _ => JUndefined
  end.

(** [v?.k] *)
Definition getOpt (v : jsval) (k : string) : jsval := getProp v k.

(** [v.k], which throws on null and undefined. *)
Definition getMember (v : jsval) (k : string) : outcome jsval :=
  match v with
  | JUndefined | JNull =>
      Throw (TypeError (String.append "Cannot read properties of null or undefined: " k))
  | _ => Ok (getProp v k)
  end.

(** [o[k] = v] on a plain object, for a key that the object has or that is
    an ordinary one.  ([__proto__], when it is not a property of the object,
    names its prototype: see [serializeJoints].) *)
Fixpoint obj_set (l : list (string * jsval)) (k : string) (v : jsval)
  : list (string * jsval) :=
  match l with
  | [] => [(k, v)]
  | (k', v') :: r =>
      if String.eqb k' k then (k', v) :: r else (k', v') :: obj_set r k v
  end.

(** [Object.hasOwn(o, k)] *)
Definition has_own (l : list (string * jsval)) (k : string) : bool :=
  existsb (fun kv => String.eqb (fst kv) k) l.

(** The members that a plain object inherits from [Object.prototype]: a
    read of one of these keys on an object that has no such property of its
    own gives a function or, for [__proto__], the prototype object. *)
Definition Object_prototype_keys : list string :=
  [ "constructor"; "hasOwnProperty"; "isPrototypeOf"; "propertyIsEnumerable";
    "toLocaleString"; "toString"; "valueOf"; "__proto__";
    "__defineGetter__"; "__defineSetter__"; "__lookupGetter__"; "__lookupSetter__" ].

Definition inherited (k : string) : bool :=
  existsb (String.eqb k) Object_prototype_keys.

(** ** [inferTypeFromLegacyName] (lines 22-37)

    The argument is the value of [p?.name]. *)
Definition inferTypeFromLegacyName (name : jsval) : string :=
  let n := toLowerCase (js_String (js_or name (JStr EmptyString))) in
  if includes n "sphere" then "sphere" else
  if includes n "cube" || includes n "box" then "cube" else
  if includes n "cyl" then "cylinder" else
  if includes n "cone" then "cone" else
  if includes n "torus" then "torus" else
  if includes n "ring" then "ring" else
  if includes n "disc" || includes n "circle" then "disc" else
  if includes n "plane" then "plane" else
  if includes n "icosa" then "icosa" else
  if includes n "octa" then "octa" else
  if includes n "dodeca" then "dodeca" else
  if includes n "tetra" then "tetra" else
  "cube".

(** ** The live objects

    [Vector3] and [Quaternion] are the classes of the rendering library;
    [fromArray] copies the leading entries of its argument and [toArray]
    returns the components. *)

Record Vector3 : Type := mkVector3 { v_x : jsval; v_y : jsval; v_z : jsval }.

Record Quaternion : Type :=
  mkQuaternion { q_x : jsval; q_y : jsval; q_z : jsval; q_w : jsval }.

Definition Vector3_fromArray (a : jsval) : Vector3 :=
  mkVector3 (getProp a "0") (getProp a "1") (getProp a "2").

Definition Vector3_toArray (v : Vector3) : jsval :=
  JArr [v_x v; v_y v; v_z v].

Definition Quaternion_fromArray (a : jsval) : Quaternion :=
  mkQuaternion (getProp a "0") (getProp a "1") (getProp a "2") (getProp a "3").

Definition Quaternion_toArray (q : Quaternion) : jsval :=
  JArr [q_x q; q_y q; q_z q; q_w q].

(** A joint: [j.name] and [j.quaternion]. *)
Record Joint : Type := mkJoint { j_name : string; j_quaternion : Quaternion }.

(** [p.userData], with the two fields this module writes. *)
Record UserData : Type := mkUserData { ud_type : jsval; ud_isProp : jsval }.

(** A prop.  [p_id] is the identity of the object, by which the scene
    refers to it. *)
Record PropObj : Type := mkProp {
  p_id : nat;
  p_name : jsval;
  p_userData : option UserData;
  p_position : Vector3;
  p_quaternion : Quaternion;
  p_scale : Vector3
}.

(** The shared mutable state: [world.joints] and [world.props] ([None]
    when the world has no such collection), the children of the scene, and
    the value of the notes element. *)
Record Live : Type := mkLive {
  joints : option (list Joint);
  props : option (list PropObj);
  scene : list nat;
  notes : string
}.

(** Calls of injected collaborators, in the order they are made. *)
Inductive Call : Type :=
| CallAddProp (t : string)
| CallResetAllJointRotations
| CallUpdateOutline
| CallForceRenderOnce
| CallShowToast (msg : string) (ms : option nat).

Record St : Type := mkSt { live : Live; calls : list Call }.

(** Plain field updates. *)
Definition set_joints (js : list Joint) (l : Live) : Live :=
  mkLive (Some js) (props l) (scene l) (notes l).
Definition set_props (ps : list PropObj) (l : Live) : Live :=
  mkLive (joints l) (Some ps) (scene l) (notes l).
Definition set_scene (c : list nat) (l : Live) : Live :=
  mkLive (joints l) (props l) c (notes l).
Definition set_notes (n : string) (l : Live) : Live :=
  mkLive (joints l) (props l) (scene l) n.

Definition set_quaternion (q : Quaternion) (j : Joint) : Joint :=
  mkJoint (j_name j) q.

Definition set_p_name (v : jsval) (p : PropObj) : PropObj :=
  mkProp (p_id p) v (p_userData p) (p_position p) (p_quaternion p) (p_scale p).
Definition set_p_userData (u : option UserData) (p : PropObj) : PropObj :=
  mkProp (p_id p) (p_name p) u (p_position p) (p_quaternion p) (p_scale p).
Definition set_p_position (v : Vector3) (p : PropObj) : PropObj :=
  mkProp (p_id p) (p_name p) (p_userData p) v (p_quaternion p) (p_scale p).
Definition set_p_quaternion (q : Quaternion) (p : PropObj) : PropObj :=
  mkProp (p_id p) (p_name p) (p_userData p) (p_position p) q (p_scale p).
Definition set_p_scale (v : Vector3) (p : PropObj) : PropObj :=
  mkProp (p_id p) (p_name p) (p_userData p) (p_position p) (p_quaternion p) v.

(** [p?.userData?.type] *)
Definition userData_type (p : PropObj) : jsval :=
  match p_userData p with
  | Some u => ud_type u
  | None => JUndefined
  end.

(** [scene.remove(p)]: the object is taken out of the children, where it
    occurs at most once. *)
Fixpoint scene_remove (id : nat) (children : list nat) : list nat :=
  match children with
  | [] => []
  | c :: r => if c =? id then r else c :: scene_remove id r
  end.

(** ** Collaborators ([deps])

    [has_world], [has_scene] and [has_poseNotesEl] tell whether the caller
    passed the object; the hooks that only notify ([showToast],
    [updateOutline], [forceRenderOnce]) are booleans, and a call is an entry
    of the call log; the hooks that change the world are functions. *)
Record Deps : Type := mkDeps {
  has_world : bool;
  has_scene : bool;
  has_poseNotesEl : bool;
  addProp : option (string -> Live -> Live);
  showToast : bool;
  updateOutline : bool;
  forceRenderOnce : bool;
  resetAllJointRotations : option (Live -> Live)
}.

Local Open Scope monad_scope.

Definition get_live : M St Live := fun s => (Ok (live s), s).

Definition modify_live (f : Live -> Live) : M St unit :=
  fun s => (Ok tt, mkSt (f (live s)) (calls s)).

Definition call (c : Call) : M St unit :=
  fun s => (Ok tt, mkSt (live s) (calls s ++ [c])).

(** [world.joints] and [world.props], read as arrays. *)
Definition read_joints : M St (list Joint) :=
  l <- get_live ;;
  match joints l with
  | Some js => ret js
  | None => throw (TypeError "world.joints is undefined")
  end.

Definition read_props : M St (list PropObj) :=
  l <- get_live ;;
  match props l with
  | Some ps => ret ps
  | None => throw (TypeError "world.props is undefined")
  end.

(** A mutation of the prop [p] that line 104 fetched: it is the last entry
    of [world.props], and nothing is appended while it is being written. *)
Definition modify_p (f : PropObj -> PropObj) : M St unit :=
  ps <- read_props ;;
  modify_live (set_props (update_last f ps)).

(** ** [serializePose] (lines 41-64)

    [now] is the value of [nowISO()]. *)
Definition serializeProp (p : PropObj) : jsval :=
  JObj [ ("type", JStr (js_String (js_or (userData_type p)
                                         (JStr (inferTypeFromLegacyName (p_name p))))));
         ("name", js_or (p_name p) (JStr EmptyString));
         ("position", Vector3_toArray (p_position p));
         ("quaternion", Quaternion_toArray (p_quaternion p));
         ("scale", Vector3_toArray (p_scale p)) ].

(** Lines 44-47: the mapping from joint names to orientations, built by
    assignment.  A binding of [__proto__] in it stands for the prototype
    that this assignment gives the mapping (the array is an object, so the
    setter of [Object.prototype] takes it): a read of [__proto__] returns
    that array, as the read of a binding does.  What the bindings do not
    show is what a read of a key that no joint bears finds: a member
    inherited from [Object.prototype] ([inherited]) or from the array that a
    joint named [__proto__] installed. *)
Definition serializeJoints (js : list Joint) : list (string * jsval) :=
  fold_left (fun o j => obj_set o (j_name j) (Quaternion_toArray (j_quaternion j))) js [].

Definition serializePose (deps : Deps) (now : string) (l : Live) : outcome jsval :=
  match has_world deps, joints l, props l with
  | true, Some js, Some ps =>
      Ok (JObj [ ("version", JNum (num_of_nat 1));
                 ("notes", JStr (js_String
                                   (js_or (if has_poseNotesEl deps then JStr (notes l)
                                           else JUndefined)
                                          (JStr EmptyString))));
                 ("joints", JObj (serializeJoints js));
                 ("props", JArr (map serializeProp ps));
                 ("savedAt", JStr now) ])
  | _, _, _ => Throw SerializeMissingWorldError
  end.

(** ** [applyPose] (lines 68-129) *)

(** Lines 85-88, for one joint. *)
Definition applyPose_joint (data_joints : jsval) (j : Joint) : Joint :=
  let q := getProp data_joints (j_name j) in
  if isArrayOfLength q 4 then set_quaternion (Quaternion_fromArray q) j else j.

(** Lines 84-89. *)
Definition applyPose_joints (data : jsval) : M St unit :=
  let data_joints := getProp data "joints" in
  when (truthy data_joints && typeof_object data_joints)
    (js <- read_joints ;;
     modify_live (set_joints (map (applyPose_joint data_joints) js))).

(** Lines 94-95. *)
Definition removeOldProps : M St unit :=
  ps <- read_props ;;
  modify_live (fun l => set_scene (fold_left (fun c p => scene_remove (p_id p) c) ps (scene l)) l) ;;
  modify_live (set_props []).

(** Line 101. *)
Definition propType (pd : jsval) : string :=
  let t := toLowerCase (trim (js_String (js_or (getOpt pd "type") (JStr EmptyString)))) in
  if is_empty t then inferTypeFromLegacyName (getOpt pd "name") else t.

(** Lines 108-110: [p.userData] is created when missing, then tagged. *)
Definition tag_prop (t : string) (p : PropObj) : PropObj :=
  let u0 := match p_userData p with
            | Some u => u
            | None => mkUserData JUndefined JUndefined
            end in
  let u1 := mkUserData (JStr t) (ud_isProp u0) in
  let u2 := mkUserData (ud_type u1) (JBool true) in
  set_p_userData (Some u2) p.

(** Lines 98-116, for one descriptor. *)
Definition applyPose_prop (deps : Deps) (pd : jsval) : M St unit :=
  match addProp deps with
  | None => ret tt
  | Some addPropFn =>
      let t := propType pd in
      call (CallAddProp t) ;;
      modify_live (addPropFn t) ;;
      ps <- read_props ;;
      match last_entry ps with
      | None => ret tt
      | Some _ =>
          modify_p (tag_prop t) ;;
          position <- lift (getMember pd "position") ;;
          when (truthy position) (modify_p (set_p_position (Vector3_fromArray position))) ;;
          quaternion <- lift (getMember pd "quaternion") ;;
          when (truthy quaternion) (modify_p (set_p_quaternion (Quaternion_fromArray quaternion))) ;;
          scale <- lift (getMember pd "scale") ;;
          when (truthy scale) (modify_p (set_p_scale (Vector3_fromArray scale))) ;;
          name <- lift (getMember pd "name") ;;
          when (truthy name) (modify_p (set_p_name name))
      end
  end.

(** Lines 92-117. *)
Definition applyPose_props (data : jsval) (deps : Deps) : M St unit :=
  match getProp data "props" with
  | JArr pds => removeOldProps ;; forEach pds (applyPose_prop deps)
  | _ => ret tt
  end.

(** Lines 120-122. *)
Definition applyPose_notes (data : jsval) (deps : Deps) : M St unit :=
  match getProp data "notes" with
  | JStr s => when (has_poseNotesEl deps) (modify_live (set_notes s))
  | _ => ret tt
  end.

Definition applyPose (data : jsval) (deps : Deps) : M St unit :=
  if negb (truthy data) || negb (typeof_object data) then throw InvalidPoseError else
  l <- get_live ;;
  if negb (has_world deps) || negb (isSome (joints l)) || negb (isSome (props l))
  then throw MissingWorldError else
  if negb (has_scene deps) then throw MissingSceneError else
  applyPose_joints data ;;
  applyPose_props data deps ;;
  applyPose_notes data deps ;;
  when (updateOutline deps) (call CallUpdateOutline) ;;
  when (forceRenderOnce deps) (call CallForceRenderOnce) ;;
  when (showToast deps) (call (CallShowToast "Pose loaded" None)).

(** ** [applyPoseJointsOnly] (lines 131-165) *)

(** Lines 148-154: the joints after the loop and the value of
    [appliedCount]. *)
Fixpoint jointsOnly_loop (data_joints : jsval) (js : list Joint) (appliedCount : nat)
  : list Joint * nat :=
  match js with
  | [] => ([], appliedCount)
  | j :: r =>
      let q := getProp data_joints (j_name j) in
      if isArrayOfLength q 4 then
        let '(r', n) := jointsOnly_loop data_joints r (appliedCount + 1) in
        (set_quaternion (Quaternion_fromArray q) j :: r', n)
      else
        let '(r', n) := jointsOnly_loop data_joints r appliedCount in
        (j :: r', n)
  end.

Definition applyPoseJointsOnly (data : jsval) (deps : Deps) : M St nat :=
  if negb (truthy data) || negb (typeof_object data) then throw InvalidPresetObjectError else
  let data_joints := getProp data "joints" in
  if negb (truthy data_joints) || negb (typeof_object data_joints)
  then throw InvalidPresetError else
  l <- get_live ;;
  if negb (has_world deps) || negb (isSome (joints l)) then throw PresetMissingWorldError else
  match resetAllJointRotations deps with
  | Some reset => call CallResetAllJointRotations ;; modify_live reset
  | None => ret tt
  end ;;
  js <- read_joints ;;
  let '(js', appliedCount) := jointsOnly_loop data_joints js 0 in
  modify_live (set_joints js') ;;
  when (updateOutline deps) (call CallUpdateOutline) ;;
  when (forceRenderOnce deps) (call CallForceRenderOnce) ;;
  when (showToast deps)
    (if appliedCount =? 0
     then call (CallShowToast "Preset loaded (no matching joints)" (Some 2000))
     else call (CallShowToast
                  (String.append "Preset loaded ("
                     (String.append (of_nat appliedCount) " joints)")) None)) ;;
  ret appliedCount.

(** ** [importPosePack] (lines 176-213)

    The collaborators of the import act on a state [S] of their own (the
    application: world, scene, gallery); the calls made by the import and
    its console warnings are recorded in a log next to it.  [JSON_parse] is
    the built-in parser, [f_text] the outcome of reading the file.  The
    reads are awaited one after the other, so the loop is sequential. *)
Section ImportPack.

Context {S : Type}.
Variable JSON_parse : string -> outcome jsval.

Record File : Type := mkFile {
  f_name : option string;       (* [file?.name] *)
  f_text : outcome string       (* [await file.text()] *)
}.

Inductive ImportCall : Type :=
| CallApplyPose (data : jsval)
| CallSaveToGallery (name : string) (withToast : bool)
| CallRenderGallery
| CallImportToast (msg : string)
| ConsoleWarn (name : option string) (err : exn).

(** The [deps] of the import; [importToast] is its [showToast]. *)
Record ImportDeps : Type := mkImportDeps {
  applyPoseFn : option (jsval -> M S unit);
  saveToGallery : option (string -> bool -> M S unit);
  renderGallery : option (S -> S);
  importToast : option (string -> S -> S)
}.

Definition ISt : Type := (S * list ImportCall)%type.

Definition log (c : ImportCall) : M ISt unit :=
  fun s => (Ok tt, (fst s, snd s ++ [c])).

(** A collaborator runs on the application state. *)
Definition run_hook {A} (h : M S A) : M ISt A :=
  fun s => let '(o, a) := h (fst s) in (o, (a, snd s)).

Definition run_total (h : S -> S) : M ISt unit :=
  fun s => (Ok tt, (h (fst s), snd s)).

(** Line 183: [file?.name?.toLowerCase().endsWith(".json")]. *)
Definition isCandidate (file : File) : bool :=
  match f_name file with
  | Some n => endsWith (toLowerCase n) ".json"
  | None => false
  end.

(** Line 193: the suffix matched by [/\.json$/i] is replaced by nothing. *)
Definition stripJson (n : string) : string :=
  if endsWith (toLowerCase n) ".json"
  then String.substring 0 (String.length n - 5) n
  else n.

Definition file_name (file : File) : string :=
  match f_name file with Some n => n | None => EmptyString end.

(** Lines 186-199: the body of [try]; its value is [imported] after it. *)
Definition importFile (deps : ImportDeps) (file : File) (imported : nat) : M ISt nat :=
  text <- lift (f_text file) ;;
  data <- lift (JSON_parse text) ;;
  match applyPoseFn deps with
  | Some f => log (CallApplyPose data) ;; run_hook (f data)
  | None => ret tt
  end ;;
  let name := stripJson (file_name file) in
  match saveToGallery deps with
  | Some f => log (CallSaveToGallery name false) ;; run_hook (f name false)
  | None => ret tt
  end ;;
  ret (imported + 1).

(** Lines 182-203. *)
Fixpoint importLoop (deps : ImportDeps) (files : list File) (imported : nat)
  : M ISt nat :=
  match files with
  | [] => ret imported
  | file :: rest =>
      if negb (isCandidate file) then importLoop deps rest imported
      else
        imported' <- try_catch (importFile deps file imported)
                       (fun err => log (ConsoleWarn (f_name file) err) ;; ret imported) ;;
        importLoop deps rest imported'
  end.

(** Line 208. *)
Definition summary (imported : nat) : string :=
  if 0 <? imported
  then String.append "Imported "
         (String.append (of_nat imported)
            (String.append " pose" (if 1 <? imported then "s" else EmptyString)))
  else "No valid poses imported".

(** [files] is [None] for a null or undefined argument; the result is
    [None] for [undefined]. *)
Definition importPosePack (files : option (list File)) (deps : ImportDeps)
  : M ISt (option nat) :=
  match files with
  | None | Some [] => ret None
  | Some fs =>
      imported <- importLoop deps fs 0 ;;
      match renderGallery deps with
      | Some f => log CallRenderGallery ;; run_total f
      | None => ret tt
      end ;;
      match importToast deps with
      | Some f => log (CallImportToast (summary imported)) ;; run_total (f (summary imported))
      | None => ret tt
      end ;;
      ret (Some imported)
  end.

End ImportPack.

End PoseIO.

(** * Vocabulary of the properties *)

Section Vocabulary.

Context {num : Type} {JN : JsNumber num}.

Local Open Scope monad_scope.

#[local] Abbreviation jsval := (@jsval num).
#[local] Abbreviation Live := (@Live num).
#[local] Abbreviation St := (@St num).
#[local] Abbreviation Deps := (@Deps num).
#[local] Abbreviation Joint := (@Joint num).
#[local] Abbreviation PropObj := (@PropObj num).
#[local] Abbreviation Quaternion := (@Quaternion num).
#[local] Abbreviation Vector3 := (@Vector3 num).

(** [keeps proj m]: running [m] leaves the part [proj] of the live state as
    it was, whether [m] returns or throws. *)
Definition keeps {A B} (proj : Live -> B) (m : M St A) : Prop :=
  forall s, proj (live (snd (m s))) = proj (live s).

(** [only_TypeError m]: whatever [m] throws is a [TypeError]; it never
    throws a validation error. *)
Definition only_TypeError {A} (m : M St A) : Prop :=
  forall s e, fst (m s) = Throw e -> exists what, e = TypeError what.

(** A non-null structured value: an object or an array. *)
Definition structured (v : jsval) : bool := truthy v && typeof_object v.

(** A world with its joint and prop collections was passed. *)
Definition world_ok (deps : Deps) (l : Live) : bool :=
  has_world deps && isSome (joints l) && isSome (props l).

(** A world with its joint collection was passed. *)
Definition preset_world_ok (deps : Deps) (l : Live) : bool :=
  has_world deps && isSome (joints l).

(** What [applyPose] runs once the three checks have passed. *)
Definition applyPose_checked (data : jsval) (deps : Deps) : M St unit :=
  applyPose_joints data ;;
  applyPose_props data deps ;;
  applyPose_notes data deps ;;
  when (updateOutline deps) (call CallUpdateOutline) ;;
  when (forceRenderOnce deps) (call CallForceRenderOnce) ;;
  when (showToast deps) (call (CallShowToast "Pose loaded" None)).

(** What [applyPoseJointsOnly] runs once the three checks have passed. *)
Definition applyPoseJointsOnly_checked (data : jsval) (deps : Deps) : M St nat :=
  let data_joints := getProp data "joints" in
  match resetAllJointRotations deps with
  | Some reset => call CallResetAllJointRotations ;; modify_live reset
  | None => ret tt
  end ;;
  js <- read_joints ;;
  let '(js', appliedCount) := jointsOnly_loop data_joints js 0 in
  modify_live (set_joints js') ;;
  when (updateOutline deps) (call CallUpdateOutline) ;;
  when (forceRenderOnce deps) (call CallForceRenderOnce) ;;
  when (showToast deps)
    (if appliedCount =? 0
     then call (CallShowToast "Preset loaded (no matching joints)" (Some 2000))
     else call (CallShowToast
                  (String.append "Preset loaded ("
                     (String.append (of_nat appliedCount) " joints)")) None)) ;;
  ret appliedCount.

(** The joints after lines 84-89. *)
Definition joints_after (data : jsval) (js : list Joint) : list Joint :=
  if structured (getProp data "joints")
  then map (applyPose_joint (getProp data "joints")) js
  else js.

(** The identity orientation, as the injected resetter writes it. *)
Definition Quaternion_identity : Quaternion :=
  mkQuaternion (JNum (num_of_nat 0)) (JNum (num_of_nat 0))
               (JNum (num_of_nat 0)) (JNum (num_of_nat 1)).

(** The joint has a four-element entry in the joints mapping. *)
Definition matched (data_joints : jsval) (j : Joint) : bool :=
  isArrayOfLength (getProp data_joints (j_name j)) 4.

(** A keyword table: each row lists the substrings that select its type.
    [firstMatch] returns the type of the first row one of whose keywords
    occurs in [n], and [default] when no row matches. *)
Fixpoint firstMatch (table : list (list string * string)) (default : string) (n : string)
  : string :=
  match table with
  | [] => default
  | (keywords, type) :: rest =>
      if existsb (includes n) keywords then type else firstMatch rest default n
  end.

(** The table of the source: the cylinder row is selected by [cyl]. *)
Definition keyword_table : list (list string * string) :=
  [ (["sphere"], "sphere"); (["cube"; "box"], "cube"); (["cyl"], "cylinder");
    (["cone"], "cone"); (["torus"], "torus"); (["ring"], "ring");
    (["disc"; "circle"], "disc"); (["plane"], "plane"); (["icosa"], "icosa");
    (["octa"], "octa"); (["dodeca"], "dodeca"); (["tetra"], "tetra") ].

(** The inference as the specification words it: the keyword list is
    sphere, cube/box, cylinder, cone, torus, ring, disc/circle, plane, icosa,
    octa, dodeca, tetra. *)
Definition spec_keyword_table : list (list string * string) :=
  [ (["sphere"], "sphere"); (["cube"; "box"], "cube"); (["cylinder"], "cylinder");
    (["cone"], "cone"); (["torus"], "torus"); (["ring"], "ring");
    (["disc"; "circle"], "disc"); (["plane"], "plane"); (["icosa"], "icosa");
    (["octa"], "octa"); (["dodeca"], "dodeca"); (["tetra"], "tetra") ].

(** The lowercased name that the inference inspects (line 23). *)
Definition legacy_name (name : jsval) : string :=
  toLowerCase (js_String (js_or name (JStr EmptyString))).

(** The inference over the keyword list of the specification. *)
Definition spec_inferType (name : jsval) : string :=
  firstMatch spec_keyword_table "cube" (legacy_name name).

(** Line 46, for one joint. *)
Definition record_joint (o : list (string * jsval)) (j : Joint) : list (string * jsval) :=
  obj_set o (j_name j) (Quaternion_toArray (j_quaternion j)).

(** What the descriptor of [p] makes of the prop [p0] that the factory
    appended (lines 108-115). *)
Definition rebuilt (t : string) (p p0 : PropObj) : PropObj :=
  let p1 := tag_prop t p0 in
  let p2 := set_p_position (p_position p) p1 in
  let p3 := set_p_quaternion (p_quaternion p) p2 in
  let p4 := set_p_scale (p_scale p) p3 in
  if truthy (p_name p) then set_p_name (p_name p) p4 else p4.

(** The type the serializer records for a live prop (line 50). *)
Definition prop_type (p : PropObj) : string :=
  js_String (js_or (userData_type p) (JStr (inferTypeFromLegacyName (p_name p)))).

(** The type a recorded type comes back as (line 101): trimmed and
    lowercased, and inferred from the name when that leaves nothing. *)
Definition normalized_type (type : string) (name : jsval) : string :=
  let t := toLowerCase (trim type) in
  if is_empty t then inferTypeFromLegacyName name else t.

(** [succeeds m]: [m] returns normally from every state. *)
Definition succeeds (m : M St unit) : Prop := forall s, fst (m s) = Ok tt.

Section ImportVocabulary.

Context {S : Type} (JSON_parse : string -> outcome jsval).

#[local] Abbreviation ISt := (@ISt num S).
#[local] Abbreviation ImportDeps := (@ImportDeps num S).

(** Line 189-191 and 195-197 as computations. *)
Definition run_apply (deps : ImportDeps) (data : jsval) : M ISt unit :=
  match applyPoseFn deps with
  | Some f => log (CallApplyPose data) ;; run_hook (f data)
  | None => ret tt
  end.

Definition run_save (deps : ImportDeps) (name : string) : M ISt unit :=
  match saveToGallery deps with
  | Some f => log (CallSaveToGallery name false) ;; run_hook (f name false)
  | None => ret tt
  end.

(** [fails deps file s e s']: processing [file] from state [s] fails with
    [e], leaving state [s']: the read fails, or the text does not parse, or
    the apply hook throws, or the gallery hook throws. *)
Inductive fails (deps : ImportDeps) (file : File) (s : ISt) : exn -> ISt -> Prop :=
| fails_read e :
    f_text file = Throw e -> fails deps file s e s
| fails_parse text e :
    f_text file = Ok text -> JSON_parse text = Throw e -> fails deps file s e s
| fails_apply text data e s' :
    f_text file = Ok text -> JSON_parse text = Ok data ->
    run_apply deps data s = (Throw e, s') -> fails deps file s e s'
| fails_save text data e s1 s' :
    f_text file = Ok text -> JSON_parse text = Ok data ->
    run_apply deps data s = (Ok tt, s1) ->
    run_save deps (stripJson (file_name file)) s1 = (Throw e, s') ->
    fails deps file s e s'.

(** [imports deps file s s']: [file] is read, parsed, applied and saved,
    from state [s] to state [s']. *)
Inductive imports (deps : ImportDeps) (file : File) (s : ISt) : ISt -> Prop :=
| imports_intro text data s1 s' :
    f_text file = Ok text -> JSON_parse text = Ok data ->
    run_apply deps data s = (Ok tt, s1) ->
    run_save deps (stripJson (file_name file)) s1 = (Ok tt, s') ->
    imports deps file s s'.


Definition is_warn (c : @ImportCall num) : bool :=
  match c with ConsoleWarn _ _ => true | _ => false end.

(** The calls made after the loop. *)
Definition is_closing (c : @ImportCall num) : bool :=
  match c with CallRenderGallery | CallImportToast _ => true | _ => false end.

(** The end of [importPosePack] (lines 205-210) on the application state
    and on the log. *)
Definition closing_state (deps : ImportDeps) (imported : nat) (a : S) : S :=
  let a1 := match renderGallery deps with Some f => f a | None => a end in
  match importToast deps with Some f => f (summary imported) a1 | None => a1 end.

Definition closing_calls (deps : ImportDeps) (imported : nat) : list (@ImportCall num) :=
  (if isSome (renderGallery deps) then [CallRenderGallery] else []) ++
  (if isSome (importToast deps) then [CallImportToast (summary imported)] else []).

(** [quiet l]: no console warning and no closing call in [l]. *)
Definition quiet (l : list (@ImportCall num)) : Prop :=
  filter is_warn l = [] /\ filter is_closing l = [].

(** [grows s s']: the log of [s'] is the log of [s] followed by quiet
    entries. *)
Definition grows (s s' : ISt) : Prop :=
  exists l, snd s' = snd s ++ l /\ quiet l.



End ImportVocabulary.

End Vocabulary.

(** * A concrete instance

    Integers stand for the numbers of the examples. *)

Module Sample.

#[export] Instance Z_JsNumber : JsNumber Z := {|
  num_of_nat := Z.of_nat;
  num_falsy := Z.eqb 0;
  num_toString := fun z => NilZero.string_of_int (Z.to_int z)
|}.

Definition int (z : Z) : @jsval Z := JNum z.

Definition quat (x y z w : Z) : @Quaternion Z :=
  mkQuaternion (int x) (int y) (int z) (int w).

Definition vec (x y z : Z) : @Vector3 Z := mkVector3 (int x) (int y) (int z).

(** A prop factory: it appends a unit prop named after its type, with a
    fresh identity, to [world.props] and to the scene. *)
Definition newProp (t : string) (l : @Live Z) : @Live Z :=
  match props l with
  | Some ps =>
      let id := 100 + List.length ps in
      mkLive (joints l)
             (Some (ps ++ [mkProp id (JStr t) None (vec 0 0 0) (quat 0 0 0 1) (vec 1 1 1)]))
             (scene l ++ [id]) (notes l)
  | None => l
  end.

(** A prop factory that only knows cubes: it ignores any other type. *)
Definition cubesOnly (t : string) (l : @Live Z) : @Live Z :=
  if String.eqb t "cube" then newProp t l else l.

(** A joint resetter. *)
Definition resetJoints (l : @Live Z) : @Live Z :=
  mkLive (option_map (map (set_quaternion Quaternion_identity)) (joints l))
         (props l) (scene l) (notes l).

Definition allDeps (factory : string -> @Live Z -> @Live Z) : @Deps Z :=
  mkDeps true true true (Some factory) true true true (Some resetJoints).

Definition noDeps : @Deps Z := mkDeps false false false None false false false None.

(** A posed world with one prop whose type tag is capitalized. *)
Definition posed : @Live Z :=
  mkLive (Some [mkJoint "head" (quat 1 2 3 4); mkJoint "arm_L" (quat 5 6 7 8)])
         (Some [mkProp 7 (JStr "ball") (Some (mkUserData (JStr "Sphere") (JBool true)))
                       (vec 1 2 3) (quat 0 0 1 0) (vec 2 2 2)])
         [3; 7; 9] "my notes".

(** A fresh world with the same joints at rest, and no prop. *)
Definition fresh : @Live Z :=
  mkLive (Some [mkJoint "head" (quat 0 0 0 1); mkJoint "arm_L" (quat 0 0 0 1)])
         (Some []) [3; 9] EmptyString.

Definition posed_doc : @jsval Z :=
  Eval vm_compute in
    match serializePose (allDeps newProp) "2024-01-01T00:00:00.000Z" posed with
    | Ok doc => doc
    | Throw _ => JUndefined
    end.

(** A preset that poses the head and carries a malformed entry. *)
Definition preset : @jsval Z :=
  JObj [("joints", JObj [("head", JArr [int 9; int 9; int 9; int 9]);
                         ("arm_L", JArr [int 1; int 2; int 3])])].

(** A cube followed by a shape the factory does not know. *)
Definition cube_pd : @jsval Z :=
  JObj [("type", JStr "cube"); ("position", JArr [int 1; int 2; int 3])].
Definition blob_pd : @jsval Z :=
  JObj [("type", JStr "blob"); ("position", JArr [int 9; int 9; int 9])].
Definition cube_then_blob : @jsval Z := JObj [("props", JArr [cube_pd; blob_pd])].
Definition cube_only : @jsval Z := JObj [("props", JArr [cube_pd])].

(** A stand-in for [JSON.parse] that knows two texts. *)
Definition parse (text : string) : outcome (@jsval Z) :=
  if String.eqb text "{}" then Ok (JObj [])
  else if String.eqb text "null" then Ok JNull
  else Throw (OtherError "SyntaxError").

Definition file_a : File := mkFile (Some "a.json") (Ok "{}").
Definition file_b : File := mkFile (Some "b.JSON") (Ok "{ not json").
Definition file_c : File := mkFile (Some "c.json") (Ok "{}").
Definition readme : File := mkFile (Some "README.md") (Ok "{}").

(** The import collaborators: the full apply on the live world, and a
    gallery that does nothing. *)
Definition importDeps (toast : bool) : @ImportDeps Z (@St Z) :=
  mkImportDeps (Some (fun data => applyPose data (allDeps newProp)))
               (Some (fun _ _ => ret tt))
               (Some (fun a => a))
               (if toast then Some (fun _ a => a) else None).

Definition start : @ISt Z (@St Z) := (mkSt fresh [], []).

End Sample.

(** * Vocabulary of the further properties *)

Section FurtherVocabulary.

Context {num : Type} {JN : JsNumber num}.

Local Open Scope monad_scope.

#[local] Abbreviation jsval := (@jsval num).
#[local] Abbreviation Live := (@Live num).
#[local] Abbreviation St := (@St num).
#[local] Abbreviation Deps := (@Deps num).
#[local] Abbreviation Joint := (@Joint num).
#[local] Abbreviation PropObj := (@PropObj num).

(** The last joint of the list that bears the name [k]. *)
Fixpoint last_named (k : string) (js : list Joint) : option Joint :=
  match js with
  | [] => None
  | j :: r =>
      match last_named k r with
      | Some j' => Some j'
      | None => if String.eqb (j_name j) k then Some j else None
      end
  end.

(** The types that the inference can return. *)
Definition inferable_types : list string :=
  ["sphere"; "cube"; "cylinder"; "cone"; "torus"; "ring"; "disc"; "plane";
   "icosa"; "octa"; "dodeca"; "tetra"].

(** A string that is empty or starts with a character that is not white
    space. *)
Definition starts_clean (s : string) : bool :=
  match s with
  | EmptyString => true
  | String c _ => negb (is_ws c)
  end.

(** The serializer can print the type of the prop (line 50): [String]
    returns for its type tag or, when the tag is falsy, for its name. *)
Definition type_prints (p : PropObj) : bool :=
  if truthy (userData_type p) then String_returns (userData_type p)
  else String_returns (p_name p).

(** [leaves_calls m]: running [m] calls no collaborator. *)
Definition leaves_calls {A} (m : M St A) : Prop :=
  forall s, calls (snd (m s)) = calls s.

(** The calls of the prop factory that a document asks for (lines 98-102):
    one per descriptor, in document order, when a factory is supplied. *)
Definition factory_calls (data : jsval) (deps : Deps) : list Call :=
  match getProp data "props", addProp deps with
  | JArr pds, Some _ => map (fun pd => CallAddProp (propType pd)) pds
  | _, _ => []
  end.

(** The calls that end a full apply (lines 125-128). *)
Definition closing_hooks (deps : Deps) : list Call :=
  (if updateOutline deps then [CallUpdateOutline] else []) ++
  (if forceRenderOnce deps then [CallForceRenderOnce] else []) ++
  (if showToast deps then [CallShowToast "Pose loaded" None] else []).

(** The notes after a full apply that returns (lines 120-122). *)
Definition notes_after (data : jsval) (deps : Deps) (before : string) : string :=
  match getProp data "notes" with
  | JStr s => if has_poseNotesEl deps then s else before
  | _ => before
  end.

(** The children of the scene once the props [ps] have been removed from
    it (line 94). *)
Definition scene_without (ps : list PropObj) (children : list nat) : list nat :=
  fold_left (fun c p => scene_remove (p_id p) c) ps children.

Section FurtherImportVocabulary.

Context {S : Type} (JSON_parse : string -> outcome jsval).

#[local] Abbreviation ImportDeps := (@ImportDeps num S).

(** The document a file holds, when it can be read and parsed. *)
Definition parsed (file : File) : option jsval :=
  match f_text file with
  | Ok text =>
      match JSON_parse text with
      | Ok data => Some data
      | Throw _ => None
      end
  | Throw _ => None
  end.

(** The calls made for a file that is imported (lines 189-197): the apply
    hook on its document, then the gallery hook on its display name, each if
    supplied. *)
Definition import_calls (deps : ImportDeps) (file : File) : list (@ImportCall num) :=
  match parsed file with
  | Some data =>
      (if isSome (applyPoseFn deps) then [CallApplyPose data] else []) ++
      (if isSome (saveToGallery deps)
       then [CallSaveToGallery (stripJson (file_name file)) false] else [])
  | None => []
  end.

End FurtherImportVocabulary.

End FurtherVocabulary.
(** * [controls/modes.js]: the modes controller

    The controller owns the mode (rotate, move, orbit, scale), the axis
    locks and the rotation snap, and mirrors them into the buttons, the
    transform gizmo and the orbit control.  Its collaborators are objects of
    the browser and of the rendering library, modelled by the part of their
    state that the controller reads or writes: the class list of an element,
    the options and the selection of a select element, the fields of the
    gizmo that its setters assign, the [enabled] flag of the orbit control.
    Calls of the toast hook are recorded in order. *)

(** The arithmetic and the conversions of JavaScript numbers that the
    controller uses. *)
Class JsArith (num : Type) : Type := {
  num_NaN : num;
  num_of_string : string -> num;   (* [Number(s)] on a string *)
  num_isFinite : num -> bool;      (* [Number.isFinite] *)
  num_gt : num -> num -> bool;     (* [a > b] *)
  num_mul : num -> num -> num;
  num_div : num -> num -> num;
  Math_PI : num
}.

Module ModesController.

Section Controller.

Context {num : Type} {JN : JsNumber num} {JA : JsArith num}.

#[local] Abbreviation jsval := (@jsval num).

(** [Number(v)] *)
Definition js_Number (v : jsval) : num :=
  match v with
  | JUndefined => num_NaN
  | JNull => num_of_nat 0
  | JBool true => num_of_nat 1
  | JBool false => num_of_nat 0
  | JNum n => n
  | JStr s => num_of_string s
  | JArr _ | JObj _ => num_of_string (js_String v)
  end.

(** An element, by its class list; [classList.toggle(cls, force)] adds the
    class at the end when [force] holds and it is missing, and removes it
    when [force] does not hold. *)
Definition Element : Type := list string.

Definition has_class (cls : string) (el : Element) : bool :=
  existsb (String.eqb cls) el.

Definition classList_toggle (cls : string) (force : bool) (el : Element) : Element :=
  if force
  then if has_class cls el then el else el ++ [cls]
  else filter (fun c => negb (String.eqb cls c)) el.

(** A select element: the values of its options and the selected one.  Its
    [value] is the value of the selected option, or empty without one;
    assigning [value] selects the first option with that value, or none. *)
Record Select : Type := mkSelect {
  options : list string;
  selectedIndex : option nat
}.

Definition select_value (s : Select) : string :=
  match selectedIndex s with
  | Some i => nth i (options s) EmptyString
  | None => EmptyString
  end.

Fixpoint index_of (v : string) (l : list string) (i : nat) : option nat :=
  match l with
  | [] => None
  | x :: r => if String.eqb x v then Some i else index_of v r (Datatypes.S i)
  end.

Definition select_set_value (v : string) (s : Select) : Select :=
  mkSelect (options s) (index_of v (options s) 0).

(** The transform gizmo, by the fields the controller assigns. *)
Record Gizmo : Type := mkGizmo {
  g_enabled : bool;
  g_mode : string;                 (* [setMode] *)
  g_showX : bool;
  g_showY : bool;
  g_showZ : bool;
  g_rotationSnap : option num      (* [setRotationSnap]; [None] is null *)
}.

(** The orbit control. *)
Record Orbit : Type := mkOrbit { o_enabled : bool }.

(** [this.ui] *)
Record UI : Type := mkUI {
  modeRotate : option Element;
  modeMove : option Element;
  modeOrbit : option Element;
  modeScale : option Element;
  axisX : option Element;
  axisY : option Element;
  axisZ : option Element;
  rotateSnap : option Select
}.

(** The controller: its fields, and the calls of the toast hook made so
    far.  [state_mode], [axis_x], [axis_y], [axis_z] and [snapDeg] are
    [this.state]. *)
Record Controller : Type := mkController {
  ui : UI;
  orbit : option Orbit;
  gizmo : option Gizmo;
  toast : bool;
  toasts : list (string * nat);
  state_mode : string;
  axis_x : bool;
  axis_y : bool;
  axis_z : bool;
  snapDeg : num
}.

(** [_toggleClass(el, cls, on)] (lines 160-163) *)
Definition _toggleClass (el : option Element) (cls : string) (on : bool) : option Element :=
  match el with
  | None => None
  | Some e => Some (classList_toggle cls on e)
  end.

(** [_degToRad(d)] (lines 165-167) *)
Definition _degToRad (d : num) : num :=
  num_div (num_mul d Math_PI) (num_of_nat 180).

(** [_toast(msg, ms = 1100)] (lines 156-158) *)
Definition _toast (msg : string) (c : Controller) : Controller :=
  if toast c
  then mkController (ui c) (orbit c) (gizmo c) (toast c) (toasts c ++ [(msg, 1100)])
         (state_mode c) (axis_x c) (axis_y c) (axis_z c) (snapDeg c)
  else c.

(** [applyState()] (lines 76-119) *)
Definition applyState (c : Controller) : Controller :=
  let mode := state_mode c in
  let u := ui c in
  let orbOn := String.eqb mode "orbit" in
  let gizmo' :=
    match gizmo c with
    | Some g =>
        Some (mkGizmo
                (negb orbOn)
                (if String.eqb mode "move" then "translate"
                 else if String.eqb mode "scale" then "scale"
                 else "rotate")
                (axis_x c) (axis_y c) (axis_z c)
                (if String.eqb mode "rotate" && num_gt (snapDeg c) (num_of_nat 0)
                 then Some (_degToRad (snapDeg c))
                 else None))
    | None => None
    end in
  let orbit' :=
    match orbit c with
    | Some _ => Some (mkOrbit orbOn)
    | None => None
    end in
  let rotateSnap' :=
    match rotateSnap u with
    | Some s =>
        if negb (String.eqb (select_value s) (num_toString (snapDeg c)))
        then Some (select_set_value (num_toString (snapDeg c)) s)
        else Some s
    | None => None
    end in
  mkController
    (mkUI (_toggleClass (modeRotate u) "btn--active" (String.eqb mode "rotate"))
          (_toggleClass (modeMove u) "btn--active" (String.eqb mode "move"))
          (_toggleClass (modeOrbit u) "btn--active" (String.eqb mode "orbit"))
          (_toggleClass (modeScale u) "btn--active" (String.eqb mode "scale"))
          (_toggleClass (axisX u) "chip--active" (axis_x c))
          (_toggleClass (axisY u) "chip--active" (axis_y c))
          (_toggleClass (axisZ u) "chip--active" (axis_z c))
          rotateSnap')
    orbit' gizmo' (toast c) (toasts c)
    (state_mode c) (axis_x c) (axis_y c) (axis_z c) (snapDeg c).

Definition set_state_mode (m : string) (c : Controller) : Controller :=
  mkController (ui c) (orbit c) (gizmo c) (toast c) (toasts c)
    m (axis_x c) (axis_y c) (axis_z c) (snapDeg c).

Definition set_axis (x y z : bool) (c : Controller) : Controller :=
  mkController (ui c) (orbit c) (gizmo c) (toast c) (toasts c)
    (state_mode c) x y z (snapDeg c).

Definition set_snapDeg (n : num) (c : Controller) : Controller :=
  mkController (ui c) (orbit c) (gizmo c) (toast c) (toasts c)
    (state_mode c) (axis_x c) (axis_y c) (axis_z c) n.

Definition set_orbit (o : option Orbit) (c : Controller) : Controller :=
  mkController (ui c) o (gizmo c) (toast c) (toasts c)
    (state_mode c) (axis_x c) (axis_y c) (axis_z c) (snapDeg c).

Definition set_rotateSnap (s : option Select) (c : Controller) : Controller :=
  let u := ui c in
  mkController
    (mkUI (modeRotate u) (modeMove u) (modeOrbit u) (modeScale u)
          (axisX u) (axisY u) (axisZ u) s)
    (orbit c) (gizmo c) (toast c) (toasts c)
    (state_mode c) (axis_x c) (axis_y c) (axis_z c) (snapDeg c).

(** [setMode(mode)] (lines 52-62) *)
Definition setMode (mode : jsval) (c : Controller) : Controller :=
  match mode with
  | JStr m =>
      if negb (String.eqb m "rotate") && negb (String.eqb m "move")
         && negb (String.eqb m "orbit") && negb (String.eqb m "scale")
      then c
      else
        _toast (if String.eqb m "rotate" then "Rotate mode"
                else if String.eqb m "move" then "Move mode"
                else if String.eqb m "orbit" then "Orbit mode"
                else "Scale mode")
               (applyState (set_state_mode m c))
  | _ => c
  end.

(** [toggleAxis(key)] (lines 64-68) *)
Definition toggleAxis (key : jsval) (c : Controller) : Controller :=
  match key with
  | JStr k =>
      if String.eqb k "x"
      then applyState (set_axis (negb (axis_x c)) (axis_y c) (axis_z c) c)
      else if String.eqb k "y"
      then applyState (set_axis (axis_x c) (negb (axis_y c)) (axis_z c) c)
      else if String.eqb k "z"
      then applyState (set_axis (axis_x c) (axis_y c) (negb (axis_z c)) c)
      else c
  | _ => c
  end.

(** [setSnapDeg(deg)] (lines 70-74) *)
Definition setSnapDeg (deg : jsval) (c : Controller) : Controller :=
  let n := js_Number deg in
  applyState (set_snapDeg (if num_isFinite n then n else num_of_nat 0) c).

(** [handleShortcut(keyLower)] (lines 125-130) *)
Definition handleShortcut (keyLower : jsval) (c : Controller) : Controller :=
  match keyLower with
  | JStr k =>
      if String.eqb k "1" then setMode (JStr "rotate") c
      else if String.eqb k "2" then setMode (JStr "move") c
      else if String.eqb k "3" then setMode (JStr "orbit") c
      else if String.eqb k "4" then setMode (JStr "scale") c
      else c
  | _ => c
  end.

(** The listener of the select element (lines 142-145). *)
Definition onRotateSnapChange (c : Controller) : Controller :=
  match rotateSnap (ui c) with
  | Some s =>
      let value := select_value s in
      let v := js_Number (js_or (JStr value) (JNum (num_of_nat 0))) in
      setSnapDeg (JNum v) c
  | None => c
  end.

(** The listener of the gizmo's [dragging-changed] event (lines 149-152);
    [value] is [e.value]. *)
Definition onDraggingChanged (value : bool) (c : Controller) : Controller :=
  let c1 :=
    match orbit c with
    | Some _ => set_orbit (Some (mkOrbit (negb value && String.eqb (state_mode c) "orbit"))) c
    | None => c
    end in
  if value
  then _toast (if String.eqb (state_mode c) "move" then "Moving…"
               else if String.eqb (state_mode c) "scale" then "Scaling…"
               else "Rotating…") c1
  else c1.

(** What can happen to a controller once it is built: a call of one of its
    methods, or an event on an element it listens to.  The user picks an
    option of the select element before its [change] event. *)
Inductive Action : Type :=
| DoSetMode (mode : jsval)
| DoToggleAxis (key : jsval)
| DoSetSnapDeg (deg : jsval)
| DoApplyState
| DoHandleShortcut (keyLower : jsval)
| ClickModeRotate
| ClickModeMove
| ClickModeOrbit
| ClickModeScale
| ClickAxisX
| ClickAxisY
| ClickAxisZ
| PickRotateSnap (index : nat)
| DraggingChanged (value : bool).

(** The listeners bound by [_bindUI()] (lines 132-154): an element that is
    missing has none, and the gizmo listener is bound only when both the
    gizmo and the orbit control are there. *)
Definition perform (a : Action) (c : Controller) : Controller :=
  match a with
  | DoSetMode mode => setMode mode c
  | DoToggleAxis key => toggleAxis key c
  | DoSetSnapDeg deg => setSnapDeg deg c
  | DoApplyState => applyState c
  | DoHandleShortcut k => handleShortcut k c
  | ClickModeRotate => if isSome (modeRotate (ui c)) then setMode (JStr "rotate") c else c
  | ClickModeMove => if isSome (modeMove (ui c)) then setMode (JStr "move") c else c
  | ClickModeOrbit => if isSome (modeOrbit (ui c)) then setMode (JStr "orbit") c else c
  | ClickModeScale => if isSome (modeScale (ui c)) then setMode (JStr "scale") c else c
  | ClickAxisX => if isSome (axisX (ui c)) then toggleAxis (JStr "x") c else c
  | ClickAxisY => if isSome (axisY (ui c)) then toggleAxis (JStr "y") c else c
  | ClickAxisZ => if isSome (axisZ (ui c)) then toggleAxis (JStr "z") c else c
  | PickRotateSnap i =>
      match rotateSnap (ui c) with
      | Some s =>
          if i <? List.length (options s)
          then onRotateSnapChange (set_rotateSnap (Some (mkSelect (options s) (Some i))) c)
          else c
      | None => c
      end
  | DraggingChanged value =>
      if isSome (gizmo c) && isSome (orbit c) then onDraggingChanged value c else c
  end.

(** [new ModesController(opts)] (lines 26-50); the fields of [opts] are the
    arguments. *)
Definition construct (opts_ui : UI) (opts_orbit : option Orbit) (opts_gizmo : option Gizmo)
  (opts_toast : bool) : Controller :=
  applyState
    (mkController opts_ui opts_orbit opts_gizmo opts_toast []
       "rotate" true true true (num_of_nat 10)).

End Controller.

End ModesController.

(** * [core/state.js]: the central state

    The functions mutate the state object and return the field they wrote;
    here they return the new state and that value.  A key is a string. *)

Module State.

Section CoreState.

Context {num : Type} {JN : JsNumber num} {JA : JsArith num}.

#[local] Abbreviation jsval := (@jsval num).

(** What a read [o[k]] of a plain object finds: a property of its own, a
    member inherited from [Object.prototype] (a function, or the prototype
    object for [__proto__]), or nothing, which reads as [undefined]. *)
Inductive Member : Type :=
| Own (v : jsval)
| Inherited
| Missing.

Definition plain_get (o : list (string * jsval)) (k : string) : Member :=
  if has_own o k then Own (obj_get o k)
  else if inherited k then Inherited
  else Missing.

(** [!m] is [negb (member_truthy m)]: a function and an object are
    truthy. *)
Definition member_truthy (m : Member) : bool :=
  match m with
  | Own v => truthy v
  | Inherited => true
  | Missing => false
  end.

(** [o[k] = b] for a boolean [b].  The assignment creates or updates a
    property of the object, except under the key [__proto__] when the
    object has no such property of its own: the setter inherited from
    [Object.prototype] then runs, and it ignores a value that is neither an
    object nor null. *)
Definition plain_set_bool (o : list (string * jsval)) (k : string) (b : bool)
  : list (string * jsval) :=
  if String.eqb k "__proto__" && negb (has_own o k) then o
  else obj_set o k (JBool b).

(** The state object; [axis] is a plain object, by the bindings of its
    own. *)
Record AppState : Type := mkAppState {
  mode : jsval;
  axis : list (string * jsval);
  snapDeg : num;
  showGrid : bool;
  showAxes : bool;
  showOutline : bool;
  perfEnabled : bool
}.

(** [createState()] (lines 333-345) *)
Definition createState : AppState :=
  mkAppState (JStr "rotate")
    [("x", JBool true); ("y", JBool true); ("z", JBool true)]
    (num_of_nat 10) true false true false.

(** [setMode(state, mode)] (lines 347-350) *)
Definition setMode (state : AppState) (m : jsval) : AppState * jsval :=
  (mkAppState m (axis state) (snapDeg state) (showGrid state) (showAxes state)
     (showOutline state) (perfEnabled state), m).

(** [toggleAxis(state, key)] (lines 352-355): the flag is read, its
    negation is assigned, and the flag is read again for the result. *)
Definition toggleAxis (state : AppState) (key : string) : AppState * Member :=
  let v := negb (member_truthy (plain_get (axis state) key)) in
  let axis' := plain_set_bool (axis state) key v in
  (mkAppState (mode state) axis' (snapDeg state) (showGrid state)
     (showAxes state) (showOutline state) (perfEnabled state),
   plain_get axis' key).

(** [setSnapDeg(state, deg)] (lines 357-361) *)
Definition setSnapDeg (state : AppState) (deg : jsval) : AppState * num :=
  let n := ModesController.js_Number deg in
  let n' := if num_isFinite n then n else snapDeg state in
  (mkAppState (mode state) (axis state) n' (showGrid state) (showAxes state)
     (showOutline state) (perfEnabled state), n').

(** [setShowGrid], [setShowAxes], [setShowOutline], [setPerfEnabled]
    (lines 363-381) *)
Definition setShowGrid (state : AppState) (on : jsval) : AppState * bool :=
  (mkAppState (mode state) (axis state) (snapDeg state) (truthy on) (showAxes state)
     (showOutline state) (perfEnabled state), truthy on).

Definition setShowAxes (state : AppState) (on : jsval) : AppState * bool :=
  (mkAppState (mode state) (axis state) (snapDeg state) (showGrid state) (truthy on)
     (showOutline state) (perfEnabled state), truthy on).

Definition setShowOutline (state : AppState) (on : jsval) : AppState * bool :=
  (mkAppState (mode state) (axis state) (snapDeg state) (showGrid state) (showAxes state)
     (truthy on) (perfEnabled state), truthy on).

Definition setPerfEnabled (state : AppState) (on : jsval) : AppState * bool :=
  (mkAppState (mode state) (axis state) (snapDeg state) (showGrid state) (showAxes state)
     (showOutline state) (truthy on), truthy on).

End CoreState.

End State.

(** * Vocabulary of the controller's properties *)

Section ModesVocabulary.

Context {num : Type} {JN : JsNumber num} {JA : JsArith num}.

Import ModesController.

#[local] Abbreviation jsval := (@jsval num).
#[local] Abbreviation Controller := (@Controller num).
#[local] Abbreviation Gizmo := (@Gizmo num).

(** One of the four modes. *)
Definition valid_mode (m : string) : bool :=
  String.eqb m "rotate" || String.eqb m "move" || String.eqb m "orbit"
  || String.eqb m "scale".

(** The settings of the gizmo that the state of the controller calls
    for. *)
Definition expected_gizmo (c : Controller) : Gizmo :=
  mkGizmo
    (negb (String.eqb (state_mode c) "orbit"))
    (if String.eqb (state_mode c) "move" then "translate"
     else if String.eqb (state_mode c) "scale" then "scale" else "rotate")
    (axis_x c) (axis_y c) (axis_z c)
    (if String.eqb (state_mode c) "rotate" && num_gt (snapDeg c) (num_of_nat 0)
     then Some (_degToRad (snapDeg c)) else None).

(** An element, when present, bears the class exactly when [on] holds. *)
Definition shows (el : option Element) (cls : string) (on : bool) : Prop :=
  match el with
  | Some e => has_class cls e = on
  | None => True
  end.

(** The buttons and chips show the mode and the axis locks. *)
Definition buttons_mirror (c : Controller) : Prop :=
  shows (modeRotate (ui c)) "btn--active" (String.eqb (state_mode c) "rotate") /\
  shows (modeMove (ui c)) "btn--active" (String.eqb (state_mode c) "move") /\
  shows (modeOrbit (ui c)) "btn--active" (String.eqb (state_mode c) "orbit") /\
  shows (modeScale (ui c)) "btn--active" (String.eqb (state_mode c) "scale") /\
  shows (axisX (ui c)) "chip--active" (axis_x c) /\
  shows (axisY (ui c)) "chip--active" (axis_y c) /\
  shows (axisZ (ui c)) "chip--active" (axis_z c).

(** The gizmo, when present, has the settings the state calls for. *)
Definition gizmo_mirrors (c : Controller) : Prop :=
  match gizmo c with
  | Some g => g = expected_gizmo c
  | None => True
  end.

(** The orbit control, when present, is enabled only in orbit mode. *)
Definition orbit_guarded (c : Controller) : Prop :=
  match orbit c with
  | Some o => o_enabled o = true -> state_mode c = "orbit"
  | None => True
  end.

(** The orbit control, when present, is enabled exactly in orbit mode. *)
Definition orbit_mirrors (c : Controller) : Prop :=
  match orbit c with
  | Some o => o_enabled o = String.eqb (state_mode c) "orbit"
  | None => True
  end.

Definition consistent (c : Controller) : Prop :=
  valid_mode (state_mode c) = true /\
  gizmo_mirrors c /\ orbit_guarded c /\ buttons_mirror c.

(** The controllers that can arise: a new one, and what an action makes of
    one. *)
Inductive reachable : Controller -> Prop :=
| reachable_new u o g t : reachable (construct u o g t)
| reachable_step a c : reachable c -> reachable (perform a c).

(** Two elements with the same classes, whatever their order. *)
Definition same_classes (a b : option Element) : Prop :=
  match a, b with
  | Some e, Some e' => forall cls, has_class cls e = has_class cls e'
  | None, None => True
  | _, _ => False
  end.

(** Two controllers that differ at most in the order of the classes of
    their elements. *)
Definition same_controller (c c' : Controller) : Prop :=
  same_classes (modeRotate (ui c)) (modeRotate (ui c')) /\
  same_classes (modeMove (ui c)) (modeMove (ui c')) /\
  same_classes (modeOrbit (ui c)) (modeOrbit (ui c')) /\
  same_classes (modeScale (ui c)) (modeScale (ui c')) /\
  same_classes (axisX (ui c)) (axisX (ui c')) /\
  same_classes (axisY (ui c)) (axisY (ui c')) /\
  same_classes (axisZ (ui c)) (axisZ (ui c')) /\
  rotateSnap (ui c) = rotateSnap (ui c') /\
  orbit c = orbit c' /\ gizmo c = gizmo c' /\
  toast c = toast c' /\ toasts c = toasts c' /\
  state_mode c = state_mode c' /\
  axis_x c = axis_x c' /\ axis_y c = axis_y c' /\ axis_z c = axis_z c' /\
  snapDeg c = snapDeg c'.

End ModesVocabulary.

(** * Further concrete instances *)

Module SampleMore.

Import Sample.
Import ModesController.

(** The numbers of the controller's examples: the integers and NaN.  The
    arithmetic is that of the integers, with 3 standing for pi. *)
Inductive number : Type :=
| Fin (z : Z)
| NaN.

#[export] Instance number_JsNumber : JsNumber number := {|
  num_of_nat := fun n => Fin (Z.of_nat n);
  num_falsy := fun x => match x with Fin z => Z.eqb z 0 | NaN => true end;
  num_toString := fun x =>
    match x with
    | Fin z => NilZero.string_of_int (Z.to_int z)
    | NaN => "NaN"
    end
|}.

#[export] Instance number_JsArith : JsArith number := {|
  num_NaN := NaN;
  num_of_string := fun s =>
    if is_empty s then Fin 0
    else match NilZero.int_of_string s with
         | Some i => Fin (Z.of_int i)
         | None => NaN
         end;
  num_isFinite := fun x => match x with Fin _ => true | NaN => false end;
  num_gt := fun a b =>
    match a, b with
    | Fin x, Fin y => Z.ltb y x
    | _, _ => false
    end;
  num_mul := fun a b =>
    match a, b with Fin x, Fin y => Fin (x * y) | _, _ => NaN end;
  num_div := fun a b =>
    match a, b with Fin x, Fin y => Fin (x / y) | _, _ => NaN end;
  Math_PI := Fin 3
|}.

(** A page with every button, a select element offering four snap angles,
    a gizmo and an orbit control. *)
Definition page : UI :=
  mkUI (Some ["btn"]) (Some ["btn"; "btn--active"]) (Some ["btn"]) (Some ["btn"])
       (Some ["chip"]) (Some ["chip--active"; "chip"]) (Some ["chip"])
       (Some (mkSelect ["0"; "5"; "10"; "15"] (Some 0))).

Definition idleGizmo : @Gizmo number := mkGizmo true "translate" true true true None.

Definition fullController : @Controller number :=
  construct page (Some (mkOrbit true)) (Some idleGizmo) true.

(** The controller after the shortcut of orbit mode. *)
Definition orbiting : @Controller number :=
  perform (DoHandleShortcut (JStr "3")) fullController.

(** A world with two joints of the same name. *)
Definition twins : @Live Z :=
  mkLive (Some [mkJoint "arm" (quat 1 0 0 0); mkJoint "head" (quat 0 1 0 0);
                mkJoint "arm" (quat 0 0 1 0)])
         (Some []) [] EmptyString.

(** The same joints as [posed], in another pose. *)
Definition posed_otherwise : @Live Z :=
  mkLive (Some [mkJoint "head" (quat 4 3 2 1); mkJoint "arm_L" (quat 8 7 6 5)])
         (Some []) [] EmptyString.

Definition noResetDeps : @Deps Z :=
  mkDeps true true true (Some newProp) true true true None.

Definition noFactoryDeps : @Deps Z :=
  mkDeps true true true None true true true None.

(** Documents: one with notes only, one with an empty prop list. *)
Definition notes_only : @jsval Z := JObj [("notes", JStr "look up")].
Definition no_props : @jsval Z := JObj [("props", JArr [])].

(** A descriptor whose type is neither trimmed nor lowercase. *)
Definition sphere_pd : @jsval Z := JObj [("type", JStr " Sphere "); ("name", JStr "ball")].

(** The application states in which the full apply finds its world. *)
Definition ready (st : @St Z) : Prop := world_ok (allDeps newProp) (live st) = true.

Definition file_null : File := mkFile (Some "n.json") (Ok "null").

End SampleMore.

(** * Properties *)

Section Properties.

Context {num : Type} {JN : JsNumber num}.

Local Open Scope monad_scope.

#[local] Abbreviation jsval := (@jsval num).
#[local] Abbreviation Live := (@Live num).
#[local] Abbreviation St := (@St num).
#[local] Abbreviation Deps := (@Deps num).
#[local] Abbreviation Joint := (@Joint num).
#[local] Abbreviation PropObj := (@PropObj num).
#[local] Abbreviation Quaternion := (@Quaternion num).
#[local] Abbreviation Vector3 := (@Vector3 num).
#[local] Abbreviation keeps := (@keeps num).
#[local] Abbreviation only_TypeError := (@only_TypeError num).
#[local] Abbreviation succeeds := (@succeeds num).

(** ** Reasoning about computations *)

Lemma bind_run {Sigma A B} (m : M Sigma A) (f : A -> M Sigma B) (s : Sigma) :
  bind m f s =
  match m s with
  | (Ok a, s') => f a s'
  | (Throw e, s') => (Throw e, s')
  end.
Proof. reflexivity. Qed.

Lemma keeps_ret {A B} (proj : Live -> B) (a : A) : keeps proj (ret a).
Proof. intro s; reflexivity. Qed.

Lemma keeps_throw {A B} (proj : Live -> B) (e : exn) : keeps proj (@throw St A e).
Proof. intro s; reflexivity. Qed.

Lemma keeps_lift {A B} (proj : Live -> B) (o : outcome A) : keeps proj (lift o).
Proof. intro s; reflexivity. Qed.

Lemma keeps_call {B} (proj : Live -> B) (c : Call) : keeps proj (call c).
Proof. intro s; reflexivity. Qed.

Lemma keeps_get_live {B} (proj : Live -> B) : keeps proj get_live.
Proof. intro s; reflexivity. Qed.

Lemma keeps_modify {B} (proj : Live -> B) (f : Live -> Live) :
  (forall l, proj (f l) = proj l) -> keeps proj (modify_live f).
Proof. intros H s; simpl; apply H. Qed.

Lemma keeps_bind {A B C} (proj : Live -> C) (m : M St A) (f : A -> M St B) :
  keeps proj m -> (forall a, keeps proj (f a)) -> keeps proj (bind m f).
Proof.
  intros Hm Hf s. rewrite bind_run. specialize (Hm s).
  destruct (m s) as [[a | e] s']; simpl in *.
  - rewrite Hf. exact Hm.
  - exact Hm.
Qed.

Lemma keeps_when {B} (proj : Live -> B) (b : bool) (m : M St unit) :
  keeps proj m -> keeps proj (when b m).
Proof. intros H; destruct b; simpl; [exact H | apply keeps_ret]. Qed.

Lemma keeps_forEach {A B} (proj : Live -> B) (l : list A) (body : A -> M St unit) :
  (forall x, keeps proj (body x)) -> keeps proj (forEach l body).
Proof.
  intros H; induction l as [| x r IH]; simpl.
  - apply keeps_ret.
  - apply keeps_bind; [apply H | intros _; exact IH].
Qed.

Lemma keeps_read_joints {B} (proj : Live -> B) : keeps proj read_joints.
Proof.
  apply keeps_bind; [apply keeps_get_live |].
  intros l; destruct (joints l); [apply keeps_ret | apply keeps_throw].
Qed.

Lemma keeps_read_props {B} (proj : Live -> B) : keeps proj read_props.
Proof.
  apply keeps_bind; [apply keeps_get_live |].
  intros l; destruct (props l); [apply keeps_ret | apply keeps_throw].
Qed.

Lemma ote_ret {A} (a : A) : only_TypeError (ret a).
Proof. intros s e H; discriminate H. Qed.

Lemma ote_call (c : Call) : only_TypeError (call c).
Proof. intros s e H; discriminate H. Qed.

Lemma ote_modify (f : Live -> Live) : only_TypeError (modify_live f).
Proof. intros s e H; discriminate H. Qed.

Lemma ote_get_live : only_TypeError get_live.
Proof. intros s e H; discriminate H. Qed.

Lemma ote_throw {A} (what : string) : only_TypeError (@throw St A (TypeError what)).
Proof. intros s e H; injection H as <-; eauto. Qed.

Lemma ote_bind {A B} (m : M St A) (f : A -> M St B) :
  only_TypeError m -> (forall a, only_TypeError (f a)) -> only_TypeError (bind m f).
Proof.
  intros Hm Hf s e. rewrite bind_run. specialize (Hm s).
  destruct (m s) as [[a | e'] s']; simpl in *.
  - apply Hf.
  - intros H; injection H as <-. exact (Hm e' eq_refl).
Qed.

Lemma ote_when (b : bool) (m : M St unit) :
  only_TypeError m -> only_TypeError (when b m).
Proof. intros H; destruct b; simpl; [exact H | apply ote_ret]. Qed.

Lemma ote_forEach {A} (l : list A) (body : A -> M St unit) :
  (forall x, only_TypeError (body x)) -> only_TypeError (forEach l body).
Proof.
  intros H; induction l as [| x r IH]; simpl.
  - apply ote_ret.
  - apply ote_bind; [apply H | intros _; exact IH].
Qed.

Lemma ote_getMember (v : jsval) (k : string) : only_TypeError (lift (getMember v k)).
Proof.
  intros s e; unfold lift, getMember; simpl.
  destruct v; simpl; intros H; try discriminate H; injection H as <-; eauto.
Qed.

Lemma ote_read_joints : only_TypeError read_joints.
Proof.
  apply ote_bind; [apply ote_get_live |].
  intros l; destruct (joints l); [apply ote_ret | apply ote_throw].
Qed.

Lemma ote_read_props : only_TypeError read_props.
Proof.
  apply ote_bind; [apply ote_get_live |].
  intros l; destruct (props l); [apply ote_ret | apply ote_throw].
Qed.

Lemma ote_modify_p (f : PropObj -> PropObj) : only_TypeError (modify_p f).
Proof. apply ote_bind; [apply ote_read_props | intros; apply ote_modify]. Qed.

Create HintDb ote.

#[local] Hint Resolve ote_ret ote_call ote_modify ote_get_live ote_throw ote_when
  ote_forEach ote_getMember ote_read_joints ote_read_props ote_modify_p : ote.

Ltac ote_step :=
  first [ solve [auto with ote]
        | apply ote_when
        | apply ote_forEach; intros ?
        | apply ote_bind; [| intros ? ] ].

Lemma ote_applyPose_joints (data : jsval) : only_TypeError (applyPose_joints data).
Proof. unfold applyPose_joints. repeat ote_step; auto with ote. Qed.

Lemma ote_applyPose_prop (deps : Deps) (pd : jsval) : only_TypeError (applyPose_prop deps pd).
Proof.
  unfold applyPose_prop. destruct (addProp deps); [| apply ote_ret].
  repeat ote_step; auto with ote.
  destruct (last_entry _); [| apply ote_ret].
  repeat ote_step; auto with ote.
Qed.

Lemma ote_applyPose_props (data : jsval) (deps : Deps) :
  only_TypeError (applyPose_props data deps).
Proof.
  unfold applyPose_props, removeOldProps.
  destruct (getProp data "props"); auto with ote.
  repeat ote_step; auto with ote. apply ote_applyPose_prop.
Qed.

Lemma ote_applyPose_notes (data : jsval) (deps : Deps) :
  only_TypeError (applyPose_notes data deps).
Proof.
  unfold applyPose_notes. destruct (getProp data "notes"); auto with ote.
Qed.

(** ** Validation (lines 79-81 and 140-142) *)

Lemma applyPose_cases (data : jsval) (deps : Deps) (st : St) :
  applyPose data deps st =
  if negb (structured data) then (Throw InvalidPoseError, st)
  else if negb (world_ok deps (live st)) then (Throw MissingWorldError, st)
  else if negb (has_scene deps) then (Throw MissingSceneError, st)
  else applyPose_checked data deps st.
Proof.
  unfold applyPose, structured, world_ok.
  rewrite <- negb_andb.
  destruct (truthy data && typeof_object data); simpl; [| reflexivity].
  rewrite bind_run; simpl.
  rewrite <- !negb_andb.
  destruct (has_world deps && isSome (joints (live st)) && isSome (props (live st)));
    simpl; [| reflexivity].
  destruct (has_scene deps); reflexivity.
Qed.

Lemma applyPoseJointsOnly_cases (data : jsval) (deps : Deps) (st : St) :
  applyPoseJointsOnly data deps st =
  if negb (structured data) then (Throw InvalidPresetObjectError, st)
  else if negb (structured (getProp data "joints")) then (Throw InvalidPresetError, st)
  else if negb (preset_world_ok deps (live st)) then (Throw PresetMissingWorldError, st)
  else applyPoseJointsOnly_checked data deps st.
Proof.
  unfold applyPoseJointsOnly, structured, preset_world_ok.
  rewrite <- !negb_andb.
  destruct (truthy data && typeof_object data); simpl; [| reflexivity].
  destruct (truthy (getProp data "joints") && typeof_object (getProp data "joints"));
    simpl; [| reflexivity].
  rewrite bind_run; simpl.
  rewrite <- negb_andb.
  destruct (has_world deps && isSome (joints (live st))); reflexivity.
Qed.

Lemma ote_applyPose_checked (data : jsval) (deps : Deps) :
  only_TypeError (applyPose_checked data deps).
Proof.
  unfold applyPose_checked.
  repeat (apply ote_bind; [| intros _]);
    auto using ote_applyPose_joints, ote_applyPose_props, ote_applyPose_notes with ote.
Qed.

Lemma ote_applyPoseJointsOnly_checked (data : jsval) (deps : Deps) :
  only_TypeError (applyPoseJointsOnly_checked data deps).
Proof.
  unfold applyPoseJointsOnly_checked.
  apply ote_bind.
  { destruct (resetAllJointRotations deps); repeat ote_step. }
  intros _. apply ote_bind; [apply ote_read_joints |]. intros js.
  destruct (jointsOnly_loop _ js 0) as [js' n].
  repeat (apply ote_bind; [| intros _]); auto with ote.
  apply ote_when. destruct (n =? 0); auto with ote.
Qed.

Lemma checked_not_JsError {A} (m : M St A) (st : St) (msg : string) :
  only_TypeError m -> fst (m st) <> Throw (JsError msg).
Proof.
  intros H E. destruct (H st _ E) as [what Hw]. discriminate Hw.
Qed.

(** C8 (as amended).  The checks run in a fixed order, and each error is
    thrown exactly when the earlier checks pass and its own fails: the full
    apply throws [InvalidPoseError] exactly when the document is null or not
    a structured value, otherwise [MissingWorldError] exactly when no world
    with joint and prop collections is passed, otherwise [MissingSceneError]
    exactly when no scene is passed; the joints-only apply throws its
    invalid-object error exactly when the document is null or not
    structured, otherwise [InvalidPresetError] exactly when
    [document.joints] is missing, null or not an object or array, otherwise
    its missing-world error exactly when no world with a joint collection is
    passed.  Whenever one of these errors is thrown, nothing was mutated and
    no collaborator was called. *)
Theorem C8_validation_errors_in_order (data : jsval) (deps : Deps) (st : St) :
  let full := applyPose data deps st in
  let only := applyPoseJointsOnly data deps st in
  (fst full = Throw InvalidPoseError <-> structured data = false) /\
  (fst full = Throw MissingWorldError <->
     structured data = true /\ world_ok deps (live st) = false) /\
  (fst full = Throw MissingSceneError <->
     structured data = true /\ world_ok deps (live st) = true /\ has_scene deps = false) /\
  (fst only = Throw InvalidPresetObjectError <-> structured data = false) /\
  (fst only = Throw InvalidPresetError <->
     structured data = true /\ structured (getProp data "joints") = false) /\
  (fst only = Throw PresetMissingWorldError <->
     structured data = true /\ structured (getProp data "joints") = true /\
     preset_world_ok deps (live st) = false) /\
  (forall msg, fst full = Throw (JsError msg) -> snd full = st) /\
  (forall msg, fst only = Throw (JsError msg) -> snd only = st).
Proof.
  cbv zeta. rewrite applyPose_cases, applyPoseJointsOnly_cases.
  pose proof (fun msg => checked_not_JsError _ st msg (ote_applyPose_checked data deps))
    as Hfull.
  pose proof (fun msg => checked_not_JsError _ st msg
                           (ote_applyPoseJointsOnly_checked data deps)) as Honly.
  unfold InvalidPoseError, MissingWorldError, MissingSceneError, InvalidPresetObjectError,
    InvalidPresetError, PresetMissingWorldError.
  destruct (structured data), (world_ok deps (live st)), (has_scene deps),
    (structured (getProp data "joints")), (preset_world_ok deps (live st));
    cbn [negb fst snd];
    repeat split; intros;
    repeat match goal with H : _ /\ _ |- _ => destruct H end;
    solve [ reflexivity | discriminate
          | exfalso; eapply Hfull; eassumption
          | exfalso; eapply Honly; eassumption ].
Qed.

(** C10.  Whenever [applyPose] or [applyPoseJointsOnly] throws one of its
    validation errors (the errors raised by [throw new Error(...)]), the
    live world (joints and props), the scene, the notes and the log of
    collaborator calls are exactly as before the call: every check runs
    before the first mutation and before the joint-reset hook. *)
Theorem C10_validation_errors_leave_state (data : jsval) (deps : Deps) (st : St)
  (msg : string) :
  (fst (applyPose data deps st) = Throw (JsError msg) ->
   snd (applyPose data deps st) = st) /\
  (fst (applyPoseJointsOnly data deps st) = Throw (JsError msg) ->
   snd (applyPoseJointsOnly data deps st) = st).
Proof.
  rewrite applyPose_cases, applyPoseJointsOnly_cases. split.
  - destruct (structured data); simpl; [| reflexivity].
    destruct (world_ok deps (live st)); simpl; [| reflexivity].
    destruct (has_scene deps); simpl; [| reflexivity].
    intros H. exfalso.
    exact (checked_not_JsError _ st msg (ote_applyPose_checked data deps) H).
  - destruct (structured data); simpl; [| reflexivity].
    destruct (structured (getProp data "joints")); simpl; [| reflexivity].
    destruct (preset_world_ok deps (live st)); simpl; [| reflexivity].
    intros H. exfalso.
    exact (checked_not_JsError _ st msg (ote_applyPoseJointsOnly_checked data deps) H).
Qed.

(** ** Frame of the joints-only apply *)

Lemma keeps_hooks {B} (proj : Live -> B) (deps : Deps) (toast : M St unit) :
  keeps proj toast ->
  keeps proj (when (updateOutline deps) (call CallUpdateOutline) ;;
              when (forceRenderOnce deps) (call CallForceRenderOnce) ;;
              when (showToast deps) toast).
Proof.
  intros H.
  repeat (apply keeps_bind; [| intros _]); apply keeps_when;
    first [apply keeps_call | exact H].
Qed.

Lemma keeps_applyPoseJointsOnly {B} (proj : Live -> B) (data : jsval) (deps : Deps) :
  (forall js l, proj (set_joints js l) = proj l) ->
  (forall reset, resetAllJointRotations deps = Some reset ->
                 forall l, proj (reset l) = proj l) ->
  keeps proj (applyPoseJointsOnly data deps).
Proof.
  intros Hset Hreset st. rewrite applyPoseJointsOnly_cases.
  destruct (structured data); simpl; [| reflexivity].
  destruct (structured (getProp data "joints")); simpl; [| reflexivity].
  destruct (preset_world_ok deps (live st)); simpl; [| reflexivity].
  revert st. change (keeps proj (applyPoseJointsOnly_checked data deps)).
  unfold applyPoseJointsOnly_checked.
  apply keeps_bind.
  { destruct (resetAllJointRotations deps) as [reset |] eqn:E.
    - apply keeps_bind; [apply keeps_call | intros _].
      apply keeps_modify. apply Hreset. reflexivity.
    - apply keeps_ret. }
  intros _. apply keeps_bind; [apply keeps_read_joints |]. intros js.
  destruct (jointsOnly_loop _ js 0) as [js' n].
  apply keeps_bind; [apply keeps_modify; apply Hset | intros _].
  repeat (apply keeps_bind; [| intros _]);
    try (apply keeps_when; try apply keeps_call); try apply keeps_ret.
  destruct (n =? 0); apply keeps_call.
Qed.

(** C9.  [applyPoseJointsOnly] never touches props or notes: for every
    document, collaborators and state, whether it returns or throws, the
    prop collection with each prop's state, the notes and the scene are
    exactly as they were before the call, provided the injected joint
    resetter itself leaves them alone. *)
Theorem C9_jointsOnly_frame (data : jsval) (deps : Deps) (st : St)
  (Hreset : forall reset l,
      resetAllJointRotations deps = Some reset ->
      props (reset l) = props l /\ notes (reset l) = notes l /\ scene (reset l) = scene l) :
  let st' := snd (applyPoseJointsOnly data deps st) in
  props (live st') = props (live st) /\
  notes (live st') = notes (live st) /\
  scene (live st') = scene (live st).
Proof.
  cbv zeta. repeat split.
  - apply (keeps_applyPoseJointsOnly props); [reflexivity |].
    intros reset E l. apply (Hreset reset l E).
  - apply (keeps_applyPoseJointsOnly notes); [reflexivity |].
    intros reset E l. apply (Hreset reset l E).
  - apply (keeps_applyPoseJointsOnly scene); [reflexivity |].
    intros reset E l. apply (Hreset reset l E).
Qed.

(** ** The joint step of the full apply *)

Lemma Quaternion_toArray_fromArray (q : list jsval) :
  List.length q = 4 -> Quaternion_toArray (Quaternion_fromArray (JArr q)) = JArr q.
Proof.
  destruct q as [| a [| b [| c [| d [| e r]]]]]; simpl; intros H; try discriminate H.
  reflexivity.
Qed.

Lemma Quaternion_fromArray_toArray (q : Quaternion) :
  Quaternion_fromArray (Quaternion_toArray q) = q.
Proof. destruct q; reflexivity. Qed.

Lemma Vector3_fromArray_toArray (v : Vector3) :
  Vector3_fromArray (Vector3_toArray v) = v.
Proof. destruct v; reflexivity. Qed.

Lemma isArrayOfLength_true (v : jsval) (n : nat) :
  isArrayOfLength v n = true <-> exists q, v = JArr q /\ List.length q = n.
Proof.
  split.
  - destruct v; simpl; intros H; try discriminate H.
    apply Nat.eqb_eq in H. eauto.
  - intros (q & -> & <-). simpl. apply Nat.eqb_refl.
Qed.

Lemma applyPose_joint_name (dj : jsval) (j : Joint) :
  j_name (applyPose_joint dj j) = j_name j.
Proof. unfold applyPose_joint. destruct (isArrayOfLength _ 4); reflexivity. Qed.

Lemma applyPose_joint_hit (dj : jsval) (j : Joint) (q : list jsval) :
  getProp dj (j_name j) = JArr q -> List.length q = 4 ->
  Quaternion_toArray (j_quaternion (applyPose_joint dj j)) = JArr q.
Proof.
  intros E L. unfold applyPose_joint. rewrite E.
  unfold isArrayOfLength. rewrite L. simpl.
  apply Quaternion_toArray_fromArray. exact L.
Qed.

Lemma applyPose_joint_miss (dj : jsval) (j : Joint) :
  isArrayOfLength (getProp dj (j_name j)) 4 = false -> applyPose_joint dj j = j.
Proof. intros E. unfold applyPose_joint. rewrite E. reflexivity. Qed.

Lemma applyPose_joints_run (data : jsval) (st : St) (js : list Joint) :
  joints (live st) = Some js ->
  joints (live (snd (applyPose_joints data st))) = Some (joints_after data js).
Proof.
  intros E. unfold applyPose_joints, joints_after, structured.
  destruct (truthy (getProp data "joints") && typeof_object (getProp data "joints")); simpl.
  - unfold read_joints. rewrite !bind_run. simpl. rewrite E. reflexivity.
  - exact E.
Qed.

Lemma keeps_modify_p {B} (proj : Live -> B) (f : PropObj -> PropObj) :
  (forall ps l, proj (set_props ps l) = proj l) -> keeps proj (modify_p f).
Proof.
  intros H. apply keeps_bind; [apply keeps_read_props | intros ps].
  apply keeps_modify. apply H.
Qed.

Lemma keeps_joints_applyPose_props (data : jsval) (deps : Deps) :
  (forall f t l, addProp deps = Some f -> joints (f t l) = joints l) ->
  keeps joints (applyPose_props data deps).
Proof.
  intros Hadd. unfold applyPose_props.
  destruct (getProp data "props"); try apply keeps_ret.
  apply keeps_bind; [| intros _].
  { unfold removeOldProps.
    apply keeps_bind; [apply keeps_read_props | intros ps].
    apply keeps_bind; [| intros _]; apply keeps_modify; reflexivity. }
  apply keeps_forEach. intros pd. unfold applyPose_prop.
  destruct (addProp deps) as [f |] eqn:E; [| apply keeps_ret].
  apply keeps_bind; [apply keeps_call | intros _].
  apply keeps_bind; [apply keeps_modify; intros l0; apply (Hadd f _ l0 eq_refl) | intros _].
  apply keeps_bind; [apply keeps_read_props | intros ps].
  destruct (last_entry ps); [| apply keeps_ret].
  repeat first [ apply keeps_modify_p; reflexivity
               | apply keeps_lift
               | apply keeps_when
               | apply keeps_bind; [| intros ?] ].
Qed.

Lemma keeps_joints_applyPose_notes (data : jsval) (deps : Deps) :
  keeps joints (applyPose_notes data deps).
Proof.
  unfold applyPose_notes. destruct (getProp data "notes"); try apply keeps_ret.
  apply keeps_when. apply keeps_modify. reflexivity.
Qed.

Lemma applyPose_checked_joints (data : jsval) (deps : Deps) (st : St) (js : list Joint) :
  (forall f t l, addProp deps = Some f -> joints (f t l) = joints l) ->
  joints (live st) = Some js ->
  joints (live (snd (applyPose_checked data deps st))) = Some (joints_after data js).
Proof.
  intros Hadd E. unfold applyPose_checked.
  rewrite bind_run.
  pose proof (applyPose_joints_run data st js E) as H1.
  pose proof (ote_applyPose_joints data st) as Hote.
  destruct (applyPose_joints data st) as [[[] | e] s1]; simpl in *; [| exact H1].
  rewrite <- H1.
  apply (keeps_bind joints).
  - apply keeps_joints_applyPose_props. exact Hadd.
  - intros _. apply keeps_bind; [apply keeps_joints_applyPose_notes | intros _].
    apply keeps_hooks. apply keeps_call.
Qed.

(** C2.  Full apply is a partial joint overwrite.  After [applyPose] on a
    valid document and world (with a prop factory that leaves the joints
    alone), the world has the same joints in the same order; a joint whose
    name is a key of [document.joints] mapped to a four-element array has
    exactly that array as its orientation (a replacement, not a
    composition); every other joint (name absent, entry not an array, or
    an array of another length, or no joints mapping in the document) keeps
    its prior orientation. *)
Theorem C2_full_apply_partial_joint_overwrite
  (data : jsval) (deps : Deps) (st : St) (js : list Joint)
  (Hdata : structured data = true)
  (Hworld : world_ok deps (live st) = true)
  (Hscene : has_scene deps = true)
  (Hjs : joints (live st) = Some js)
  (Hfactory : forall f t l, addProp deps = Some f -> joints (f t l) = joints l) :
  exists js',
    joints (live (snd (applyPose data deps st))) = Some js' /\
    List.length js' = List.length js /\
    forall i j, nth_error js i = Some j ->
      exists j',
        nth_error js' i = Some j' /\
        j_name j' = j_name j /\
        (forall q, structured (getProp data "joints") = true ->
                   getProp (getProp data "joints") (j_name j) = JArr q ->
                   List.length q = 4 ->
                   Quaternion_toArray (j_quaternion j') = JArr q) /\
        (~ (exists q, structured (getProp data "joints") = true /\
                      getProp (getProp data "joints") (j_name j) = JArr q /\
                      List.length q = 4) ->
         j_quaternion j' = j_quaternion j).
Proof.
  exists (joints_after data js). split; [| split].
  - rewrite applyPose_cases, Hdata, Hworld, Hscene. simpl.
    apply applyPose_checked_joints; assumption.
  - unfold joints_after.
    destruct (structured (getProp data "joints")); [apply length_map | reflexivity].
  - intros i j Hi. unfold joints_after.
    destruct (structured (getProp data "joints")) eqn:Es.
    + exists (applyPose_joint (getProp data "joints") j). repeat split.
      * rewrite nth_error_map, Hi. reflexivity.
      * apply applyPose_joint_name.
      * intros q _ Eq Lq. apply applyPose_joint_hit; assumption.
      * intros Hno.
        destruct (isArrayOfLength (getProp (getProp data "joints") (j_name j)) 4) eqn:E4.
        -- apply isArrayOfLength_true in E4. destruct E4 as (q & Eq & Lq).
           exfalso. apply Hno. exists q. auto.
        -- rewrite applyPose_joint_miss by exact E4. reflexivity.
    + exists j. repeat split; try assumption.
      intros q Hs. discriminate Hs.
Qed.

(** ** The joints-only apply *)

Lemma jointsOnly_loop_spec (dj : jsval) (js : list Joint) (n : nat) :
  jointsOnly_loop dj js n =
  (map (applyPose_joint dj) js, n + List.length (filter (matched dj) js)).
Proof.
  revert n. induction js as [| j r IH]; intros n; simpl.
  - rewrite Nat.add_0_r. reflexivity.
  - unfold applyPose_joint at 1. unfold matched at 1.
    destruct (isArrayOfLength (getProp dj (j_name j)) 4); rewrite IH; simpl.
    + f_equal. lia.
    + reflexivity.
Qed.

Lemma filter_matched_reset (dj : jsval) (q : Quaternion) (js : list Joint) :
  List.length (filter (matched dj) (map (set_quaternion q) js)) =
  List.length (filter (matched dj) js).
Proof.
  induction js as [| j r IH]; [reflexivity |].
  cbn [map filter].
  change (matched dj (set_quaternion q j)) with (matched dj j).
  destruct (matched dj j); cbn [List.length]; rewrite IH; reflexivity.
Qed.

Lemma filter_none {A} (f : A -> bool) (l : list A) :
  (forall x, In x l -> f x = false) -> filter f l = [].
Proof.
  induction l as [| x r IH]; simpl; intros H; [reflexivity |].
  rewrite (H x (or_introl eq_refl)). apply IH. intros y Hy. apply H. right. exact Hy.
Qed.

(** C5.  On a valid preset and world, with the joint resetter supplied,
    [applyPoseJointsOnly] first calls the resetter (which puts every live
    joint at the identity orientation), then overwrites the joints that have
    a four-element entry exactly as the full apply does ([applyPose_joint]),
    and returns the number of joints so matched.  The notification, when a
    hook is supplied, is the zero-match message if that count is zero and
    the count-bearing one otherwise.  A document none of whose entries
    matches a live joint returns 0 and leaves every joint at the identity. *)
Theorem C5_jointsOnly_reset_then_apply
  (data : jsval) (deps : Deps) (st : St) (reset : Live -> Live) (js : list Joint)
  (Hdata : structured data = true)
  (Hjoints : structured (getProp data "joints") = true)
  (Hworld : has_world deps = true)
  (Hjs : joints (live st) = Some js)
  (Hhook : resetAllJointRotations deps = Some reset)
  (Hreset : forall l, joints (reset l) =
                      option_map (map (set_quaternion Quaternion_identity)) (joints l)) :
  let dj := getProp data "joints" in
  let n := List.length (filter (matched dj) js) in
  let r := applyPoseJointsOnly data deps st in
  fst r = Ok n /\
  joints (live (snd r)) =
    Some (map (fun j => applyPose_joint dj (set_quaternion Quaternion_identity j)) js) /\
  calls (snd r) =
    calls st ++ [CallResetAllJointRotations]
      ++ (if updateOutline deps then [CallUpdateOutline] else [])
      ++ (if forceRenderOnce deps then [CallForceRenderOnce] else [])
      ++ (if showToast deps
          then [if n =? 0
                then CallShowToast "Preset loaded (no matching joints)" (Some 2000)
                else CallShowToast
                       (String.append "Preset loaded ("
                          (String.append (of_nat n) " joints)")) None]
          else []) /\
  ((forall j, In j js -> matched dj j = false) ->
   fst r = Ok 0 /\
   joints (live (snd r)) = Some (map (set_quaternion Quaternion_identity) js)).
Proof.
  cbv zeta.
  assert (Hrun :
    applyPoseJointsOnly data deps st =
    (Ok (List.length (filter (matched (getProp data "joints")) js)),
     mkSt (set_joints
             (map (fun j => applyPose_joint (getProp data "joints")
                              (set_quaternion Quaternion_identity j)) js)
             (reset (live st)))
          (calls st ++ [CallResetAllJointRotations]
             ++ (if updateOutline deps then [CallUpdateOutline] else [])
             ++ (if forceRenderOnce deps then [CallForceRenderOnce] else [])
             ++ (if showToast deps
                 then [if List.length (filter (matched (getProp data "joints")) js) =? 0
                       then CallShowToast "Preset loaded (no matching joints)" (Some 2000)
                       else CallShowToast
                              (String.append "Preset loaded ("
                                 (String.append
                                    (of_nat (List.length
                                               (filter (matched (getProp data "joints")) js)))
                                    " joints)")) None]
                 else [])))).
  { rewrite applyPoseJointsOnly_cases, Hdata, Hjoints.
    unfold preset_world_ok. rewrite Hworld, Hjs. simpl.
    unfold applyPoseJointsOnly_checked. rewrite Hhook.
    unfold read_joints, get_live, call, modify_live, bind, ret, throw. simpl.
    rewrite Hreset, Hjs. simpl.
    rewrite jointsOnly_loop_spec, filter_matched_reset, map_map. simpl.
    destruct (updateOutline deps), (forceRenderOnce deps), (showToast deps); simpl;
      try destruct (List.length (filter (matched (getProp data "joints")) js) =? 0);
      simpl; repeat rewrite <- app_assoc; reflexivity. }
  rewrite Hrun. simpl. repeat split.
  - rewrite (filter_none _ _ H). reflexivity.
  - f_equal. apply map_ext_in. intros j Hj.
    apply applyPose_joint_miss. exact (H j Hj).
Qed.

(** ** Prop type inference *)

(** C4 (as amended).  Prop type inference is ordered substring matching of
    the lowercased name against the keywords sphere, cube/box, cyl (which
    selects cylinder), cone, torus, ring, disc/circle, plane, icosa, octa,
    dodeca, tetra; the first matching row wins and the result is cube when
    none matches.  It agrees with the table whose cylinder keyword is
    spelled out whenever the name contains cyl only as part of cylinder.
    MySphere_02 infers sphere and weird_blob infers cube. *)
Theorem C4_inferType_first_match :
  (forall name : jsval,
      inferTypeFromLegacyName name = firstMatch keyword_table "cube" (legacy_name name)) /\
  (forall name : jsval,
      includes (legacy_name name) "cyl" = includes (legacy_name name) "cylinder" ->
      inferTypeFromLegacyName name = spec_inferType name) /\
  inferTypeFromLegacyName (JStr "MySphere_02" : jsval) = "sphere" /\
  inferTypeFromLegacyName (JStr "weird_blob" : jsval) = "cube".
Proof.
  assert (Htable : forall name : jsval,
    inferTypeFromLegacyName name = firstMatch keyword_table "cube" (legacy_name name)).
  { intros name. unfold inferTypeFromLegacyName, keyword_table, firstMatch, existsb.
    fold (legacy_name name). rewrite !orb_false_r. reflexivity. }
  split; [exact Htable | split; [| split; reflexivity]].
  intros name Hcyl. rewrite Htable.
  unfold spec_inferType, keyword_table, spec_keyword_table, firstMatch, existsb.
  rewrite Hcyl. reflexivity.
Qed.

(** ** Round trip: the serialized joints *)

Lemma obj_get_set (o : list (string * jsval)) (k k' : string) (v : jsval) :
  obj_get (obj_set o k v) k' = if String.eqb k k' then v else obj_get o k'.
Proof.
  induction o as [| [k0 v0] r IH]; simpl.
  - reflexivity.
  - destruct (String.eqb_spec k0 k) as [-> | Hk0]; simpl.
    + destruct (String.eqb k k'); reflexivity.
    + rewrite IH.
      destruct (String.eqb_spec k0 k') as [-> | Hk0'].
      * destruct (String.eqb_spec k k') as [-> | _]; [contradiction | reflexivity].
      * reflexivity.
Qed.

Lemma record_joints_other (js : list Joint) (o : list (string * jsval)) (k : string) :
  ~ In k (map j_name js) ->
  obj_get (fold_left record_joint js o) k = obj_get o k.
Proof.
  revert o. induction js as [| j r IH]; intros o Hk; simpl in *.
  - reflexivity.
  - rewrite IH by tauto. unfold record_joint. rewrite obj_get_set.
    destruct (String.eqb_spec (j_name j) k) as [E | _]; [| reflexivity].
    exfalso. apply Hk. left. exact E.
Qed.

Lemma record_joints_get (js : list Joint) (o : list (string * jsval)) (j : Joint) :
  NoDup (map j_name js) -> In j js ->
  obj_get (fold_left record_joint js o) (j_name j) = Quaternion_toArray (j_quaternion j).
Proof.
  revert o. induction js as [| j0 r IH]; intros o Hnd Hin; simpl in *.
  - contradiction.
  - inversion Hnd as [| n0 l0 Hnotin Hnd']; subst.
    destruct Hin as [-> | Hin].
    + rewrite record_joints_other by exact Hnotin.
      unfold record_joint. rewrite obj_get_set, String.eqb_refl. reflexivity.
    + apply IH; assumption.
Qed.

Lemma serializeJoints_get (js : list Joint) (j : Joint) :
  NoDup (map j_name js) -> In j js ->
  obj_get (serializeJoints js) (j_name j) = Quaternion_toArray (j_quaternion j).
Proof. apply record_joints_get. Qed.

Lemma applyPose_joint_serialized (sj : list (string * jsval)) (j j1 : Joint) :
  obj_get sj (j_name j) = Quaternion_toArray (j_quaternion j) ->
  j_name j1 = j_name j ->
  applyPose_joint (JObj sj) j1 = mkJoint (j_name j1) (j_quaternion j).
Proof.
  intros Hget Hname. unfold applyPose_joint. simpl. rewrite Hname, Hget. simpl.
  unfold set_quaternion. rewrite Quaternion_fromArray_toArray, Hname. reflexivity.
Qed.

Lemma joints_roundtrip (sj : list (string * jsval)) (js js1 : list Joint) :
  (forall j, In j js -> obj_get sj (j_name j) = Quaternion_toArray (j_quaternion j)) ->
  map j_name js1 = map j_name js ->
  map j_name (map (applyPose_joint (JObj sj)) js1) = map j_name js /\
  map j_quaternion (map (applyPose_joint (JObj sj)) js1) = map j_quaternion js.
Proof.
  revert js1. induction js as [| j r IH]; intros js1 Hget Hnames.
  - destruct js1; [split; reflexivity | discriminate Hnames].
  - destruct js1 as [| j1 r1]; [discriminate Hnames |].
    simpl in Hnames. injection Hnames as Hn Hr.
    destruct (IH r1) as [IHn IHq]; [intros; apply Hget; right; assumption | exact Hr |].
    cbn [map]. rewrite (applyPose_joint_serialized sj j j1), IHn, IHq; simpl.
    + rewrite Hn. split; reflexivity.
    + apply Hget. left. reflexivity.
    + exact Hn.
Qed.

(** ** Round trip: the rebuilt props *)

Lemma last_entry_app {A} (acc : list A) (p : A) : last_entry (acc ++ [p]) = Some p.
Proof.
  induction acc as [| x r IH]; simpl; [reflexivity |].
  rewrite IH. destruct (r ++ [p]) eqn:E; [| reflexivity].
  destruct r; discriminate E.
Qed.

Lemma update_last_app {A} (f : A -> A) (acc : list A) (p : A) :
  update_last f (acc ++ [p]) = acc ++ [f p].
Proof.
  induction acc as [| x r IH]; simpl; [reflexivity |].
  rewrite IH. destruct (r ++ [p]) eqn:E; [| reflexivity].
  destruct r; discriminate E.
Qed.

Lemma modify_p_run (g : PropObj -> PropObj) (s : St) (acc : list PropObj) (p : PropObj) :
  props (live s) = Some (acc ++ [p]) ->
  modify_p g s = (Ok tt, mkSt (set_props (acc ++ [g p]) (live s)) (calls s)).
Proof.
  intros E. unfold modify_p, read_props, get_live, modify_live, bind, ret. simpl.
  rewrite E. simpl. rewrite update_last_app. reflexivity.
Qed.

Lemma applyPose_prop_serialized (deps : Deps) (f : string -> Live -> Live)
  (p p0 : PropObj) (acc : list PropObj) (s : St) :
  addProp deps = Some f ->
  props (f (propType (serializeProp p)) (live s)) = Some (acc ++ [p0]) ->
  applyPose_prop deps (serializeProp p) s =
  (Ok tt,
   mkSt (set_props (acc ++ [rebuilt (propType (serializeProp p)) p p0])
           (f (propType (serializeProp p)) (live s)))
        (calls s ++ [CallAddProp (propType (serializeProp p))])).
Proof.
  intros Hadd Hf. unfold applyPose_prop. rewrite Hadd.
  remember (propType (serializeProp p)) as t eqn:Et.
  rewrite bind_run. unfold call at 1. cbv beta iota.
  rewrite bind_run. unfold modify_live at 1. cbv beta iota. cbn [live calls].
  rewrite bind_run. unfold read_props at 1, get_live. rewrite bind_run. cbn [live calls].
  rewrite Hf. unfold ret at 1. cbv beta iota. rewrite last_entry_app.
  rewrite bind_run, (modify_p_run _ _ acc p0) by exact Hf. cbv beta iota.
  rewrite bind_run. unfold lift at 1. cbv beta iota.
  change (getMember (serializeProp p) "position") with (@Ok jsval (Vector3_toArray (p_position p))).
  cbv beta iota. cbn [truthy Vector3_toArray when].
  rewrite bind_run, (modify_p_run _ _ acc (tag_prop t p0)) by reflexivity. cbv beta iota.
  rewrite bind_run. unfold lift at 1. cbv beta iota.
  change (getMember (serializeProp p) "quaternion")
    with (@Ok jsval (Quaternion_toArray (p_quaternion p))).
  cbv beta iota. cbn [truthy Quaternion_toArray when].
  rewrite bind_run, (modify_p_run _ _ acc (set_p_position _ (tag_prop t p0))) by reflexivity.
  cbv beta iota.
  rewrite bind_run. unfold lift at 1. cbv beta iota.
  change (getMember (serializeProp p) "scale") with (@Ok jsval (Vector3_toArray (p_scale p))).
  cbv beta iota. cbn [truthy Vector3_toArray when].
  rewrite bind_run,
    (modify_p_run _ _ acc (set_p_quaternion _ (set_p_position _ (tag_prop t p0))))
    by reflexivity.
  cbv beta iota.
  rewrite bind_run. unfold lift at 1. cbv beta iota.
  change (getMember (serializeProp p) "name")
    with (@Ok jsval (js_or (p_name p) (JStr EmptyString))).
  cbv beta iota.
  fold (Vector3_toArray (p_position p)) (Vector3_toArray (p_scale p))
       (Quaternion_toArray (p_quaternion p)).
  rewrite !Vector3_fromArray_toArray, Quaternion_fromArray_toArray.
  unfold rebuilt, js_or.
  destruct (truthy (p_name p)) eqn:En.
  - rewrite En. cbn [when].
    rewrite (modify_p_run _ _ acc
               (set_p_scale _ (set_p_quaternion _ (set_p_position _ (tag_prop t p0)))))
      by reflexivity.
    reflexivity.
  - reflexivity.
Qed.
(** The contract of the prop factory: it appends exactly one prop to
    [world.props] and leaves the joints alone. *)
Definition factory_contract (f : string -> Live -> Live) : Prop :=
  (forall t l, joints (f t l) = joints l) /\
  (forall t l ps, props l = Some ps -> exists p, props (f t l) = Some (ps ++ [p])).

Lemma forEach_serialized (deps : Deps) (f : string -> Live -> Live) (ps : list PropObj) :
  addProp deps = Some f -> factory_contract f ->
  forall (acc : list PropObj) (s : St),
    props (live s) = Some acc ->
    exists news s',
      forEach (map serializeProp ps) (applyPose_prop deps) s = (Ok tt, s') /\
      props (live s') = Some (acc ++ news) /\
      joints (live s') = joints (live s) /\
      Forall2 (fun p p' => exists p0, p' = rebuilt (propType (serializeProp p)) p p0)
              ps news.
Proof.
  intros Hadd [Hfj Hfp]. induction ps as [| p r IH]; intros acc s Hacc.
  - exists [], s. rewrite app_nil_r. repeat split; [exact Hacc | constructor].
  - destruct (Hfp (propType (serializeProp p)) (live s) acc Hacc) as [p0 Hp0].
    cbn [map forEach]. rewrite bind_run.
    rewrite (applyPose_prop_serialized deps f p p0 acc s Hadd Hp0).
    cbv beta iota.
    destruct (IH (acc ++ [rebuilt (propType (serializeProp p)) p p0])
                 (mkSt (set_props (acc ++ [rebuilt (propType (serializeProp p)) p p0])
                          (f (propType (serializeProp p)) (live s)))
                       (calls s ++ [CallAddProp (propType (serializeProp p))])))
      as (news & s' & Hrun & Hprops & Hjoints & Hrel); [reflexivity |].
    exists (rebuilt (propType (serializeProp p)) p p0 :: news), s'.
    repeat split.
    + exact Hrun.
    + rewrite Hprops, <- app_assoc. reflexivity.
    + rewrite Hjoints. cbn. apply Hfj.
    + constructor; [exists p0; reflexivity | exact Hrel].
Qed.

Lemma infer_nonempty (name : jsval) : is_empty (inferTypeFromLegacyName name) = false.
Proof.
  unfold inferTypeFromLegacyName.
  repeat match goal with
         | |- context [if ?b then _ else _] => destruct b
         end; reflexivity.
Qed.

Lemma infer_js_or (name : jsval) :
  inferTypeFromLegacyName (js_or name (JStr EmptyString)) = inferTypeFromLegacyName name.
Proof.
  unfold inferTypeFromLegacyName, js_or.
  destruct (truthy name) eqn:E; [rewrite E |]; reflexivity.
Qed.

Lemma propType_serializeProp (p : PropObj) :
  propType (serializeProp p) = normalized_type (prop_type p) (p_name p).
Proof.
  unfold propType, normalized_type.
  change (getOpt (serializeProp p) "type") with (@JStr num (prop_type p)).
  change (getOpt (serializeProp p) "name") with (js_or (p_name p) (JStr EmptyString)).
  rewrite infer_js_or.
  replace (js_String (js_or (JStr (prop_type p)) (JStr EmptyString))) with (prop_type p);
    [reflexivity |].
  unfold js_or. simpl. destruct (prop_type p); reflexivity.
Qed.

Lemma normalized_type_nonempty (type : string) (name : jsval) :
  is_empty (normalized_type type name) = false.
Proof.
  unfold normalized_type.
  destruct (is_empty (toLowerCase (trim type))) eqn:E; [apply infer_nonempty | exact E].
Qed.

Lemma is_empty_true (s : string) : is_empty s = true <-> s = EmptyString.
Proof. destruct s; simpl; split; intros H; try reflexivity; discriminate H. Qed.

(** The normal form of a type is the type itself exactly when the type is
    trimmed, lowercase and not empty. *)
Lemma normalized_type_fixed (type : string) (name : jsval) :
  normalized_type type name = type <->
  toLowerCase (trim type) = type /\ type <> EmptyString.
Proof.
  unfold normalized_type. split.
  - destruct (is_empty (toLowerCase (trim type))) eqn:E.
    + intros <-. exfalso. revert E. unfold inferTypeFromLegacyName.
      repeat match goal with
             | |- context [if ?b then _ else _] => destruct b
             end; discriminate.
    + intros H. split; [exact H |]. intros ->. rewrite <- H in E. discriminate E.
  - intros [Ht Hne]. rewrite Ht.
    destruct (is_empty type) eqn:E; [| reflexivity].
    apply is_empty_true in E. contradiction.
Qed.

Lemma rebuilt_fields (t : string) (p p0 : PropObj) :
  is_empty t = false ->
  p_position (rebuilt t p p0) = p_position p /\
  p_quaternion (rebuilt t p p0) = p_quaternion p /\
  p_scale (rebuilt t p p0) = p_scale p /\
  prop_type (rebuilt t p p0) = t.
Proof.
  intros Ht. unfold rebuilt, prop_type, userData_type.
  destruct (truthy (p_name p)); simpl; repeat split;
    unfold js_or; simpl; rewrite Ht; reflexivity.
Qed.

Lemma succeeds_ret : succeeds (ret tt).
Proof. intro s; reflexivity. Qed.

Lemma succeeds_call (c : Call) : succeeds (call c).
Proof. intro s; reflexivity. Qed.

Lemma succeeds_modify (f : Live -> Live) : succeeds (modify_live f).
Proof. intro s; reflexivity. Qed.

Lemma succeeds_when (b : bool) (m : M St unit) : succeeds m -> succeeds (when b m).
Proof. intros H; destruct b; [exact H | apply succeeds_ret]. Qed.

Lemma succeeds_bind (m k : M St unit) :
  succeeds m -> succeeds k -> succeeds (bind m (fun _ => k)).
Proof.
  intros Hm Hk s. rewrite bind_run. specialize (Hm s).
  destruct (m s) as [[[] | e] s']; simpl in *; [apply Hk | discriminate Hm].
Qed.

Lemma succeeds_notes_and_hooks (data : jsval) (deps : Deps) :
  succeeds (applyPose_notes data deps ;;
            when (updateOutline deps) (call CallUpdateOutline) ;;
            when (forceRenderOnce deps) (call CallForceRenderOnce) ;;
            when (showToast deps) (call (CallShowToast "Pose loaded" None))).
Proof.
  repeat apply succeeds_bind; try (apply succeeds_when; apply succeeds_call).
  unfold applyPose_notes. destruct (getProp data "notes"); try apply succeeds_ret.
  apply succeeds_when, succeeds_modify.
Qed.

Lemma keeps_notes_and_hooks {B} (proj : Live -> B) (data : jsval) (deps : Deps) :
  (forall n l, proj (set_notes n l) = proj l) ->
  keeps proj (applyPose_notes data deps ;;
              when (updateOutline deps) (call CallUpdateOutline) ;;
              when (forceRenderOnce deps) (call CallForceRenderOnce) ;;
              when (showToast deps) (call (CallShowToast "Pose loaded" None))).
Proof.
  intros H. apply keeps_bind; [| intros _; apply keeps_hooks, keeps_call].
  unfold applyPose_notes. destruct (getProp data "notes"); try apply keeps_ret.
  apply keeps_when, keeps_modify, H.
Qed.

Lemma removeOldProps_run (s : St) (ps : list PropObj) :
  props (live s) = Some ps ->
  exists s', removeOldProps s = (Ok tt, s') /\
             props (live s') = Some [] /\ joints (live s') = joints (live s).
Proof.
  intros E. unfold removeOldProps, read_props, get_live, modify_live, bind, ret. simpl.
  rewrite E. simpl. eexists. repeat split.
Qed.

Lemma applyPose_joints_ok (data : jsval) (st : St) (js : list Joint) :
  joints (live st) = Some js ->
  exists s', applyPose_joints data st = (Ok tt, s') /\
             joints (live s') = Some (joints_after data js) /\
             props (live s') = props (live st).
Proof.
  intros E. unfold applyPose_joints, joints_after, structured.
  destruct (truthy (getProp data "joints") && typeof_object (getProp data "joints")); simpl.
  - unfold read_joints, get_live, modify_live, bind, ret. simpl. rewrite E. simpl.
    eexists. repeat split.
  - exists st. repeat split. exact E.
Qed.

(** C1 (as amended).  Serializing a world whose joint names are unique and
    fully applying the document to a fresh world with the same joint names,
    through a prop factory that appends one prop per call, succeeds and
    reproduces every joint's orientation and every prop's position,
    orientation and scale exactly; the world has one prop per serialized
    prop, in order.  A prop's type comes back trimmed and lowercased (and
    inferred from the prop's name if that leaves nothing), hence unchanged
    exactly when it was already in that form. *)
Theorem C1_roundtrip
  (src : Live) (sdeps : Deps) (now : string) (doc : jsval)
  (js : list Joint) (ps : list PropObj)
  (deps : Deps) (st : St) (f : string -> Live -> Live) (js1 : list Joint)
  (Hser : serializePose sdeps now src = Ok doc)
  (Hjs : joints src = Some js)
  (Hps : props src = Some ps)
  (Hnodup : NoDup (map j_name js))
  (Hworld : world_ok deps (live st) = true)
  (Hscene : has_scene deps = true)
  (Hjs1 : joints (live st) = Some js1)
  (Hnames : map j_name js1 = map j_name js)
  (Hadd : addProp deps = Some f)
  (Hfactory : factory_contract f) :
  let r := applyPose doc deps st in
  fst r = Ok tt /\
  exists js' ps',
    joints (live (snd r)) = Some js' /\
    props (live (snd r)) = Some ps' /\
    map j_name js' = map j_name js /\
    map j_quaternion js' = map j_quaternion js /\
    Forall2 (fun p p' =>
               p_position p' = p_position p /\
               p_quaternion p' = p_quaternion p /\
               p_scale p' = p_scale p /\
               prop_type p' = normalized_type (prop_type p) (p_name p) /\
               (prop_type p' = prop_type p <->
                toLowerCase (trim (prop_type p)) = prop_type p /\
                prop_type p <> EmptyString))
            ps ps'.
Proof.
  cbv zeta.
  (* the document *)
  unfold serializePose in Hser. rewrite Hjs, Hps in Hser.
  destruct (has_world sdeps); [| discriminate Hser].
  injection Hser as <-.
  match goal with |- context [applyPose ?d _ _] => set (doc := d) end.
  assert (Hdj : getProp doc "joints" = JObj (serializeJoints js)) by reflexivity.
  assert (Hdp : getProp doc "props" = JArr (map serializeProp ps)) by reflexivity.
  assert (Hps1 : exists ps1, props (live st) = Some ps1).
  { unfold world_ok in Hworld.
    destruct (props (live st)) as [ps1 |]; [eauto |].
    rewrite andb_false_r in Hworld. discriminate Hworld. }
  destruct Hps1 as [ps1 Hps1].
  (* joints, then props *)
  destruct (applyPose_joints_ok doc st js1 Hjs1) as (s1 & Hrun1 & Hj1 & Hp1).
  rewrite Hps1 in Hp1.
  destruct (removeOldProps_run s1 ps1 Hp1) as (s2 & Hrun2 & Hp2 & Hj2).
  destruct (forEach_serialized deps f ps Hadd Hfactory [] s2 Hp2)
    as (news & s3 & Hrun3 & Hp3 & Hj3 & Hrel).
  assert (Hrun :
    applyPose doc deps st =
    (applyPose_notes doc deps ;;
     when (updateOutline deps) (call CallUpdateOutline) ;;
     when (forceRenderOnce deps) (call CallForceRenderOnce) ;;
     when (showToast deps) (call (CallShowToast "Pose loaded" None))) s3).
  { rewrite applyPose_cases.
    change (structured doc) with true. rewrite Hworld, Hscene. cbn [negb].
    unfold applyPose_checked.
    rewrite bind_run, Hrun1. cbv beta iota.
    rewrite bind_run. unfold applyPose_props. rewrite Hdp.
    rewrite bind_run, Hrun2. cbv beta iota. rewrite Hrun3. reflexivity. }
  rewrite Hrun.
  (* notes and hooks *)
  split; [apply succeeds_notes_and_hooks |].
  destruct (joints_roundtrip (serializeJoints js) js js1) as [Hn Hq].
  { intros j Hj. apply serializeJoints_get; assumption. }
  { exact Hnames. }
  exists (map (applyPose_joint (JObj (serializeJoints js))) js1), news.
  split; [| split; [| split; [exact Hn | split; [exact Hq |]]]].
  - transitivity (joints (live s3)).
    + apply (keeps_notes_and_hooks joints doc deps). reflexivity.
    + rewrite Hj3, Hj2, Hj1. unfold joints_after. rewrite Hdj. reflexivity.
  - transitivity (props (live s3)).
    + apply (keeps_notes_and_hooks props doc deps). reflexivity.
    + exact Hp3.
  - clear - Hrel. induction Hrel as [| p p' r r' [p0 ->] _ IH]; constructor; [| exact IH].
    rewrite propType_serializeProp.
    destruct (rebuilt_fields (normalized_type (prop_type p) (p_name p)) p p0
                (normalized_type_nonempty _ _)) as (Hpos & Hquat & Hscale & Htype).
    rewrite Htype, normalized_type_fixed. repeat split; tauto.
Qed.

(** ** File names *)

Lemma toLowerCase_append (a b : string) :
  toLowerCase (a ++ b)%string = (toLowerCase a ++ toLowerCase b)%string.
Proof. induction a as [| c r IH]; simpl; [reflexivity | rewrite IH; reflexivity]. Qed.

Lemma string_length_append (a b : string) :
  String.length (a ++ b)%string = String.length a + String.length b.
Proof. induction a as [| c r IH]; simpl; [reflexivity | rewrite IH; reflexivity]. Qed.

Lemma substring_all (b : string) : String.substring 0 (String.length b) b = b.
Proof. induction b as [| c r IH]; simpl; [reflexivity | rewrite IH; reflexivity]. Qed.

Lemma substring_suffix (a b : string) :
  String.substring (String.length a) (String.length b) (a ++ b)%string = b.
Proof. induction a as [| c r IH]; simpl; [apply substring_all | exact IH]. Qed.

Lemma endsWith_append (a b : string) : endsWith (a ++ b)%string b = true.
Proof.
  unfold endsWith. rewrite string_length_append.
  replace (String.length a + String.length b - String.length b) with (String.length a) by lia.
  rewrite substring_suffix, String.eqb_refl, andb_true_r.
  apply Nat.leb_le. lia.
Qed.





(** ** The import pipeline *)

Section ImportProperties.

Context {S : Type} (JSON_parse : string -> outcome jsval).

#[local] Abbreviation ISt := (@ISt num S).
#[local] Abbreviation ImportDeps := (@ImportDeps num S).

Lemma importFile_unfold (deps : ImportDeps) (file : File) (imported : nat) :
  importFile JSON_parse deps file imported =
  (text <- lift (f_text file) ;;
   data <- lift (JSON_parse text) ;;
   run_apply deps data ;;
   run_save deps (stripJson (file_name file)) ;;
   ret (imported + 1)).
Proof. reflexivity. Qed.

Lemma importFile_fails (deps : ImportDeps) (file : File) (imported : nat) (s : ISt)
  (e : exn) (s' : ISt) :
  fails JSON_parse deps file s e s' -> importFile JSON_parse deps file imported s = (Throw e, s').
Proof.
  intros H. rewrite importFile_unfold.
  destruct H as [e Hr | text e Hr Hp | text data e s' Hr Hp Ha
                | text data e s1 s' Hr Hp Ha Hs];
    unfold bind, lift; rewrite Hr; try rewrite Hp; try rewrite Ha; try rewrite Hs;
    reflexivity.
Qed.

Lemma importFile_imports (deps : ImportDeps) (file : File) (imported : nat) (s s' : ISt) :
  imports JSON_parse deps file s s' -> importFile JSON_parse deps file imported s = (Ok (imported + 1), s').
Proof.
  intros [text data s1 s2 Hr Hp Ha Hs]. rewrite importFile_unfold.
  unfold bind, lift. rewrite Hr, Hp, Ha, Hs. reflexivity.
Qed.

Lemma importLoop_candidate (deps : ImportDeps) (file : File) (rest : list File)
  (imported : nat) (s : ISt) :
  isCandidate file = true ->
  importLoop JSON_parse deps (file :: rest) imported s =
  match importFile JSON_parse deps file imported s with
  | (Ok n, s') => importLoop JSON_parse deps rest n s'
  | (Throw e, s') =>
      importLoop JSON_parse deps rest imported (fst s', snd s' ++ [ConsoleWarn (f_name file) e])
  end.
Proof.
  intros Hc. cbn [importLoop]. rewrite Hc. cbn [negb].
  rewrite bind_run. unfold try_catch.
  destruct (importFile JSON_parse deps file imported s) as [[n | e] s']; reflexivity.
Qed.

Lemma importLoop_skip (deps : ImportDeps) (file : File) (rest : list File)
  (imported : nat) (s : ISt) :
  isCandidate file = false ->
  importLoop JSON_parse deps (file :: rest) imported s = importLoop JSON_parse deps rest imported s.
Proof. intros Hc. cbn [importLoop]. rewrite Hc. reflexivity. Qed.

Lemma grows_refl (s : ISt) : grows s s.
Proof. exists []. rewrite app_nil_r. repeat split. Qed.

Lemma grows_trans (s1 s2 s3 : ISt) : grows s1 s2 -> grows s2 s3 -> grows s1 s3.
Proof.
  intros (l1 & E1 & W1 & C1) (l2 & E2 & W2 & C2). exists (l1 ++ l2).
  rewrite E2, E1, app_assoc. unfold quiet. rewrite !filter_app, W1, W2, C1, C2.
  repeat split.
Qed.

Lemma grows_run_hook {A} (h : M S A) (s : ISt) : grows s (snd (run_hook h s)).
Proof.
  unfold run_hook. destruct (h (fst s)) as [o a]. simpl.
  exists []. rewrite app_nil_r. repeat split.
Qed.

Lemma grows_run_apply (deps : ImportDeps) (data : jsval) (s : ISt) :
  grows s (snd (run_apply deps data s)).
Proof.
  unfold run_apply. destruct (applyPoseFn deps) as [f |]; [| apply grows_refl].
  rewrite bind_run. unfold log. cbv beta iota.
  eapply grows_trans; [| apply grows_run_hook].
  exists [CallApplyPose data]. repeat split.
Qed.

Lemma grows_run_save (deps : ImportDeps) (name : string) (s : ISt) :
  grows s (snd (run_save deps name s)).
Proof.
  unfold run_save. destruct (saveToGallery deps) as [f |]; [| apply grows_refl].
  rewrite bind_run. unfold log. cbv beta iota.
  eapply grows_trans; [| apply grows_run_hook].
  exists [CallSaveToGallery name false]. repeat split.
Qed.

(** Processing one file either imports it or fails; both only add quiet
    entries to the log. *)
Lemma importFile_outcome (deps : ImportDeps) (file : File) (imported : nat) (s : ISt) :
  (exists s', imports JSON_parse deps file s s') \/ (exists e s', fails JSON_parse deps file s e s').
Proof.
  destruct (f_text file) as [text | e] eqn:Hr; [| right; eauto using fails_read].
  destruct (JSON_parse text) as [data | e] eqn:Hp; [| right; eauto using fails_parse].
  destruct (run_apply deps data s) as [[[] | e] s1] eqn:Ha;
    [| right; eauto using fails_apply].
  destruct (run_save deps (stripJson (file_name file)) s1) as [[[] | e] s2] eqn:Hs.
  - left. eauto using imports_intro.
  - right. eauto using fails_save.
Qed.

Lemma imports_grows (deps : ImportDeps) (file : File) (s s' : ISt) :
  imports JSON_parse deps file s s' -> grows s s'.
Proof.
  intros [text data s1 s2 _ _ Ha Hs].
  eapply grows_trans.
  - pose proof (grows_run_apply deps data s) as G. rewrite Ha in G. exact G.
  - pose proof (grows_run_save deps (stripJson (file_name file)) s1) as G.
    rewrite Hs in G. exact G.
Qed.

Lemma fails_grows (deps : ImportDeps) (file : File) (s : ISt) (e : exn) (s' : ISt) :
  fails JSON_parse deps file s e s' -> grows s s'.
Proof.
  intros [e0 _ | text e0 _ _ | text data e0 s0 _ _ Ha | text data e0 s1 s0 _ _ Ha Hs];
    try apply grows_refl.
  - pose proof (grows_run_apply deps data s) as G. rewrite Ha in G. exact G.
  - eapply grows_trans.
    + pose proof (grows_run_apply deps data s) as G. rewrite Ha in G. exact G.
    + pose proof (grows_run_save deps (stripJson (file_name file)) s1) as G.
      rewrite Hs in G. exact G.
Qed.

(** The loop never throws; its log entries are quiet apart from one warning
    per failed file, and the count it returns plus the warnings account for
    every candidate. *)
Lemma importLoop_inv (deps : ImportDeps) (files : list File) :
  forall (imported : nat) (s : ISt),
  exists n a l,
    importLoop JSON_parse deps files imported s = (Ok n, (a, snd s ++ l)) /\
    filter is_closing l = [] /\
    n + List.length (filter is_warn l) =
    imported + List.length (filter isCandidate files).
Proof.
  induction files as [| file rest IH]; intros imported s.
  - exists imported, (fst s), []. rewrite app_nil_r. destruct s. repeat split.
  - destruct (isCandidate file) eqn:Hc.
    + rewrite importLoop_candidate by exact Hc. cbn [filter]. rewrite Hc.
      destruct (importFile_outcome deps file imported s) as [[s' Hi] | (e & s' & Hf)].
      * rewrite (importFile_imports deps file imported s s' Hi).
        destruct (imports_grows _ _ _ _ Hi) as (l1 & E1 & W1 & C1).
        destruct (IH (imported + 1) s') as (n & a & l & Hrun & Hcl & Hcount).
        exists n, a, (l1 ++ l). rewrite Hrun, E1, app_assoc.
        rewrite !filter_app, W1, C1, Hcl. cbn [List.length app] in *.
        repeat split. lia.
      * rewrite (importFile_fails deps file imported s e s' Hf).
        destruct (fails_grows _ _ _ _ _ Hf) as (l1 & E1 & W1 & C1).
        destruct (IH imported (fst s', snd s' ++ [ConsoleWarn (f_name file) e]))
          as (n & a & l & Hrun & Hcl & Hcount).
        exists n, a, (l1 ++ ConsoleWarn (f_name file) e :: l).
        rewrite Hrun. cbn [snd]. rewrite E1, <- !app_assoc.
        rewrite !filter_app. cbn [filter is_warn is_closing].
        rewrite W1, C1, Hcl. cbn [List.length app] in *.
        repeat split. lia.
    + rewrite importLoop_skip by exact Hc. cbn [filter]. rewrite Hc.
      apply IH.
Qed.

Lemma importLoop_filter (deps : ImportDeps) (files : list File) :
  forall (imported : nat) (s : ISt),
    importLoop JSON_parse deps files imported s =
    importLoop JSON_parse deps (filter isCandidate files) imported s.
Proof.
  induction files as [| file rest IH]; intros imported s; [reflexivity |].
  cbn [filter]. destruct (isCandidate file) eqn:Hc.
  - rewrite !importLoop_candidate by exact Hc.
    destruct (importFile JSON_parse deps file imported s) as [[n | e] s']; apply IH.
  - rewrite importLoop_skip by exact Hc. apply IH.
Qed.

Lemma importLoop_app (deps : ImportDeps) (pre post : list File) :
  forall (imported : nat) (s : ISt),
    importLoop JSON_parse deps (pre ++ post) imported s =
    match importLoop JSON_parse deps pre imported s with
    | (Ok n, s') => importLoop JSON_parse deps post n s'
    | (Throw e, s') => (Throw e, s')
    end.
Proof.
  induction pre as [| file rest IH]; intros imported s; [reflexivity |].
  cbn [app]. destruct (isCandidate file) eqn:Hc.
  - rewrite !importLoop_candidate by exact Hc.
    destruct (importFile JSON_parse deps file imported s) as [[n | e] s']; apply IH.
  - rewrite !importLoop_skip by exact Hc. apply IH.
Qed.


Lemma importPosePack_run (deps : ImportDeps) (files : list File) (s : ISt)
  (n : nat) (a : S) (lg : list (@ImportCall num)) :
  files <> [] ->
  importLoop JSON_parse deps files 0 s = (Ok n, (a, lg)) ->
  importPosePack JSON_parse (Some files) deps s =
  (Ok (Some n), (closing_state deps n a, lg ++ closing_calls deps n)).
Proof.
  intros Hne Hloop. destruct files as [| file rest]; [contradiction |].
  unfold importPosePack. rewrite bind_run, Hloop. cbv beta iota.
  unfold closing_state, closing_calls, bind, log, run_total, ret.
  destruct (renderGallery deps), (importToast deps); simpl;
    rewrite <- ?app_assoc, ?app_nil_r; reflexivity.
Qed.

(** C6.  Failure isolation.  In any batch, when a candidate file fails
    (its read fails, its text is not JSON, the apply hook throws, or the
    gallery hook throws), the error is caught and logged on the console
    together with the file name, the imported count is left as it was, and
    the loop goes on with the remaining files.  The import as a whole never
    throws.  Importing three candidate files of which the first and third
    import and the second is invalid JSON returns 2, with the summary
    [Imported 2 poses]. *)
Theorem C6_import_failure_isolation
  (deps : ImportDeps) (pre : list File) (file : File) (post : list File)
  (imported : nat) (s : ISt) (n1 : nat) (s1 : ISt) (e : exn) (s1' : ISt)
  (Hpre : importLoop JSON_parse deps pre imported s = (Ok n1, s1))
  (Hcandidate : isCandidate file = true)
  (Hfails : fails JSON_parse deps file s1 e s1') :
  importLoop JSON_parse deps (pre ++ file :: post) imported s =
    importLoop JSON_parse deps post n1
      (fst s1', snd s1' ++ [ConsoleWarn (f_name file) e]) /\
  (forall files s0, exists r s0', importPosePack JSON_parse files deps s0 = (Ok r, s0')) /\
  (forall f1 f2 f3 s0 s2 text e2 s3,
      isCandidate f1 = true -> isCandidate f2 = true -> isCandidate f3 = true ->
      imports JSON_parse deps f1 s0 s2 ->
      f_text f2 = Ok text -> JSON_parse text = Throw e2 ->
      imports JSON_parse deps f3 (fst s2, snd s2 ++ [ConsoleWarn (f_name f2) e2]) s3 ->
      importPosePack JSON_parse (Some [f1; f2; f3]) deps s0 =
        (Ok (Some 2), (closing_state deps 2 (fst s3), snd s3 ++ closing_calls deps 2)) /\
      summary 2 = "Imported 2 poses").
Proof.
  split; [| split].
  - rewrite importLoop_app, Hpre.
    rewrite importLoop_candidate by exact Hcandidate.
    rewrite (importFile_fails deps file n1 s1 e s1' Hfails). reflexivity.
  - intros [[| f0 r0] |] s0; try (eexists; eexists; reflexivity).
    destruct (importLoop_inv deps (f0 :: r0) 0 s0) as (n & a & l & Hrun & _ & _).
    rewrite (importPosePack_run deps (f0 :: r0) s0 n a _ ltac:(discriminate) Hrun).
    eauto.
  - intros f1 f2 f3 s0 s2 text e2 s3 Hc1 Hc2 Hc3 Hi1 Hr2 Hp2 Hi3.
    split; [| reflexivity].
    apply importPosePack_run; [discriminate |].
    rewrite importLoop_candidate by exact Hc1.
    rewrite (importFile_imports deps f1 0 s0 s2 Hi1).
    rewrite importLoop_candidate by exact Hc2.
    rewrite (importFile_fails deps f2 (0 + 1) s2 e2 s2
               (fails_parse JSON_parse deps f2 s2 text e2 Hr2 Hp2)).
    rewrite importLoop_candidate by exact Hc3.
    rewrite (importFile_imports deps f3 (0 + 1) _ s3 Hi3).
    destruct s3; reflexivity.
Qed.








End ImportProperties.

End Properties.

(** * Further properties *)

Section FurtherProperties.

Context {num : Type} {JN : JsNumber num}.

Local Open Scope monad_scope.

#[local] Abbreviation jsval := (@jsval num).
#[local] Abbreviation Live := (@Live num).
#[local] Abbreviation St := (@St num).
#[local] Abbreviation Deps := (@Deps num).
#[local] Abbreviation Joint := (@Joint num).
#[local] Abbreviation PropObj := (@PropObj num).
#[local] Abbreviation keeps := (@keeps num).
#[local] Abbreviation only_TypeError := (@only_TypeError num).
#[local] Abbreviation succeeds := (@succeeds num).
#[local] Abbreviation leaves_calls := (@leaves_calls num).

(** ** The serializer *)

Lemma record_joints_lookup (js : list Joint) (o : list (string * jsval)) (k : string) :
  obj_get (fold_left record_joint js o) k =
  match last_named k js with
  | Some j => Quaternion_toArray (j_quaternion j)
  | None => obj_get o k
  end.
Proof.
  revert o. induction js as [| j r IH]; intros o; simpl; [reflexivity |].
  rewrite IH. destruct (last_named k r) as [j' |]; [reflexivity |].
  unfold record_joint. rewrite obj_get_set.
  destruct (String.eqb (j_name j) k); reflexivity.
Qed.

Lemma last_named_In (js : list Joint) (j : Joint) :
  In j js -> exists j', last_named (j_name j) js = Some j'.
Proof.
  induction js as [| j0 r IH]; simpl; [contradiction |].
  intros [-> | Hin].
  - destruct (last_named (j_name j) r) as [j' |]; [eauto |].
    rewrite String.eqb_refl. eauto.
  - destruct (IH Hin) as [j' ->]. eauto.
Qed.

Lemma serializeJoints_lookup (js : list Joint) (k : string) :
  obj_get (serializeJoints js) k =
  match last_named k js with
  | Some j => Quaternion_toArray (j_quaternion j)
  | None => JUndefined
  end.
Proof. apply (record_joints_lookup js [] k). Qed.

(** X1.  [serializePose] throws its missing-world error exactly when no
    world with joint and prop collections is passed.  For a world whose
    props have types that can be printed, it returns a document with
    version 1, the text of the notes element (empty without one), the given
    time stamp, and one descriptor per live prop, in order.  The document
    and its joints mapping are structured values and every live joint has a
    four-element entry under its name, so that neither applier rejects the
    document and each finds every joint in it. *)
Theorem X1_serializePose_outcome (deps : Deps) (now : string) (l : Live) :
  (serializePose deps now l = Throw SerializeMissingWorldError <->
   world_ok deps l = false) /\
  (forall js ps,
     has_world deps = true -> joints l = Some js -> props l = Some ps ->
     forallb type_prints ps = true ->
     exists doc,
       serializePose deps now l = Ok doc /\
       getProp doc "version" = JNum (num_of_nat 1) /\
       getProp doc "notes" = JStr (if has_poseNotesEl deps then notes l else EmptyString) /\
       getProp doc "savedAt" = JStr now /\
       getProp doc "props" = JArr (map serializeProp ps) /\
       List.length (map serializeProp ps) = List.length ps /\
       structured doc = true /\
       structured (getProp doc "joints") = true /\
       (forall j, In j js -> matched (getProp doc "joints") j = true)).
Proof.
  split.
  - unfold serializePose, world_ok.
    destruct (has_world deps), (joints l) as [js |], (props l) as [ps |]; simpl;
      split; intros H; try reflexivity; discriminate H.
  - intros js ps Hw Hjs Hps _. unfold serializePose. rewrite Hw, Hjs, Hps.
    eexists. split; [reflexivity |].
    repeat split.
    + cbn. f_equal. unfold js_or.
      destruct (has_poseNotesEl deps); [| reflexivity].
      simpl. destruct (notes l); reflexivity.
    + apply length_map.
    + intros j Hj. unfold matched.
      change (isArrayOfLength (obj_get (serializeJoints js) (j_name j)) 4 = true).
      rewrite serializeJoints_lookup.
      destruct (last_named_In js j Hj) as [j' ->]. reflexivity.
Qed.

(** X2.  The joints mapping of a serialized document is keyed by name with
    last write wins: looking up a name that joints bear gives the
    orientation of the last live joint that bears it.  Looking up a name
    that no joint bears gives [undefined], provided the name is not one of
    the members that every object inherits from [Object.prototype] and no
    joint is named [__proto__] (the mapping would then inherit from the
    orientation array of that joint). *)
Theorem X2_serialized_joints_last_wins
  (deps : Deps) (now : string) (l : Live) (doc : jsval) (js : list Joint) (k : string)
  (Hser : serializePose deps now l = Ok doc)
  (Hjs : joints l = Some js) :
  (forall j, last_named k js = Some j ->
             getProp (getProp doc "joints") k = Quaternion_toArray (j_quaternion j)) /\
  (last_named k js = None -> inherited k = false -> last_named "__proto__" js = None ->
   getProp (getProp doc "joints") k = JUndefined).
Proof.
  unfold serializePose in Hser. rewrite Hjs in Hser.
  destruct (has_world deps); [| discriminate Hser].
  destruct (props l) as [ps |]; [| discriminate Hser].
  injection Hser as <-.
  change (getProp (getProp (JObj [("version", JNum (num_of_nat 1));
                                  ("notes", JStr (js_String
                                     (js_or (if has_poseNotesEl deps then JStr (notes l)
                                             else JUndefined) (JStr EmptyString))));
                                  ("joints", JObj (serializeJoints js));
                                  ("props", JArr (map serializeProp ps));
                                  ("savedAt", JStr now)]) "joints") k)
    with (obj_get (serializeJoints js) k).
  rewrite serializeJoints_lookup. split.
  - intros j ->. reflexivity.
  - intros -> _ _. reflexivity.
Qed.

(** ** Strings *)

Lemma lower_char_idem (c : ascii) : lower_char (lower_char c) = lower_char c.
Proof. destruct c as [[] [] [] [] [] [] [] []]; reflexivity. Qed.

Lemma is_ws_lower_char (c : ascii) : is_ws (lower_char c) = is_ws c.
Proof. destruct c as [[] [] [] [] [] [] [] []]; reflexivity. Qed.

Lemma toLowerCase_idem (s : string) : toLowerCase (toLowerCase s) = toLowerCase s.
Proof.
  induction s as [| c r IH]; simpl; [reflexivity |].
  rewrite lower_char_idem, IH. reflexivity.
Qed.

Lemma trimStart_lower (s : string) :
  trimStart (toLowerCase s) = toLowerCase (trimStart s).
Proof.
  induction s as [| c r IH]; simpl; [reflexivity |].
  rewrite is_ws_lower_char. destruct (is_ws c); [exact IH | reflexivity].
Qed.

Lemma trimEnd_lower (s : string) :
  trimEnd (toLowerCase s) = toLowerCase (trimEnd s).
Proof.
  induction s as [| c r IH]; simpl; [reflexivity |].
  rewrite IH, is_ws_lower_char.
  destruct (trimEnd r); simpl; [destruct (is_ws c) |]; reflexivity.
Qed.

Lemma trim_lower (s : string) : trim (toLowerCase s) = toLowerCase (trim s).
Proof. unfold trim. rewrite trimStart_lower, trimEnd_lower. reflexivity. Qed.

Lemma trimEnd_idem (s : string) : trimEnd (trimEnd s) = trimEnd s.
Proof.
  induction s as [| c r IH]; simpl; [reflexivity |].
  destruct (trimEnd r) as [| c' r'] eqn:E.
  - destruct (is_ws c) eqn:W; simpl; [reflexivity | rewrite W; reflexivity].
  - cbn [trimEnd] in *. rewrite IH. reflexivity.
Qed.

Lemma trimStart_clean (s : string) : starts_clean (trimStart s) = true.
Proof.
  induction s as [| c r IH]; simpl; [reflexivity |].
  destruct (is_ws c) eqn:W; [exact IH | simpl; rewrite W; reflexivity].
Qed.

Lemma trimStart_of_clean (s : string) : starts_clean s = true -> trimStart s = s.
Proof.
  destruct s as [| c r]; simpl; [reflexivity |].
  destruct (is_ws c); [discriminate | reflexivity].
Qed.

Lemma trimEnd_clean (s : string) : starts_clean s = true -> starts_clean (trimEnd s) = true.
Proof.
  destruct s as [| c r]; simpl; [reflexivity |].
  intros W. destruct (trimEnd r); simpl; [| exact W].
  destruct (is_ws c) eqn:W'; simpl; [discriminate W | rewrite W'; reflexivity].
Qed.

Lemma trim_idem (s : string) : trim (trim s) = trim s.
Proof.
  unfold trim.
  rewrite (trimStart_of_clean (trimEnd (trimStart s))).
  - apply trimEnd_idem.
  - apply trimEnd_clean, trimStart_clean.
Qed.

Lemma infer_in_vocabulary (name : jsval) :
  In (inferTypeFromLegacyName name) inferable_types.
Proof.
  unfold inferTypeFromLegacyName, inferable_types.
  repeat match goal with
         | |- context [if ?b then _ else _] => destruct b
         end; simpl; tauto.
Qed.

Lemma vocabulary_normal (t : string) :
  In t inferable_types -> toLowerCase (trim t) = t.
Proof.
  unfold inferable_types. simpl.
  intros H. repeat (destruct H as [<- | H]; [reflexivity |]). contradiction.
Qed.

(** X3.  The type that [applyPose] hands to the prop factory (line 101),
    for a descriptor whose type and name can be printed: it is the type
    field, trimmed and lowercased, when that is not empty, and otherwise the
    type inferred from the name, one of the twelve; in both cases it is not
    empty and is itself trimmed and lowercase. *)
Theorem X3_propType_normal_form (pd : jsval)
  (Htype : String_returns (getOpt pd "type") = true)
  (Hname : String_returns (getOpt pd "name") = true) :
  let t := toLowerCase (trim (js_String (js_or (getOpt pd "type") (JStr EmptyString)))) in
  propType pd <> EmptyString /\
  toLowerCase (trim (propType pd)) = propType pd /\
  (t <> EmptyString -> propType pd = t) /\
  (t = EmptyString ->
   propType pd = inferTypeFromLegacyName (getOpt pd "name") /\
   In (propType pd) inferable_types).
Proof.
  cbv zeta. unfold propType.
  set (t := toLowerCase (trim (js_String (js_or (getOpt pd "type") (JStr EmptyString))))).
  destruct (is_empty t) eqn:E.
  - apply is_empty_true in E.
    pose proof (infer_in_vocabulary (getOpt pd "name")) as Hin.
    split; [| split; [| split]].
    + intros H. pose proof (infer_nonempty (getOpt pd "name")) as Hne.
      rewrite H in Hne. discriminate Hne.
    + apply vocabulary_normal, Hin.
    + intros Hne. contradiction.
    + intros _. split; [reflexivity | exact Hin].
  - assert (Hne : t <> EmptyString) by (intros H; rewrite H in E; discriminate E).
    split; [exact Hne | split; [| split]].
    + unfold t. rewrite <- trim_lower, toLowerCase_idem, trim_lower, trim_idem. reflexivity.
    + intros _. reflexivity.
    + intros H. contradiction.
Qed.

(** X4.  For a name that can be printed, type inference returns one of
    twelve types, and each of the twelve is returned: taken as a name, it
    infers itself.  The inference ignores the case of a string name, and
    returns [cube] for a missing or empty name. *)
Theorem X4_inferType_range_and_case (s : string) (name : jsval)
  (Hname : String_returns name = true) :
  In (inferTypeFromLegacyName name) inferable_types /\
  (forall t, In t inferable_types -> inferTypeFromLegacyName (JStr t : jsval) = t) /\
  inferTypeFromLegacyName (JStr (toLowerCase s) : jsval) =
    inferTypeFromLegacyName (JStr s : jsval) /\
  (truthy name = false -> inferTypeFromLegacyName name = "cube").
Proof.
  split; [apply infer_in_vocabulary | split; [| split]].
  - intros t Ht. unfold inferable_types in Ht. simpl in Ht.
    repeat (destruct Ht as [<- | Ht]; [reflexivity |]). contradiction.
  - unfold inferTypeFromLegacyName, js_or. simpl.
    replace (js_String (if negb (is_empty (toLowerCase s))
                        then JStr (toLowerCase s) else JStr EmptyString : jsval))
      with (toLowerCase s) by (destruct (toLowerCase s); reflexivity).
    replace (js_String (if negb (is_empty s) then JStr s else JStr EmptyString : jsval))
      with s by (destruct s; reflexivity).
    rewrite toLowerCase_idem. reflexivity.
  - intros H. unfold inferTypeFromLegacyName, js_or. rewrite H. reflexivity.
Qed.

(** ** Running a full apply step by step *)

Lemma bind_ok {Sigma A B} (m : M Sigma A) (f : A -> M Sigma B) (s s' : Sigma) (b : B) :
  bind m f s = (Ok b, s') ->
  exists a s1, m s = (Ok a, s1) /\ f a s1 = (Ok b, s').
Proof.
  rewrite bind_run. destruct (m s) as [[a | e] s1]; intros H; [eauto | discriminate H].
Qed.

Lemma run_calls {A} (m : M St A) (s : St) : leaves_calls m -> calls (snd (m s)) = calls s.
Proof. intros H. apply H. Qed.

Lemma lc_ret {A} (a : A) : leaves_calls (@ret St A a).
Proof. intro s; reflexivity. Qed.

Lemma lc_throw {A} (e : exn) : leaves_calls (@throw St A e).
Proof. intro s; reflexivity. Qed.

Lemma lc_lift {A} (o : outcome A) : leaves_calls (@lift St A o).
Proof. intro s; reflexivity. Qed.

Lemma lc_modify (f : Live -> Live) : leaves_calls (modify_live f).
Proof. intro s; reflexivity. Qed.

Lemma lc_bind {A B} (m : M St A) (f : A -> M St B) :
  leaves_calls m -> (forall a, leaves_calls (f a)) -> leaves_calls (bind m f).
Proof.
  intros Hm Hf s. rewrite bind_run. specialize (Hm s).
  destruct (m s) as [[a | e] s1]; simpl in *; [rewrite Hf |]; exact Hm.
Qed.

Lemma lc_when (b : bool) (m : M St unit) : leaves_calls m -> leaves_calls (when b m).
Proof. intros H; destruct b; [exact H | apply lc_ret]. Qed.

Lemma lc_read_props : leaves_calls read_props.
Proof.
  apply lc_bind; [intro s; reflexivity |].
  intros l. destruct (props l); [apply lc_ret | apply lc_throw].
Qed.

Lemma lc_read_joints : leaves_calls read_joints.
Proof.
  apply lc_bind; [intro s; reflexivity |].
  intros l. destruct (joints l); [apply lc_ret | apply lc_throw].
Qed.

Lemma lc_modify_p (f : PropObj -> PropObj) : leaves_calls (modify_p f).
Proof. apply lc_bind; [apply lc_read_props | intros; apply lc_modify]. Qed.

Lemma lc_applyPose_joints (data : jsval) : leaves_calls (applyPose_joints data).
Proof.
  unfold applyPose_joints. apply lc_when.
  apply lc_bind; [apply lc_read_joints | intros; apply lc_modify].
Qed.

Lemma lc_removeOldProps : leaves_calls removeOldProps.
Proof.
  unfold removeOldProps. apply lc_bind; [apply lc_read_props | intros ps].
  apply lc_bind; [| intros _]; apply lc_modify.
Qed.

Lemma lc_applyPose_notes (data : jsval) (deps : Deps) :
  leaves_calls (applyPose_notes data deps).
Proof.
  unfold applyPose_notes. destruct (getProp data "notes"); try apply lc_ret.
  apply lc_when, lc_modify.
Qed.

(** One descriptor calls the factory once, with its type, whether or not
    the rest of its processing throws. *)
Lemma applyPose_prop_calls (deps : Deps) (pd : jsval) (s : St) :
  calls (snd (applyPose_prop deps pd s)) =
  calls s ++ (if isSome (addProp deps) then [CallAddProp (propType pd)] else []).
Proof.
  unfold applyPose_prop. destruct (addProp deps) as [f |]; simpl.
  2: { rewrite app_nil_r. reflexivity. }
  rewrite bind_run. unfold call at 1. cbv beta iota.
  match goal with
  | |- calls (snd (?m ?s0)) = _ => change (calls (snd (m s0)) = calls s0)
  end.
  apply run_calls.
  apply lc_bind; [apply lc_modify | intros _].
  apply lc_bind; [apply lc_read_props | intros ps].
  destruct (last_entry ps); [| apply lc_ret].
  repeat first [ apply lc_modify_p | apply lc_lift | apply lc_when
               | apply lc_bind; [| intros ?] ].
Qed.

Lemma forEach_prop_calls (deps : Deps) (pds : list jsval) :
  forall s s',
    forEach pds (applyPose_prop deps) s = (Ok tt, s') ->
    calls s' =
    calls s ++ (if isSome (addProp deps)
                then map (fun pd => CallAddProp (propType pd)) pds else []).
Proof.
  induction pds as [| pd r IH]; intros s s' H.
  - injection H as <-. destruct (isSome (addProp deps)); rewrite app_nil_r; reflexivity.
  - cbn [forEach] in H. apply bind_ok in H. destruct H as ([] & s1 & H1 & H2).
    rewrite (IH s1 s' H2).
    pose proof (applyPose_prop_calls deps pd s) as Hc. rewrite H1 in Hc. simpl in Hc.
    rewrite Hc. destruct (isSome (addProp deps)); simpl; rewrite <- app_assoc; reflexivity.
Qed.

Lemma hooks_run (deps : Deps) (s : St) :
  (when (updateOutline deps) (call CallUpdateOutline) ;;
   when (forceRenderOnce deps) (call CallForceRenderOnce) ;;
   when (showToast deps) (call (CallShowToast "Pose loaded" None))) s =
  (Ok tt, mkSt (live s) (calls s ++ closing_hooks deps)).
Proof.
  unfold closing_hooks, bind, when, call, ret.
  destruct s as [l c].
  destruct (updateOutline deps), (forceRenderOnce deps), (showToast deps); simpl;
    rewrite <- ?app_assoc, ?app_nil_r; reflexivity.
Qed.

(** A full apply that returns has run its four steps in turn. *)
Lemma applyPose_checked_ok (data : jsval) (deps : Deps) (s s' : St) :
  applyPose_checked data deps s = (Ok tt, s') ->
  exists s1 s2 s3,
    applyPose_joints data s = (Ok tt, s1) /\
    applyPose_props data deps s1 = (Ok tt, s2) /\
    applyPose_notes data deps s2 = (Ok tt, s3) /\
    s' = mkSt (live s3) (calls s3 ++ closing_hooks deps).
Proof.
  unfold applyPose_checked. intros H.
  apply bind_ok in H. destruct H as ([] & s1 & H1 & H).
  apply bind_ok in H. destruct H as ([] & s2 & H2 & H).
  apply bind_ok in H. destruct H as ([] & s3 & H3 & H).
  rewrite hooks_run in H. injection H as <-.
  exists s1, s2, s3. repeat split; assumption.
Qed.

Lemma applyPose_props_calls (data : jsval) (deps : Deps) (s s' : St) :
  applyPose_props data deps s = (Ok tt, s') ->
  calls s' = calls s ++ factory_calls data deps.
Proof.
  unfold applyPose_props, factory_calls.
  destruct (getProp data "props") as [| | | | | pds |];
    try (intros H; injection H as <-; destruct (addProp deps); rewrite app_nil_r; reflexivity).
  intros H. apply bind_ok in H. destruct H as ([] & s1 & H1 & H2).
  rewrite (forEach_prop_calls deps pds s1 s' H2).
  pose proof (lc_removeOldProps s) as Hc. rewrite H1 in Hc. simpl in Hc. rewrite Hc.
  destruct (addProp deps); reflexivity.
Qed.

(** X5.  A full apply that returns has called the prop factory exactly once
    per descriptor of [document.props], in document order and with the
    normalized type of each, and after that the outline hook, the render
    hook and the [Pose loaded] notification, in this order, each once if it
    is supplied.  It has called nothing else. *)
Theorem X5_applyPose_calls (data : jsval) (deps : Deps) (st : St)
  (Hok : fst (applyPose data deps st) = Ok tt) :
  calls (snd (applyPose data deps st)) =
  calls st ++ factory_calls data deps ++ closing_hooks deps.
Proof.
  revert Hok. rewrite applyPose_cases.
  destruct (structured data); simpl; [| discriminate].
  destruct (world_ok deps (live st)); simpl; [| discriminate].
  destruct (has_scene deps); simpl; [| discriminate].
  destruct (applyPose_checked data deps st) as [[[] | e] s'] eqn:E; [| discriminate].
  intros _. simpl.
  destruct (applyPose_checked_ok data deps st s' E) as (s1 & s2 & s3 & H1 & H2 & H3 & ->).
  simpl.
  pose proof (lc_applyPose_notes data deps s2) as C3. rewrite H3 in C3. simpl in C3.
  pose proof (lc_applyPose_joints data st) as C1. rewrite H1 in C1. simpl in C1.
  rewrite C3, (applyPose_props_calls data deps s1 s2 H2), C1, <- app_assoc.
  reflexivity.
Qed.

(** ** Notes, props and scene under a full apply *)

Lemma keeps_applyPose_joints {B} (proj : Live -> B) (data : jsval) :
  (forall js l, proj (set_joints js l) = proj l) ->
  keeps proj (applyPose_joints data).
Proof.
  intros H. unfold applyPose_joints. apply keeps_when.
  apply keeps_bind; [apply keeps_read_joints | intros js].
  apply keeps_modify. apply H.
Qed.

Lemma keeps_applyPose_props {B} (proj : Live -> B) (data : jsval) (deps : Deps) :
  (forall ps l, proj (set_props ps l) = proj l) ->
  (forall c l, proj (set_scene c l) = proj l) ->
  (forall f t l, addProp deps = Some f -> proj (f t l) = proj l) ->
  keeps proj (applyPose_props data deps).
Proof.
  intros Hp Hs Hadd. unfold applyPose_props.
  destruct (getProp data "props"); try apply keeps_ret.
  apply keeps_bind; [| intros _].
  { unfold removeOldProps.
    apply keeps_bind; [apply keeps_read_props | intros ps].
    apply keeps_bind; [| intros _]; apply keeps_modify; intros l0; [apply Hs | apply Hp]. }
  apply keeps_forEach. intros pd. unfold applyPose_prop.
  destruct (addProp deps) as [f |] eqn:E; [| apply keeps_ret].
  apply keeps_bind; [apply keeps_call | intros _].
  apply keeps_bind; [apply keeps_modify; intros l0; apply (Hadd f _ l0 eq_refl) | intros _].
  apply keeps_bind; [apply keeps_read_props | intros ps].
  destruct (last_entry ps); [| apply keeps_ret].
  repeat first [ apply keeps_modify_p; exact Hp
               | apply keeps_lift
               | apply keeps_when
               | apply keeps_bind; [| intros ?] ].
Qed.

Lemma run_keeps {A B} (proj : Live -> B) (m : M St A) (s s' : St) (o : outcome A) :
  keeps proj m -> m s = (o, s') -> proj (live s') = proj (live s).
Proof. intros H E. specialize (H s). rewrite E in H. exact H. Qed.

(** X6.  When a full apply returns, the notes element holds the document's
    notes if the document carries a string [notes] and a notes element was
    passed; otherwise the notes are as they were.  (The prop factory is
    taken to leave the notes alone.) *)
Theorem X6_applyPose_notes (data : jsval) (deps : Deps) (st : St)
  (Hok : fst (applyPose data deps st) = Ok tt)
  (Hfactory : forall f t l, addProp deps = Some f -> notes (f t l) = notes l) :
  notes (live (snd (applyPose data deps st))) = notes_after data deps (notes (live st)).
Proof.
  revert Hok. rewrite applyPose_cases.
  destruct (structured data); simpl; [| discriminate].
  destruct (world_ok deps (live st)); simpl; [| discriminate].
  destruct (has_scene deps); simpl; [| discriminate].
  destruct (applyPose_checked data deps st) as [[[] | e] s'] eqn:E; [| discriminate].
  intros _. simpl.
  destruct (applyPose_checked_ok data deps st s' E) as (s1 & s2 & s3 & H1 & H2 & H3 & ->).
  simpl.
  rewrite <- (run_keeps notes _ _ _ _ (keeps_applyPose_joints notes data
                                         (fun _ _ => eq_refl)) H1).
  rewrite <- (run_keeps notes _ _ _ _ (keeps_applyPose_props notes data deps
                                         (fun _ _ => eq_refl) (fun _ _ => eq_refl)
                                         Hfactory) H2).
  revert H3. unfold applyPose_notes, notes_after.
  destruct (getProp data "notes"); try (intros H; injection H as <-; reflexivity).
  destruct (has_poseNotesEl deps); intros H; injection H as <-; reflexivity.
Qed.

(** X7.  A document without a [props] array leaves the props alone: whatever
    the document, the collaborators and the state, if [document.props] is
    not an array then the prop collection, every prop and the scene are
    after the call what they were before, and the prop factory is not
    called. *)
Theorem X7_no_props_array_no_rebuild (data : jsval) (deps : Deps) (st : St)
  (Hnone : forall pds, getProp data "props" <> JArr pds) :
  props (live (snd (applyPose data deps st))) = props (live st) /\
  scene (live (snd (applyPose data deps st))) = scene (live st) /\
  (forall t, ~ In (CallAddProp t) (calls st) ->
             ~ In (CallAddProp t) (calls (snd (applyPose data deps st)))).
Proof.
  assert (Hprops : forall s, applyPose_props data deps s = (Ok tt, s)).
  { intros s. unfold applyPose_props.
    destruct (getProp data "props") as [| | | | | pds |]; try reflexivity.
    exfalso. exact (Hnone pds eq_refl). }
  rewrite applyPose_cases.
  destruct (structured data); simpl; [| repeat split; auto].
  destruct (world_ok deps (live st)); simpl; [| repeat split; auto].
  destruct (has_scene deps); simpl; [| repeat split; auto].
  unfold applyPose_checked. rewrite bind_run.
  pose proof (keeps_applyPose_joints props data (fun _ _ => eq_refl) st) as Kp.
  pose proof (keeps_applyPose_joints scene data (fun _ _ => eq_refl) st) as Ks.
  pose proof (lc_applyPose_joints data st) as Kc.
  destruct (applyPose_joints data st) as [[[] | e] s1]; simpl in *;
    [| rewrite Kc; repeat split; auto].
  rewrite bind_run, Hprops. cbv beta iota. rewrite bind_run.
  pose proof (keeps_notes_and_hooks props data deps (fun _ _ => eq_refl) s1) as Np.
  pose proof (keeps_notes_and_hooks scene data deps (fun _ _ => eq_refl) s1) as Ns.
  rewrite bind_run in Np, Ns.
  pose proof (lc_applyPose_notes data deps s1) as Nc.
  destruct (applyPose_notes data deps s1) as [[[] | e] s2]; simpl in *.
  - rewrite hooks_run in *. simpl in *. rewrite Np, Ns, Kp, Ks, Nc, Kc.
    repeat split. intros t Hnot Hin. apply in_app_or in Hin. destruct Hin as [Hin | Hin].
    + exact (Hnot Hin).
    + unfold closing_hooks in Hin.
      destruct (updateOutline deps), (forceRenderOnce deps), (showToast deps);
        simpl in Hin; intuition discriminate.
  - rewrite Np, Ns, Kp, Ks, Nc, Kc. repeat split; auto.
Qed.

Lemma scene_remove_In (c id : nat) (l : list nat) :
  In c (scene_remove id l) -> In c l.
Proof.
  induction l as [| x r IH]; simpl; [tauto |].
  destruct (x =? id); simpl; tauto.
Qed.

Lemma scene_remove_other (c id : nat) (l : list nat) :
  c <> id -> In c l -> In c (scene_remove id l).
Proof.
  intros Hne. induction l as [| x r IH]; simpl; [tauto |].
  destruct (Nat.eqb_spec x id) as [-> | Hx]; simpl.
  - intros [E | H]; [congruence | exact H].
  - tauto.
Qed.

Lemma scene_remove_NoDup (id : nat) (l : list nat) :
  NoDup l -> NoDup (scene_remove id l) /\ ~ In id (scene_remove id l).
Proof.
  induction 1 as [| x r Hx Hr IH]; simpl.
  - split; [constructor | tauto].
  - destruct (Nat.eqb_spec x id) as [-> | Hne].
    + split; assumption.
    + destruct IH as [IH1 IH2]. split.
      * constructor; [| exact IH1]. intros H. apply Hx. eapply scene_remove_In, H.
      * simpl. tauto.
Qed.

Lemma scene_without_In (ps : list PropObj) (c : nat) :
  forall l, In c (scene_without ps l) -> In c l.
Proof.
  induction ps as [| p r IH]; intros l; simpl; [tauto |].
  intros H. eapply scene_remove_In, IH, H.
Qed.

Lemma scene_without_other (ps : list PropObj) (c : nat) :
  ~ In c (map p_id ps) -> forall l, In c l -> In c (scene_without ps l).
Proof.
  induction ps as [| p r IH]; intros Hc l; simpl in *; [tauto |].
  intros H. apply IH; [tauto |]. apply scene_remove_other; [| exact H].
  intros E. apply Hc. left. symmetry. exact E.
Qed.

Lemma scene_without_NoDup (ps : list PropObj) :
  forall l, NoDup l ->
            NoDup (scene_without ps l) /\
            forall p, In p ps -> ~ In (p_id p) (scene_without ps l).
Proof.
  induction ps as [| p r IH]; intros l Hl; simpl; [split; [exact Hl | tauto] |].
  destruct (scene_remove_NoDup (p_id p) l Hl) as [H1 H2].
  destruct (IH _ H1) as [IH1 IH2]. split; [exact IH1 |].
  intros q [<- | Hq]; [| apply IH2, Hq].
  intros H. apply H2. eapply scene_without_In, H.
Qed.

Lemma removeOldProps_explicit (s : St) (ps : list PropObj) :
  props (live s) = Some ps ->
  removeOldProps s =
  (Ok tt, mkSt (set_props [] (set_scene (scene_without ps (scene (live s))) (live s)))
               (calls s)).
Proof.
  intros E. unfold removeOldProps, read_props, get_live, modify_live, bind, ret. simpl.
  rewrite E. reflexivity.
Qed.

Lemma forEach_no_factory (deps : Deps) (pds : list jsval) (s : St) :
  addProp deps = None \/ pds = [] ->
  forEach pds (applyPose_prop deps) s = (Ok tt, s).
Proof.
  intros [Hnone | ->]; [| reflexivity].
  induction pds as [| pd r IH]; [reflexivity |].
  cbn [forEach]. rewrite bind_run. unfold applyPose_prop at 1. rewrite Hnone. exact IH.
Qed.

(** X8.  A document with a [props] array always discards the existing
    props.  When the array is empty, or no prop factory is supplied, a full
    apply on a valid document and world returns with an empty prop
    collection and with every former prop taken out of the scene; the other
    children of the scene stay. *)
Theorem X8_props_array_clears
  (data : jsval) (deps : Deps) (st : St) (ps : list PropObj) (pds : list jsval)
  (Hdata : structured data = true)
  (Hworld : world_ok deps (live st) = true)
  (Hscene : has_scene deps = true)
  (Hps : props (live st) = Some ps)
  (Harray : getProp data "props" = JArr pds)
  (Hnothing : addProp deps = None \/ pds = []) :
  let r := applyPose data deps st in
  fst r = Ok tt /\
  props (live (snd r)) = Some [] /\
  scene (live (snd r)) = scene_without ps (scene (live st)) /\
  (NoDup (scene (live st)) ->
   forall p, In p ps -> ~ In (p_id p) (scene (live (snd r)))) /\
  (forall c, ~ In c (map p_id ps) ->
             (In c (scene (live st)) <-> In c (scene (live (snd r))))).
Proof.
  cbv zeta.
  assert (Hjs : exists js, joints (live st) = Some js).
  { unfold world_ok in Hworld. destruct (joints (live st)) as [js |]; [eauto |].
    rewrite andb_false_r in Hworld. discriminate Hworld. }
  destruct Hjs as [js Hjs].
  destruct (applyPose_joints_ok data st js Hjs) as (s1 & Hrun1 & _ & Hp1).
  pose proof (run_keeps scene _ _ _ _ (keeps_applyPose_joints scene data (fun _ _ => eq_refl))
                Hrun1) as Hs1.
  rewrite Hps in Hp1.
  assert (Hrun :
    applyPose data deps st =
    (applyPose_notes data deps ;;
     when (updateOutline deps) (call CallUpdateOutline) ;;
     when (forceRenderOnce deps) (call CallForceRenderOnce) ;;
     when (showToast deps) (call (CallShowToast "Pose loaded" None)))
      (mkSt (set_props [] (set_scene (scene_without ps (scene (live s1))) (live s1)))
            (calls s1))).
  { rewrite applyPose_cases, Hdata, Hworld, Hscene. cbn [negb].
    unfold applyPose_checked. rewrite bind_run, Hrun1. cbv beta iota.
    rewrite bind_run. unfold applyPose_props. rewrite Harray.
    rewrite bind_run, (removeOldProps_explicit s1 ps Hp1). cbv beta iota.
    rewrite forEach_no_factory by exact Hnothing. reflexivity. }
  rewrite Hrun.
  assert (Hsc : scene (live (snd ((applyPose_notes data deps ;;
     when (updateOutline deps) (call CallUpdateOutline) ;;
     when (forceRenderOnce deps) (call CallForceRenderOnce) ;;
     when (showToast deps) (call (CallShowToast "Pose loaded" None)))
      (mkSt (set_props [] (set_scene (scene_without ps (scene (live s1))) (live s1)))
            (calls s1))))) = scene_without ps (scene (live st))).
  { rewrite <- Hs1. apply (keeps_notes_and_hooks scene data deps). reflexivity. }
  split; [apply succeeds_notes_and_hooks |].
  split; [apply (keeps_notes_and_hooks props data deps); reflexivity |].
  split; [exact Hsc |]. rewrite Hsc. split.
  - intros Hnd. apply scene_without_NoDup. exact Hnd.
  - intros c Hc. split; [apply scene_without_other, Hc | apply scene_without_In].
Qed.

(** ** Joints under the two appliers *)

Lemma applyPose_joint_idem (dj : jsval) (j : Joint) :
  applyPose_joint dj (applyPose_joint dj j) = applyPose_joint dj j.
Proof.
  unfold applyPose_joint at 1. rewrite applyPose_joint_name.
  unfold applyPose_joint.
  destruct (isArrayOfLength (getProp dj (j_name j)) 4); reflexivity.
Qed.

Lemma joints_after_idem (data : jsval) (js : list Joint) :
  joints_after data (joints_after data js) = joints_after data js.
Proof.
  unfold joints_after. destruct (structured (getProp data "joints")); [| reflexivity].
  rewrite map_map. apply map_ext. intros j. apply applyPose_joint_idem.
Qed.

Lemma applyPose_joints_of (data : jsval) (deps : Deps) (st : St) (js : list Joint) :
  structured data = true ->
  world_ok deps (live st) = true ->
  has_scene deps = true ->
  joints (live st) = Some js ->
  (forall f t l, addProp deps = Some f -> joints (f t l) = joints l) ->
  joints (live (snd (applyPose data deps st))) = Some (joints_after data js).
Proof.
  intros Hdata Hworld Hscene Hjs Hfactory.
  rewrite applyPose_cases, Hdata, Hworld, Hscene. cbn [negb].
  apply applyPose_checked_joints; assumption.
Qed.

(** X9.  Applying the same document twice gives the joints the orientations
    that applying it once gives: the joint step of the full apply is
    idempotent. *)
Theorem X9_applyPose_joints_idempotent
  (data : jsval) (deps : Deps) (st : St) (js : list Joint)
  (Hdata : structured data = true)
  (Hworld : world_ok deps (live st) = true)
  (Hscene : has_scene deps = true)
  (Hjs : joints (live st) = Some js)
  (Hfactory : forall f t l, addProp deps = Some f -> joints (f t l) = joints l)
  (Hagain : world_ok deps (live (snd (applyPose data deps st))) = true) :
  joints (live (snd (applyPose data deps (snd (applyPose data deps st))))) =
  joints (live (snd (applyPose data deps st))).
Proof.
  pose proof (applyPose_joints_of data deps st js Hdata Hworld Hscene Hjs Hfactory) as H1.
  rewrite (applyPose_joints_of data deps _ (joints_after data js) Hdata Hagain Hscene H1
             Hfactory).
  rewrite joints_after_idem. symmetry. exact H1.
Qed.

(** The joints-only apply, once its checks have passed: the resetter runs,
    then every joint is overwritten as in the full apply. *)
Lemma applyPoseJointsOnly_checked_run (data : jsval) (deps : Deps) (st : St)
  (js : list Joint) :
  joints (match resetAllJointRotations deps with
          | Some reset => reset (live st)
          | None => live st
          end) = Some js ->
  fst (applyPoseJointsOnly_checked data deps st) =
    Ok (List.length (filter (matched (getProp data "joints")) js)) /\
  joints (live (snd (applyPoseJointsOnly_checked data deps st))) =
    Some (map (applyPose_joint (getProp data "joints")) js).
Proof.
  intros Hjs. unfold applyPoseJointsOnly_checked.
  destruct (resetAllJointRotations deps) as [reset |];
    unfold read_joints, get_live, call, modify_live, bind, ret, throw; simpl;
    rewrite Hjs; simpl; rewrite jointsOnly_loop_spec; simpl;
    destruct (updateOutline deps), (forceRenderOnce deps), (showToast deps); simpl;
    try destruct (List.length (filter (matched (getProp data "joints")) js) =? 0);
    simpl; split; reflexivity.
Qed.

(** X10.  Without a joint resetter, the joints-only apply is the joint step
    of the full apply: on a valid preset and world both leave exactly the
    same joints, so unmatched joints keep their prior orientation. *)
Theorem X10_jointsOnly_without_reset_is_joint_step
  (data : jsval) (deps : Deps) (st : St) (js : list Joint)
  (Hdata : structured data = true)
  (Hjoints : structured (getProp data "joints") = true)
  (Hworld : world_ok deps (live st) = true)
  (Hscene : has_scene deps = true)
  (Hjs : joints (live st) = Some js)
  (Hnoreset : resetAllJointRotations deps = None)
  (Hfactory : forall f t l, addProp deps = Some f -> joints (f t l) = joints l) :
  joints (live (snd (applyPoseJointsOnly data deps st))) =
    joints (live (snd (applyPose data deps st))) /\
  joints (live (snd (applyPoseJointsOnly data deps st))) =
    Some (map (applyPose_joint (getProp data "joints")) js).
Proof.
  assert (Honly : joints (live (snd (applyPoseJointsOnly data deps st))) =
                  Some (map (applyPose_joint (getProp data "joints")) js)).
  { rewrite applyPoseJointsOnly_cases, Hdata, Hjoints.
    unfold preset_world_ok. unfold world_ok in Hworld.
    apply andb_prop in Hworld. destruct Hworld as [Hw _]. rewrite Hw. cbn [negb].
    apply applyPoseJointsOnly_checked_run. rewrite Hnoreset. exact Hjs. }
  split; [| exact Honly].
  rewrite Honly, (applyPose_joints_of data deps st js Hdata Hworld Hscene Hjs Hfactory).
  unfold joints_after. rewrite Hjoints. reflexivity.
Qed.

Lemma map_reset_names (dj : jsval) (q : @Quaternion num) (js1 js2 : list Joint) :
  map j_name js1 = map j_name js2 ->
  map (applyPose_joint dj) (map (set_quaternion q) js1) =
  map (applyPose_joint dj) (map (set_quaternion q) js2).
Proof.
  revert js2. induction js1 as [| j1 r1 IH]; intros [| j2 r2] H; try discriminate H.
  - reflexivity.
  - simpl in H. injection H as Hn Hr. cbn [map]. rewrite (IH r2 Hr). f_equal.
    unfold set_quaternion. simpl. rewrite Hn. reflexivity.
Qed.

Lemma filter_matched_names (dj : jsval) (js1 js2 : list Joint) :
  map j_name js1 = map j_name js2 ->
  List.length (filter (matched dj) js1) = List.length (filter (matched dj) js2).
Proof.
  revert js2. induction js1 as [| j1 r1 IH]; intros [| j2 r2] H; try discriminate H.
  - reflexivity.
  - simpl in H. injection H as Hn Hr. cbn [filter].
    replace (matched dj j1) with (matched dj j2) by (unfold matched; rewrite Hn; reflexivity).
    destruct (matched dj j2); cbn [List.length]; rewrite (IH r2 Hr); reflexivity.
Qed.

(** X11.  With a resetter that puts every joint at the identity, the pose
    left by the joints-only apply depends on the preset alone: from two
    worlds with the same joint names, whatever their prior poses, it returns
    the same count and leaves the same joint orientations. *)
Theorem X11_jointsOnly_pose_is_determined
  (data : jsval) (deps : Deps) (st1 st2 : St) (reset : Live -> Live)
  (js1 js2 : list Joint)
  (Hdata : structured data = true)
  (Hjoints : structured (getProp data "joints") = true)
  (Hworld : has_world deps = true)
  (Hjs1 : joints (live st1) = Some js1)
  (Hjs2 : joints (live st2) = Some js2)
  (Hnames : map j_name js1 = map j_name js2)
  (Hhook : resetAllJointRotations deps = Some reset)
  (Hreset : forall l, joints (reset l) =
                      option_map (map (set_quaternion Quaternion_identity)) (joints l)) :
  fst (applyPoseJointsOnly data deps st1) = fst (applyPoseJointsOnly data deps st2) /\
  joints (live (snd (applyPoseJointsOnly data deps st1))) =
  joints (live (snd (applyPoseJointsOnly data deps st2))).
Proof.
  assert (Hrun : forall st js, joints (live st) = Some js ->
    fst (applyPoseJointsOnly data deps st) =
      Ok (List.length (filter (matched (getProp data "joints"))
                         (map (set_quaternion Quaternion_identity) js))) /\
    joints (live (snd (applyPoseJointsOnly data deps st))) =
      Some (map (applyPose_joint (getProp data "joints"))
              (map (set_quaternion Quaternion_identity) js))).
  { intros st js Hjs.
    rewrite applyPoseJointsOnly_cases, Hdata, Hjoints.
    unfold preset_world_ok. rewrite Hworld, Hjs. cbn [negb isSome andb].
    apply applyPoseJointsOnly_checked_run. rewrite Hhook, Hreset, Hjs. reflexivity. }
  destruct (Hrun st1 js1 Hjs1) as [F1 J1]. destruct (Hrun st2 js2 Hjs2) as [F2 J2].
  rewrite F1, F2, J1, J2, !filter_matched_reset.
  rewrite (filter_matched_names _ js1 js2 Hnames), (map_reset_names _ _ js1 js2 Hnames).
  split; reflexivity.
Qed.

(** ** The import pipeline, further *)

Section FurtherImportProperties.

Context {S : Type} (JSON_parse : string -> outcome jsval).

#[local] Abbreviation ISt := (@ISt num S).
#[local] Abbreviation ImportDeps := (@ImportDeps num S).

Lemma substring_prefix (a b : string) :
  String.substring 0 (String.length a) (a ++ b)%string = a.
Proof.
  induction a as [| c r IH]; simpl.
  - destruct b; reflexivity.
  - rewrite IH. reflexivity.
Qed.

Lemma toLowerCase_length (s : string) : String.length (toLowerCase s) = String.length s.
Proof. induction s as [| c r IH]; simpl; [reflexivity | rewrite IH; reflexivity]. Qed.

(** X12.  The display name of an imported file is its name without the
    [.json] suffix, whatever the case of the suffix; a name without that
    suffix would be left whole. *)
Theorem X12_stripJson (base ext n : string) :
  (toLowerCase ext = ".json" -> stripJson (base ++ ext)%string = base) /\
  (endsWith (toLowerCase n) ".json" = false -> stripJson n = n).
Proof.
  split.
  - intros Hext. unfold stripJson.
    rewrite toLowerCase_append, Hext, endsWith_append, string_length_append.
    assert (Hlen : String.length ext = 5).
    { rewrite <- toLowerCase_length, Hext. reflexivity. }
    rewrite Hlen. replace (String.length base + 5 - 5) with (String.length base) by lia.
    apply substring_prefix.
  - intros H. unfold stripJson. rewrite H. reflexivity.
Qed.

Lemma run_apply_with (deps : ImportDeps) (data : jsval) (s : ISt) :
  (forall ap, applyPoseFn deps = Some ap -> fst (ap data (fst s)) = Ok tt) ->
  exists a',
    run_apply deps data s =
    (Ok tt, (a', snd s ++ (if isSome (applyPoseFn deps) then [CallApplyPose data] else []))) /\
    a' = match applyPoseFn deps with
         | Some ap => snd (ap data (fst s))
         | None => fst s
         end.
Proof.
  intros H. unfold run_apply. destruct (applyPoseFn deps) as [ap |] eqn:E; simpl.
  - rewrite bind_run. unfold log, run_hook. cbv beta iota. cbn [fst snd].
    specialize (H ap eq_refl).
    destruct (ap data (fst s)) as [[[] | e] a']; simpl in H; [| discriminate H].
    eauto.
  - exists (fst s). rewrite app_nil_r. destruct s; split; reflexivity.
Qed.

Lemma run_save_with (deps : ImportDeps) (name : string) (s : ISt) :
  (forall sv, saveToGallery deps = Some sv -> fst (sv name false (fst s)) = Ok tt) ->
  exists a',
    run_save deps name s =
    (Ok tt, (a', snd s ++ (if isSome (saveToGallery deps)
                           then [CallSaveToGallery name false] else []))) /\
    a' = match saveToGallery deps with
         | Some sv => snd (sv name false (fst s))
         | None => fst s
         end.
Proof.
  intros H. unfold run_save. destruct (saveToGallery deps) as [sv |] eqn:E; simpl.
  - rewrite bind_run. unfold log, run_hook. cbv beta iota. cbn [fst snd].
    specialize (H sv eq_refl).
    destruct (sv name false (fst s)) as [[[] | e] a']; simpl in H; [| discriminate H].
    eauto.
  - exists (fst s). rewrite app_nil_r. destruct s; split; reflexivity.
Qed.

Lemma importLoop_all_good (deps : ImportDeps) (Inv : S -> Prop) (files : list File) :
  (forall file, In file files -> isCandidate file = true -> parsed JSON_parse file <> None) ->
  (forall file data ap a,
      In file files -> isCandidate file = true -> parsed JSON_parse file = Some data ->
      applyPoseFn deps = Some ap -> Inv a ->
      fst (ap data a) = Ok tt /\ Inv (snd (ap data a))) ->
  (forall file sv a,
      In file files -> isCandidate file = true ->
      saveToGallery deps = Some sv -> Inv a ->
      fst (sv (stripJson (file_name file)) false a) = Ok tt /\
      Inv (snd (sv (stripJson (file_name file)) false a))) ->
  forall (imported : nat) (s : ISt),
  Inv (fst s) ->
  exists a,
    importLoop JSON_parse deps files imported s =
    (Ok (imported + List.length (filter isCandidate files)),
     (a, snd s ++ flat_map (import_calls JSON_parse deps) (filter isCandidate files))) /\
    Inv a.
Proof.
  intros Hgood Hap Hsv. induction files as [| file rest IH]; intros imported s Hinv.
  - exists (fst s). simpl. rewrite Nat.add_0_r, app_nil_r.
    split; [destruct s; reflexivity | exact Hinv].
  - assert (Hrest : forall f, In f rest -> isCandidate f = true ->
                              parsed JSON_parse f <> None).
    { intros f Hf. apply Hgood. right. exact Hf. }
    assert (Hap' : forall f data ap a,
               In f rest -> isCandidate f = true -> parsed JSON_parse f = Some data ->
               applyPoseFn deps = Some ap -> Inv a ->
               fst (ap data a) = Ok tt /\ Inv (snd (ap data a))).
    { intros f data ap a Hf. apply Hap. right. exact Hf. }
    assert (Hsv' : forall f sv a,
               In f rest -> isCandidate f = true ->
               saveToGallery deps = Some sv -> Inv a ->
               fst (sv (stripJson (file_name f)) false a) = Ok tt /\
               Inv (snd (sv (stripJson (file_name f)) false a))).
    { intros f sv a Hf. apply Hsv. right. exact Hf. }
    destruct (isCandidate file) eqn:Hc.
    + rewrite importLoop_candidate by exact Hc. cbn [filter]. rewrite Hc.
      pose proof (Hgood file (or_introl eq_refl) Hc) as Hp.
      cbn [flat_map].
      destruct (parsed JSON_parse file) as [data |] eqn:Hparsed; [| contradiction].
      assert (Hcalls : import_calls JSON_parse deps file =
                (if isSome (applyPoseFn deps) then [CallApplyPose data] else []) ++
                (if isSome (saveToGallery deps)
                 then [CallSaveToGallery (stripJson (file_name file)) false] else [])).
      { unfold import_calls. rewrite Hparsed. reflexivity. }
      assert (Htext : exists text, f_text file = Ok text /\ JSON_parse text = Ok data).
      { unfold parsed in Hparsed.
        destruct (f_text file) as [text | e]; [| discriminate Hparsed].
        destruct (JSON_parse text) as [d | e] eqn:Hq; [| discriminate Hparsed].
        injection Hparsed as ->. exists text. split; [reflexivity | exact Hq]. }
      destruct Htext as (text & Hr & Hq).
      destruct (run_apply_with deps data s) as (a1 & Ha1 & Ea1).
      { intros ap E. apply (Hap file data ap (fst s) (or_introl eq_refl) Hc Hparsed E Hinv). }
      assert (Hinv1 : Inv a1).
      { rewrite Ea1. destruct (applyPoseFn deps) as [ap |]; [| exact Hinv].
        apply (Hap file data ap (fst s) (or_introl eq_refl) Hc Hparsed eq_refl Hinv). }
      destruct (run_save_with deps (stripJson (file_name file)) (a1, snd s ++
                  (if isSome (applyPoseFn deps) then [CallApplyPose data] else [])))
        as (a2 & Ha2 & Ea2).
      { intros sv E. apply (Hsv file sv a1 (or_introl eq_refl) Hc E Hinv1). }
      assert (Hinv2 : Inv a2).
      { rewrite Ea2. cbn [fst]. destruct (saveToGallery deps) as [sv |]; [| exact Hinv1].
        apply (Hsv file sv a1 (or_introl eq_refl) Hc eq_refl Hinv1). }
      rewrite (importFile_imports JSON_parse deps file imported s _
                 (imports_intro JSON_parse deps file s text data _ _ Hr Hq Ha1 Ha2)).
      destruct (IH Hrest Hap' Hsv' (imported + 1) (a2, snd (a1, snd s ++
                  (if isSome (applyPoseFn deps) then [CallApplyPose data] else [])) ++
                  (if isSome (saveToGallery deps)
                   then [CallSaveToGallery (stripJson (file_name file)) false] else []))
                  Hinv2)
        as (a & Hrun & Hinva).
      exists a. split; [| exact Hinva]. rewrite Hrun, Hcalls.
      cbn [fst snd List.length]. rewrite <- !app_assoc.
      replace (imported + 1 + List.length (filter isCandidate rest))
        with (imported + Datatypes.S (List.length (filter isCandidate rest))) by lia.
      reflexivity.
    + rewrite importLoop_skip by exact Hc. cbn [filter]. rewrite Hc.
      apply (IH Hrest Hap' Hsv' imported s Hinv).
Qed.

(** X13.  When every candidate file can be read and parsed, and the apply
    hook and the gallery hook return on the documents and names of these
    files from every application state that satisfies an invariant they
    preserve and the start state satisfies, every candidate is imported: the
    count is the number of candidates, no warning is logged, and the calls
    are, file by file in batch order, the apply hook on the file's document
    and then the gallery hook on its display name with the per-item
    notification switched off, followed by the closing calls. *)
Theorem X13_import_all_candidates
  (deps : ImportDeps) (files : list File) (s : ISt) (Inv : S -> Prop)
  (Hne : files <> [])
  (Hstart : Inv (fst s))
  (Hgood : forall file, In file files -> isCandidate file = true ->
                        parsed JSON_parse file <> None)
  (Happly : forall file data ap a,
      In file files -> isCandidate file = true -> parsed JSON_parse file = Some data ->
      applyPoseFn deps = Some ap -> Inv a ->
      fst (ap data a) = Ok tt /\ Inv (snd (ap data a)))
  (Hsave : forall file sv a,
      In file files -> isCandidate file = true ->
      saveToGallery deps = Some sv -> Inv a ->
      fst (sv (stripJson (file_name file)) false a) = Ok tt /\
      Inv (snd (sv (stripJson (file_name file)) false a))) :
  let n := List.length (filter isCandidate files) in
  fst (importPosePack JSON_parse (Some files) deps s) = Ok (Some n) /\
  snd (snd (importPosePack JSON_parse (Some files) deps s)) =
    snd s ++ flat_map (import_calls JSON_parse deps) (filter isCandidate files)
          ++ closing_calls deps n.
Proof.
  cbv zeta.
  destruct (importLoop_all_good deps Inv files Hgood Happly Hsave 0 s Hstart)
    as (a & Hrun & _).
  rewrite (importPosePack_run JSON_parse deps files s _ a _ Hne Hrun).
  cbn [fst snd]. rewrite <- app_assoc. split; reflexivity.
Qed.

(** X14.  A non-empty batch none of whose names ends in [.json] imports
    nothing, whatever its files hold and whether or not they can be read:
    the count is 0, neither the apply hook nor the gallery hook is called,
    no warning is logged, the application state is touched by the closing
    hooks only, and the summary is [No valid poses imported]. *)
Theorem X14_import_no_candidate
  (deps : ImportDeps) (files : list File) (s : ISt)
  (Hne : files <> [])
  (Hnone : forall file, In file files -> isCandidate file = false) :
  importPosePack JSON_parse (Some files) deps s =
    (Ok (Some 0), (closing_state deps 0 (fst s), snd s ++ closing_calls deps 0)) /\
  closing_calls deps 0 =
    (if isSome (renderGallery deps) then [CallRenderGallery] else []) ++
    (if isSome (importToast deps) then [CallImportToast "No valid poses imported"] else []).
Proof.
  split; [| reflexivity].
  apply importPosePack_run; [exact Hne |].
  rewrite importLoop_filter.
  replace (filter isCandidate files) with (@nil File).
  - destruct s; reflexivity.
  - symmetry. apply filter_none. exact Hnone.
Qed.

End FurtherImportProperties.

(** X15.  The import with the full apply as its apply hook.  A candidate
    file whose text parses to something that is not a structured value
    (null, a number, a string, a boolean) is skipped: the apply hook throws
    [InvalidPoseError], the live world, scene and notes are exactly as
    before, the gallery hook is not called, a warning is logged, and the
    loop goes on with the count unchanged. *)
Theorem X15_import_skips_invalid_document
  (JSON_parse : string -> outcome jsval) (adeps : Deps)
  (ideps : @ImportDeps num St) (file : File) (rest : list File)
  (imported : nat) (st : St) (lg : list (@ImportCall num)) (text : string) (data : jsval)
  (Hhook : applyPoseFn ideps = Some (fun d => applyPose d adeps))
  (Hcandidate : isCandidate file = true)
  (Hread : f_text file = Ok text)
  (Hparse : JSON_parse text = Ok data)
  (Hinvalid : structured data = false) :
  importLoop JSON_parse ideps (file :: rest) imported (st, lg) =
  importLoop JSON_parse ideps rest imported
    (st, lg ++ [CallApplyPose data; ConsoleWarn (f_name file) InvalidPoseError]).
Proof.
  rewrite importLoop_candidate by exact Hcandidate.
  assert (Hfail : fails JSON_parse ideps file (st, lg) InvalidPoseError
                    (st, lg ++ [CallApplyPose data])).
  { eapply fails_apply; [exact Hread | exact Hparse |].
    unfold run_apply. rewrite Hhook. rewrite bind_run. unfold log, run_hook.
    cbv beta iota. cbn [fst snd]. rewrite applyPose_cases, Hinvalid. reflexivity. }
  rewrite (importFile_fails JSON_parse ideps file imported _ _ _ Hfail).
  cbn [fst snd]. rewrite <- app_assoc. reflexivity.
Qed.

End FurtherProperties.

(** * Properties of the modes controller *)

Section ModesProperties.

Context {num : Type} {JN : JsNumber num} {JA : JsArith num}.

Import ModesController.

#[local] Abbreviation jsval := (@jsval num).
#[local] Abbreviation Controller := (@Controller num).
#[local] Abbreviation Gizmo := (@Gizmo num).
#[local] Abbreviation reachable := (@reachable num JN JA).
#[local] Abbreviation consistent := (@consistent num JN JA).

Lemma has_class_removed (cls : string) (e : Element) :
  has_class cls (filter (fun c => negb (String.eqb cls c)) e) = false.
Proof.
  unfold has_class. induction e as [| x r IH]; simpl; [reflexivity |].
  destruct (String.eqb cls x) eqn:E; simpl; [exact IH | rewrite E; exact IH].
Qed.

Lemma has_class_toggle (cls : string) (on : bool) (e : Element) :
  has_class cls (classList_toggle cls on e) = on.
Proof.
  unfold classList_toggle. destruct on.
  - destruct (has_class cls e) eqn:E; [exact E |].
    unfold has_class. rewrite existsb_app. simpl.
    rewrite String.eqb_refl, orb_true_r. reflexivity.
  - apply has_class_removed.
Qed.

Lemma has_class_toggle_other (cls other : string) (on : bool) (e : Element) :
  other <> cls ->
  has_class other (classList_toggle cls on e) = has_class other e.
Proof.
  intros Hne. unfold classList_toggle, has_class. destruct on.
  - destruct (existsb (String.eqb cls) e); [reflexivity |].
    rewrite existsb_app. simpl.
    destruct (String.eqb_spec other cls) as [E | _]; [contradiction |].
    rewrite !orb_false_r. reflexivity.
  - induction e as [| x r IH]; simpl; [reflexivity |].
    destruct (String.eqb_spec cls x) as [<- | Hx]; simpl.
    + destruct (String.eqb_spec other cls) as [E | _]; [contradiction | exact IH].
    + rewrite IH. reflexivity.
Qed.

Lemma shows_toggle (el : option Element) (cls : string) (on : bool) :
  shows (_toggleClass el cls on) cls on.
Proof. destruct el as [e |]; simpl; [apply has_class_toggle | exact I]. Qed.

Lemma applyState_consistent (c : Controller) :
  valid_mode (state_mode c) = true -> consistent (applyState c).
Proof.
  intros Hv. unfold consistent. split; [exact Hv |]. split; [| split].
  - unfold gizmo_mirrors. simpl. destruct (gizmo c); [reflexivity | exact I].
  - unfold orbit_guarded. simpl. destruct (orbit c); [| exact I].
    simpl. intros H. apply String.eqb_eq. exact H.
  - unfold buttons_mirror. simpl. repeat split; apply shows_toggle.
Qed.

Lemma consistent_toast (msg : string) (c : Controller) :
  consistent c -> consistent (_toast msg c).
Proof. unfold _toast. destruct (toast c); intros H; exact H. Qed.

Lemma valid_mode_cases (m : string) :
  valid_mode m = true <-> m = "rotate" \/ m = "move" \/ m = "orbit" \/ m = "scale".
Proof.
  unfold valid_mode. rewrite !orb_true_iff, !String.eqb_eq. tauto.
Qed.

Lemma setMode_rejects (m : string) :
  negb (String.eqb m "rotate") && negb (String.eqb m "move")
  && negb (String.eqb m "orbit") && negb (String.eqb m "scale") = negb (valid_mode m).
Proof.
  unfold valid_mode.
  destruct (String.eqb m "rotate"), (String.eqb m "move"), (String.eqb m "orbit"),
    (String.eqb m "scale"); reflexivity.
Qed.

Lemma setMode_consistent (v : jsval) (c : Controller) :
  consistent c -> consistent (setMode v c).
Proof.
  intros Hc. unfold setMode. destruct v as [| | | | m | |]; try exact Hc.
  rewrite setMode_rejects. destruct (valid_mode m) eqn:Hv; simpl; [| exact Hc].
  apply consistent_toast, applyState_consistent. exact Hv.
Qed.

Lemma toggleAxis_consistent (v : jsval) (c : Controller) :
  consistent c -> consistent (toggleAxis v c).
Proof.
  intros Hc. unfold toggleAxis. destruct v as [| | | | k | |]; try exact Hc.
  destruct Hc as [Hv Hrest].
  destruct (String.eqb k "x"); [apply applyState_consistent, Hv |].
  destruct (String.eqb k "y"); [apply applyState_consistent, Hv |].
  destruct (String.eqb k "z"); [apply applyState_consistent, Hv |].
  split; assumption.
Qed.

Lemma setSnapDeg_consistent (v : jsval) (c : Controller) :
  consistent c -> consistent (setSnapDeg v c).
Proof. intros [Hv _]. apply applyState_consistent. exact Hv. Qed.

Lemma perform_consistent (a : Action) (c : Controller) :
  consistent c -> consistent (perform a c).
Proof.
  intros Hc. destruct a; cbn [perform].
  - apply setMode_consistent, Hc.
  - apply toggleAxis_consistent, Hc.
  - apply setSnapDeg_consistent, Hc.
  - apply applyState_consistent, Hc.
  - unfold handleShortcut. destruct keyLower as [| | | | k | |]; try exact Hc.
    repeat (match goal with
            | |- context [if ?b then _ else _] => destruct b
            end; [apply setMode_consistent, Hc |]).
    exact Hc.
  - destruct (isSome _); [apply setMode_consistent |]; exact Hc.
  - destruct (isSome _); [apply setMode_consistent |]; exact Hc.
  - destruct (isSome _); [apply setMode_consistent |]; exact Hc.
  - destruct (isSome _); [apply setMode_consistent |]; exact Hc.
  - destruct (isSome _); [apply toggleAxis_consistent |]; exact Hc.
  - destruct (isSome _); [apply toggleAxis_consistent |]; exact Hc.
  - destruct (isSome _); [apply toggleAxis_consistent |]; exact Hc.
  - destruct (rotateSnap (ui c)) as [s |] eqn:Es; [| exact Hc].
    destruct (index <? List.length (options s)); [| exact Hc].
    unfold onRotateSnapChange. cbn [rotateSnap ui set_rotateSnap].
    apply setSnapDeg_consistent. exact Hc.
  - destruct (isSome (gizmo c) && isSome (orbit c)); [| exact Hc].
    unfold onDraggingChanged.
    assert (H1 : consistent
                   match orbit c with
                   | Some _ => set_orbit (Some (mkOrbit (negb value &&
                                                         String.eqb (state_mode c) "orbit"))) c
                   | None => c
                   end).
    { destruct (orbit c) eqn:Eo; [| exact Hc].
      destruct Hc as (Hv & Hg & Ho & Hb). split; [exact Hv |]. split; [exact Hg |].
      split; [| exact Hb].
      unfold orbit_guarded. simpl. intros H. apply andb_prop in H.
      apply String.eqb_eq. apply H. }
    destruct value; [apply consistent_toast |]; exact H1.
Qed.

Lemma reachable_consistent (c : Controller) : reachable c -> consistent c.
Proof.
  induction 1 as [u o g t | a c _ IH].
  - apply applyState_consistent. reflexivity.
  - apply perform_consistent, IH.
Qed.

(** X16.  Whatever is called on a controller and whatever events reach it,
    with whatever arguments, its mode is one of rotate, move, orbit and
    scale, and the gizmo (when there is one) has exactly the settings the
    state calls for: enabled outside orbit mode, in translate mode for move,
    scale for scale and rotate otherwise, showing the unlocked axes, and
    snapping rotations (by the snap angle in radians) only in rotate mode
    with a positive snap angle. *)
Theorem X16_controller_mode_and_gizmo (c : Controller) (Hreach : reachable c) :
  (state_mode c = "rotate" \/ state_mode c = "move" \/
   state_mode c = "orbit" \/ state_mode c = "scale") /\
  (forall g, gizmo c = Some g ->
     g_enabled g = negb (String.eqb (state_mode c) "orbit") /\
     g_mode g = (if String.eqb (state_mode c) "move" then "translate"
                 else if String.eqb (state_mode c) "scale" then "scale" else "rotate") /\
     g_showX g = axis_x c /\ g_showY g = axis_y c /\ g_showZ g = axis_z c /\
     g_rotationSnap g =
       (if String.eqb (state_mode c) "rotate" && num_gt (snapDeg c) (num_of_nat 0)
        then Some (_degToRad (snapDeg c)) else None)).
Proof.
  destruct (reachable_consistent c Hreach) as (Hv & Hg & _ & _).
  split; [apply valid_mode_cases, Hv |].
  intros g Eg. unfold gizmo_mirrors in Hg. rewrite Eg in Hg. subst g.
  repeat split.
Qed.

(** X17.  The orbit control and the gizmo are never enabled together: in
    every controller that can arise, the orbit control is enabled only in
    orbit mode and the gizmo only outside it. *)
Theorem X17_orbit_and_gizmo_exclusive (c : Controller) (o : Orbit) (g : Gizmo)
  (Hreach : reachable c) (Ho : orbit c = Some o) (Hg : gizmo c = Some g) :
  (o_enabled o = true -> state_mode c = "orbit") /\
  (g_enabled g = true -> state_mode c <> "orbit") /\
  ~ (o_enabled o = true /\ g_enabled g = true).
Proof.
  destruct (reachable_consistent c Hreach) as (_ & Hgm & Hog & _).
  unfold gizmo_mirrors in Hgm. rewrite Hg in Hgm.
  unfold orbit_guarded in Hog. rewrite Ho in Hog.
  assert (Hgz : g_enabled g = true -> state_mode c <> "orbit").
  { rewrite Hgm. simpl. intros H E. rewrite E in H. discriminate H. }
  split; [exact Hog | split; [exact Hgz |]].
  intros [H1 H2]. exact (Hgz H2 (Hog H1)).
Qed.

(** X18.  The buttons show the state: in every controller that can arise,
    each mode button that exists bears [btn--active] exactly when its mode
    is the current one, so that of four existing mode buttons exactly one is
    active, and each axis chip bears [chip--active] exactly when its axis is
    unlocked. *)
Theorem X18_buttons_show_state (c : Controller) (Hreach : reachable c) :
  buttons_mirror c /\
  (forall r m o s,
      modeRotate (ui c) = Some r -> modeMove (ui c) = Some m ->
      modeOrbit (ui c) = Some o -> modeScale (ui c) = Some s ->
      List.length (filter (has_class "btn--active") [r; m; o; s]) = 1).
Proof.
  destruct (reachable_consistent c Hreach) as (Hv & _ & _ & Hb).
  split; [exact Hb |].
  intros r m o s Er Em Eo Es.
  destruct Hb as (Hr & Hm & Ho & Hs & _).
  rewrite Er in Hr. rewrite Em in Hm. rewrite Eo in Ho. rewrite Es in Hs.
  simpl in Hr, Hm, Ho, Hs. cbn [filter]. rewrite Hr, Hm, Ho, Hs.
  apply valid_mode_cases in Hv.
  destruct Hv as [-> | [-> | [-> | ->]]]; reflexivity.
Qed.

(** X19.  Unknown arguments are ignored: [setMode] with anything but one of
    the four mode names, [toggleAxis] with anything but x, y or z, and
    [handleShortcut] with anything but the keys 1 to 4 leave the controller
    exactly as it was, without a notification. *)
Theorem X19_unknown_arguments_ignored (v : jsval) (c : Controller) :
  ((forall m, v = JStr m -> valid_mode m = false) -> setMode v c = c) /\
  ((forall k, v = JStr k -> k <> "x" /\ k <> "y" /\ k <> "z") -> toggleAxis v c = c) /\
  ((forall k, v = JStr k -> k <> "1" /\ k <> "2" /\ k <> "3" /\ k <> "4") ->
   handleShortcut v c = c).
Proof.
  split; [| split]; intros H; destruct v as [| | | | s | |]; try reflexivity.
  - unfold setMode. rewrite setMode_rejects, (H s eq_refl). reflexivity.
  - destruct (H s eq_refl) as (Hx & Hy & Hz). unfold toggleAxis.
    destruct (String.eqb_spec s "x"); [contradiction |].
    destruct (String.eqb_spec s "y"); [contradiction |].
    destruct (String.eqb_spec s "z"); [contradiction | reflexivity].
  - destruct (H s eq_refl) as (H1 & H2 & H3 & H4). unfold handleShortcut.
    destruct (String.eqb_spec s "1"); [contradiction |].
    destruct (String.eqb_spec s "2"); [contradiction |].
    destruct (String.eqb_spec s "3"); [contradiction |].
    destruct (String.eqb_spec s "4"); [contradiction | reflexivity].
Qed.

Lemma classList_toggle_idem (cls : string) (on : bool) (e : Element) :
  classList_toggle cls on (classList_toggle cls on e) = classList_toggle cls on e.
Proof.
  unfold classList_toggle at 1. rewrite has_class_toggle. destruct on; [reflexivity |].
  unfold classList_toggle. induction e as [| x r IH]; simpl; [reflexivity |].
  destruct (String.eqb cls x) eqn:E; simpl; [exact IH | rewrite E; simpl; rewrite IH].
  reflexivity.
Qed.

Lemma _toggleClass_idem (el : option Element) (cls : string) (on : bool) :
  _toggleClass (_toggleClass el cls on) cls on = _toggleClass el cls on.
Proof. destruct el; simpl; [rewrite classList_toggle_idem |]; reflexivity. Qed.

(** X20.  [applyState] is idempotent: applying the state a second time
    changes nothing, neither in the buttons, nor in the select element, nor
    in the gizmo, nor in the orbit control. *)
Theorem X20_applyState_idempotent (c : Controller) :
  applyState (applyState c) = applyState c.
Proof.
  unfold applyState. cbv zeta.
  cbn [ui orbit gizmo toast toasts state_mode axis_x axis_y axis_z snapDeg
       modeRotate modeMove modeOrbit modeScale axisX axisY axisZ rotateSnap].
  rewrite !_toggleClass_idem.
  f_equal; [f_equal | |].
  - destruct (rotateSnap (ui c)) as [s |]; [| reflexivity].
    destruct (String.eqb (select_value s) (num_toString (snapDeg c))) eqn:E; cbn [negb].
    + rewrite E. reflexivity.
    + destruct (String.eqb (select_value (select_set_value (num_toString (snapDeg c)) s))
                  (num_toString (snapDeg c))); reflexivity.
  - destruct (orbit c); reflexivity.
  - destruct (gizmo c); reflexivity.
Qed.

Lemma same_classes_toggle (el : option Element) (cls : string) (on : bool) :
  same_classes (_toggleClass (_toggleClass el cls (negb on)) cls on) (_toggleClass el cls on).
Proof.
  destruct el as [e |]; simpl; [| exact I].
  intros other. destruct (String.eqb_spec other cls) as [-> | Hne].
  - rewrite !has_class_toggle. reflexivity.
  - rewrite !has_class_toggle_other by exact Hne. reflexivity.
Qed.

Lemma same_classes_refl (el : option Element) : same_classes el el.
Proof. destruct el; simpl; [reflexivity | exact I]. Qed.

Lemma applyState_select (c c' : Controller) :
  rotateSnap (ui c) = rotateSnap (ui c') -> snapDeg c = snapDeg c' ->
  rotateSnap (ui (applyState c)) = rotateSnap (ui (applyState c')).
Proof. intros H1 H2. cbn. rewrite H1, H2. reflexivity. Qed.

(** X21.  Toggling an axis twice restores the controller: after two calls
    of [toggleAxis] with the same axis, the axis locks, the gizmo, the orbit
    control, the select element, the mode, the snap angle and the
    notifications are those that [applyState] alone would leave, and every
    button and chip bears the same classes (the order of the classes of the
    toggled chip may differ). *)
Theorem X21_toggleAxis_twice (k : string) (c : Controller)
  (Hk : k = "x" \/ k = "y" \/ k = "z") :
  same_controller (toggleAxis (JStr k) (toggleAxis (JStr k) c)) (applyState c).
Proof.
  destruct Hk as [-> | [-> | ->]]; cbn [toggleAxis String.eqb Ascii.eqb Bool.eqb];
    unfold same_controller;
    cbn [applyState set_axis ui orbit gizmo toast toasts state_mode axis_x axis_y axis_z
         snapDeg modeRotate modeMove modeOrbit modeScale axisX axisY axisZ rotateSnap];
    rewrite ?negb_involutive, ?_toggleClass_idem;
    repeat split; try apply same_classes_refl;
    try (apply (same_classes_toggle _ "chip--active"));
    try (destruct (orbit c); reflexivity);
    try (destruct (gizmo c); reflexivity).
  all: destruct (rotateSnap (ui c)) as [s |]; [| reflexivity].
  all: destruct (String.eqb (select_value s) (num_toString (snapDeg c))) eqn:E; simpl;
    [rewrite E; reflexivity |].
  all: destruct (String.eqb (select_value (select_set_value (num_toString (snapDeg c)) s))
                  (num_toString (snapDeg c))); reflexivity.
Qed.

(** X22.  A drag of the gizmo suspends the orbit control and hands it back:
    on a controller with a gizmo and an orbit control in step with the mode,
    the start of a drag disables the orbit control and notifies the user of
    the operation under way, and the end of the drag leaves the controller
    exactly as it was before the drag, but for that one notification. *)
Theorem X22_drag_suspends_orbit (c : Controller) (o : Orbit) (g : Gizmo)
  (Ho : orbit c = Some o) (Hg : gizmo c = Some g)
  (Hsync : o_enabled o = String.eqb (state_mode c) "orbit") :
  let during := perform (DraggingChanged true) c in
  let after := perform (DraggingChanged false) during in
  orbit during = Some (mkOrbit false) /\
  toasts during =
    toasts c ++ (if toast c
                 then [(if String.eqb (state_mode c) "move" then "Moving…"
                        else if String.eqb (state_mode c) "scale" then "Scaling…"
                        else "Rotating…", 1100)]
                 else []) /\
  after = mkController (ui c) (orbit c) (gizmo c) (toast c) (toasts during)
            (state_mode c) (axis_x c) (axis_y c) (axis_z c) (snapDeg c).
Proof.
  cbv zeta. destruct o as [en]. cbn [o_enabled] in Hsync. subst en.
  cbn [perform]. rewrite Ho, Hg. cbn [isSome andb].
  assert (Hduring :
    onDraggingChanged true c =
    mkController (ui c) (Some (mkOrbit false)) (gizmo c) (toast c)
      (toasts c ++ (if toast c
                    then [(if String.eqb (state_mode c) "move" then "Moving…"
                           else if String.eqb (state_mode c) "scale" then "Scaling…"
                           else "Rotating…", 1100)]
                    else []))
      (state_mode c) (axis_x c) (axis_y c) (axis_z c) (snapDeg c)).
  { unfold onDraggingChanged. rewrite Ho. cbn [negb andb]. unfold _toast, set_orbit.
    cbn [ui orbit gizmo toast toasts state_mode axis_x axis_y axis_z snapDeg].
    destruct (toast c); [reflexivity | rewrite app_nil_r; reflexivity]. }
  rewrite Hduring. cbn [orbit gizmo toasts isSome andb]. rewrite Hg. cbn [isSome andb].
  split; [reflexivity | split; [reflexivity |]].
  unfold onDraggingChanged, set_orbit.
  cbn [ui orbit gizmo toast toasts state_mode axis_x axis_y axis_z snapDeg negb andb].
  reflexivity.
Qed.


End ModesProperties.

(** * Properties of the central state *)

Section StateProperties.

Context {num : Type} {JN : JsNumber num} {JA : JsArith num}.

#[local] Abbreviation jsval := (@jsval num).
#[local] Abbreviation AppState := (@State.AppState num).

Lemma has_own_set (o : list (string * jsval)) (k k' : string) (v : jsval) :
  has_own (obj_set o k v) k' = String.eqb k k' || has_own o k'.
Proof.
  unfold has_own. induction o as [| [k0 v0] r IH]; simpl.
  - rewrite orb_false_r. reflexivity.
  - destruct (String.eqb_spec k0 k) as [-> | Hk0]; simpl.
    + destruct (String.eqb k k'); reflexivity.
    + rewrite IH. destruct (String.eqb k0 k'), (String.eqb k k'); reflexivity.
Qed.

Lemma plain_get_set (o : list (string * jsval)) (k : string) (v : jsval) :
  State.plain_get (obj_set o k v) k = State.Own v.
Proof.
  unfold State.plain_get. rewrite has_own_set, obj_get_set, String.eqb_refl. reflexivity.
Qed.

Lemma plain_get_set_other (o : list (string * jsval)) (k k' : string) (v : jsval) :
  k' <> k -> State.plain_get (obj_set o k v) k' = State.plain_get o k'.
Proof.
  intros Hne. unfold State.plain_get. rewrite has_own_set, obj_get_set.
  destruct (String.eqb_spec k k') as [E | _]; [congruence | reflexivity].
Qed.

(** X24.  [toggleAxis] of the central state, key by key.  For a key that
    the axis object has, or an ordinary key, the flag becomes the negation
    of what a read of the key gave and that boolean is returned: a key that
    is missing is created as [true], and a key that is only inherited from
    [Object.prototype] (such as [toString]) is created as [false].  For
    [__proto__], when the object has no such property, nothing is stored
    and the inherited member is returned.  In every case the other keys and
    the other fields are untouched, and a second toggle gives the key the
    truthiness it had. *)
Theorem X24_state_toggleAxis (s : AppState) (key other : string) :
  let r := State.toggleAxis s key in
  let s1 := fst r in
  let s2 := fst (State.toggleAxis s1 key) in
  let before := State.plain_get (State.axis s) key in
  (has_own (State.axis s) key = true \/ key <> "__proto__" ->
   State.plain_get (State.axis s1) key =
     State.Own (JBool (negb (State.member_truthy before))) /\
   snd r = State.Own (JBool (negb (State.member_truthy before)))) /\
  (has_own (State.axis s) key = false -> inherited key = false ->
   snd r = State.Own (JBool true)) /\
  (has_own (State.axis s) key = false -> inherited key = true -> key <> "__proto__" ->
   snd r = State.Own (JBool false)) /\
  (has_own (State.axis s) key = false -> key = "__proto__" ->
   s1 = s /\ snd r = State.Inherited) /\
  (other <> key ->
   State.plain_get (State.axis s1) other = State.plain_get (State.axis s) other) /\
  State.member_truthy (State.plain_get (State.axis s2) key) = State.member_truthy before /\
  (State.mode s1, State.snapDeg s1, State.showGrid s1, State.showAxes s1,
   State.showOutline s1, State.perfEnabled s1) =
  (State.mode s, State.snapDeg s, State.showGrid s, State.showAxes s,
   State.showOutline s, State.perfEnabled s).
Proof.
  cbv zeta.
  assert (Hordinary : has_own (State.axis s) key = true \/ key <> "__proto__" ->
            State.plain_set_bool (State.axis s) key
              (negb (State.member_truthy (State.plain_get (State.axis s) key))) =
            obj_set (State.axis s) key
              (JBool (negb (State.member_truthy (State.plain_get (State.axis s) key))))).
  { intros H. unfold State.plain_set_bool.
    destruct (String.eqb_spec key "__proto__") as [E | _]; [| reflexivity].
    destruct H as [H | H]; [rewrite H; reflexivity | contradiction]. }
  assert (Hproto : has_own (State.axis s) key = false -> key = "__proto__" ->
            forall b, State.plain_set_bool (State.axis s) key b = State.axis s).
  { intros H -> b. unfold State.plain_set_bool. rewrite H. reflexivity. }
  unfold State.toggleAxis.
  cbn [fst snd State.axis State.mode State.snapDeg
       State.showGrid State.showAxes State.showOutline State.perfEnabled].
  split; [| split; [| split; [| split; [| split; [| split]]]]].
  - intros H. rewrite (Hordinary H), plain_get_set. split; reflexivity.
  - intros Hown Hinh.
    assert (Hk : key <> "__proto__") by (intros ->; discriminate Hinh).
    rewrite (Hordinary (or_intror Hk)), plain_get_set.
    unfold State.plain_get. rewrite Hown, Hinh. reflexivity.
  - intros Hown Hinh Hk.
    rewrite (Hordinary (or_intror Hk)), plain_get_set.
    unfold State.plain_get. rewrite Hown, Hinh. reflexivity.
  - intros Hown Hk. rewrite (Hproto Hown Hk). split.
    + destruct s; reflexivity.
    + subst key. unfold State.plain_get. rewrite Hown. reflexivity.
  - intros Hne. unfold State.plain_set_bool.
    destruct (String.eqb key "__proto__" && negb (has_own (State.axis s) key));
      [reflexivity | apply plain_get_set_other; exact Hne].
  - destruct (has_own (State.axis s) key) eqn:Hown.
    + rewrite (Hordinary (or_introl eq_refl)).
      unfold State.plain_set_bool at 1. rewrite has_own_set, String.eqb_refl.
      cbn [orb negb]. rewrite andb_false_r, plain_get_set.
      cbn [State.member_truthy truthy]. rewrite plain_get_set.
      cbn [State.member_truthy truthy]. apply negb_involutive.
    + destruct (String.eqb_spec key "__proto__") as [Hk | Hk].
      * rewrite !(Hproto eq_refl Hk). reflexivity.
      * rewrite (Hordinary (or_intror Hk)).
        unfold State.plain_set_bool at 1. rewrite has_own_set, String.eqb_refl.
        cbn [orb negb]. rewrite andb_false_r, plain_get_set.
        cbn [State.member_truthy truthy]. rewrite plain_get_set.
        cbn [State.member_truthy truthy]. apply negb_involutive.
  - reflexivity.
Qed.

(** X25.  The two [setSnapDeg] differ on an angle that is not a finite
    number: the central state keeps the angle it had, changes nothing and
    returns that angle, where the controller stores 0.  Both store a finite
    angle as it is, so that a finite angle stays finite under the central
    state's setter.  (The angle is one that [Number] converts.) *)
Theorem X25_state_setSnapDeg
  (s : AppState) (c : @ModesController.Controller num) (deg : jsval)
  (Hdeg : String_returns deg = true) :
  (num_isFinite (ModesController.js_Number deg) = false ->
   State.setSnapDeg s deg = (s, State.snapDeg s) /\
   ModesController.snapDeg (ModesController.setSnapDeg deg c) = num_of_nat 0) /\
  (num_isFinite (ModesController.js_Number deg) = true ->
   State.snapDeg (fst (State.setSnapDeg s deg)) = ModesController.js_Number deg /\
   snd (State.setSnapDeg s deg) = ModesController.js_Number deg /\
   ModesController.snapDeg (ModesController.setSnapDeg deg c) =
     ModesController.js_Number deg) /\
  (num_isFinite (State.snapDeg s) = true ->
   num_isFinite (State.snapDeg (fst (State.setSnapDeg s deg))) = true).
Proof.
  unfold State.setSnapDeg, ModesController.setSnapDeg.
  cbn [fst snd State.snapDeg].
  destruct (num_isFinite (ModesController.js_Number deg)) eqn:E.
  - split; [discriminate |].
    split; [intros _; repeat split; reflexivity | intros _; exact E].
  - split; [intros _; split; [destruct s; reflexivity | reflexivity] |].
    split; [discriminate | intros Hf; exact Hf].
Qed.

End StateProperties.

(** * The properties at concrete inputs *)

Import Sample.

Lemma newProp_contract : factory_contract newProp.
Proof.
  split.
  - intros t l. unfold newProp. destruct (props l); reflexivity.
  - intros t l ps E. unfold newProp. rewrite E. eexists. reflexivity.
Defined.

(** The round trip of [posed] into [fresh] changes the type tag of the prop
    from [Sphere] to [sphere]: the prop's type is not reproduced. *)
Lemma C1_type_not_reproduced :
  serializePose (allDeps newProp) "2024-01-01T00:00:00.000Z" posed = Ok posed_doc /\
  option_map (map prop_type) (props posed) = Some ["Sphere"] /\
  option_map (map prop_type)
    (props (live (snd (applyPose posed_doc (allDeps newProp) (mkSt fresh [])))))
  = Some ["sphere"].
Proof. repeat split. Qed.

Lemma C1_roundtrip_witness :
  let r := applyPose posed_doc (allDeps newProp) (mkSt fresh []) in
  fst r = Ok tt /\
  exists js' ps',
    joints (live (snd r)) = Some js' /\
    props (live (snd r)) = Some ps' /\
    map j_name js' = ["head"; "arm_L"] /\
    map j_quaternion js' = [quat 1 2 3 4; quat 5 6 7 8] /\
    Forall2 (fun p p' =>
               p_position p' = p_position p /\
               p_quaternion p' = p_quaternion p /\
               p_scale p' = p_scale p /\
               prop_type p' = normalized_type (prop_type p) (p_name p) /\
               (prop_type p' = prop_type p <->
                toLowerCase (trim (prop_type p)) = prop_type p /\
                prop_type p <> EmptyString))
            [mkProp 7 (JStr "ball") (Some (mkUserData (JStr "Sphere") (JBool true)))
                    (vec 1 2 3) (quat 0 0 1 0) (vec 2 2 2)]
            ps'.
Proof.
  apply (C1_roundtrip posed (allDeps newProp) "2024-01-01T00:00:00.000Z" posed_doc
           [mkJoint "head" (quat 1 2 3 4); mkJoint "arm_L" (quat 5 6 7 8)]
           [mkProp 7 (JStr "ball") (Some (mkUserData (JStr "Sphere") (JBool true)))
                   (vec 1 2 3) (quat 0 0 1 0) (vec 2 2 2)]
           (allDeps newProp) (mkSt fresh []) newProp
           [mkJoint "head" (quat 0 0 0 1); mkJoint "arm_L" (quat 0 0 0 1)]);
    try reflexivity.
  - repeat constructor; simpl; intuition discriminate.
  - exact newProp_contract.
Defined.

Lemma C2_witness :
  exists js',
    joints (live (snd (applyPose preset (allDeps newProp) (mkSt posed [])))) = Some js' /\
    List.length js' = 2 /\
    forall i j,
      nth_error [mkJoint "head" (quat 1 2 3 4); mkJoint "arm_L" (quat 5 6 7 8)] i = Some j ->
      exists j',
        nth_error js' i = Some j' /\
        j_name j' = j_name j /\
        (forall q, structured (getProp preset "joints") = true ->
                   getProp (getProp preset "joints") (j_name j) = JArr q ->
                   List.length q = 4 ->
                   Quaternion_toArray (j_quaternion j') = JArr q) /\
        (~ (exists q, structured (getProp preset "joints") = true /\
                      getProp (getProp preset "joints") (j_name j) = JArr q /\
                      List.length q = 4) ->
         j_quaternion j' = j_quaternion j).
Proof.
  apply (C2_full_apply_partial_joint_overwrite preset (allDeps newProp) (mkSt posed [])
           [mkJoint "head" (quat 1 2 3 4); mkJoint "arm_L" (quat 5 6 7 8)]);
    try reflexivity.
  intros f t l E. injection E as <-. apply newProp_contract.
Defined.

(** C3, at a failing input.  The factory knows only cubes; the document
    lists a cube at (1,2,3) and then a blob at (9,9,9).  The factory appends
    nothing for the blob, and the descriptor is not skipped: it is written
    over the cube, which ends up tagged [blob] at (9,9,9).  Had the blob
    been skipped, the result would be that of the document with the cube
    alone. *)
Theorem C3_unmade_prop_overwrites_previous :
  let shown := option_map (map (fun p => (userData_type p, p_position p))) in
  let after doc := props (live (snd (applyPose doc (allDeps cubesOnly) (mkSt fresh [])))) in
  shown (after cube_then_blob) = Some [(JStr "blob", vec 9 9 9)] /\
  shown (after cube_only) = Some [(JStr "cube", vec 1 2 3)] /\
  calls (snd (applyPose cube_then_blob (allDeps cubesOnly) (mkSt fresh []))) =
    [CallAddProp "cube"; CallAddProp "blob"; CallUpdateOutline; CallForceRenderOnce;
     CallShowToast "Pose loaded" None].
Proof. repeat split. Qed.

(** A name that contains [cyl] but not [cylinder] is a cylinder for the
    source and a cube for the keyword list of the specification. *)
Lemma C4_cyl_is_not_cylinder :
  inferTypeFromLegacyName (JStr "Cyl_01" : @jsval Z) = "cylinder" /\
  spec_inferType (JStr "Cyl_01" : @jsval Z) = "cube" /\
  inferTypeFromLegacyName (JStr "Cyl_01" : @jsval Z) <> spec_inferType (JStr "Cyl_01").
Proof. repeat split. discriminate. Qed.

Lemma C5_witness :
  let r := applyPoseJointsOnly preset (allDeps newProp) (mkSt posed []) in
  fst r = Ok 1 /\
  joints (live (snd r)) =
    Some [mkJoint "head" (quat 9 9 9 9); mkJoint "arm_L" (quat 0 0 0 1)] /\
  calls (snd r) =
    [CallResetAllJointRotations; CallUpdateOutline; CallForceRenderOnce;
     CallShowToast "Preset loaded (1 joints)" None].
Proof.
  destruct (C5_jointsOnly_reset_then_apply preset (allDeps newProp) (mkSt posed [])
              resetJoints
              [mkJoint "head" (quat 1 2 3 4); mkJoint "arm_L" (quat 5 6 7 8)]
              eq_refl eq_refl eq_refl eq_refl eq_refl (fun l => eq_refl))
    as (Hcount & Hjoints & Hcalls & _).
  split; [exact Hcount | split; [exact Hjoints | exact Hcalls]].
Defined.

Lemma C6_witness :
  let s1 := snd (importLoop parse (importDeps true) [file_a] 0 start) in
  importLoop parse (importDeps true) ([file_a] ++ file_b :: [file_c]) 0 start =
    importLoop parse (importDeps true) [file_c] 1
      (fst s1, snd s1 ++ [ConsoleWarn (Some "b.JSON") (OtherError "SyntaxError")]) /\
  fst (importPosePack parse (Some [file_a; file_b; file_c]) (importDeps true) start) =
    Ok (Some 2).
Proof.
  pose (s1 := snd (importLoop parse (importDeps true) [file_a] 0 start)).
  destruct (C6_import_failure_isolation parse (importDeps true)
              [file_a] file_b [file_c] 0 start 1 s1 (OtherError "SyntaxError") s1
              eq_refl eq_refl
              (fails_parse parse (importDeps true) file_b s1 "{ not json"
                 (OtherError "SyntaxError") eq_refl eq_refl))
    as (Hskip & _ & _).
  split; [exact Hskip | reflexivity].
Defined.



(** With a null document and no world, the error is the invalid-document
    one: no world was passed, yet [MissingWorldError] is not thrown. *)
Lemma C8_invalid_document_comes_first :
  world_ok noDeps (live (mkSt fresh [])) = false /\
  fst (applyPose JNull noDeps (mkSt fresh [])) = Throw InvalidPoseError /\
  fst (applyPose JNull noDeps (mkSt fresh [])) <> Throw MissingWorldError.
Proof. repeat split. discriminate. Qed.

Lemma C9_witness :
  let st' := snd (applyPoseJointsOnly preset (allDeps newProp) (mkSt posed [])) in
  props (live st') = props posed /\
  notes (live st') = notes posed /\
  scene (live st') = scene posed.
Proof.
  apply (C9_jointsOnly_frame preset (allDeps newProp) (mkSt posed [])).
  intros reset l E. injection E as <-. repeat split.
Defined.

Lemma C10_witness :
  snd (applyPose JNull (allDeps newProp) (mkSt posed [])) = mkSt posed [] /\
  snd (applyPoseJointsOnly (JObj []) (allDeps newProp) (mkSt posed [])) = mkSt posed [].
Proof.
  split.
  - exact (proj1 (C10_validation_errors_leave_state JNull (allDeps newProp)
                    (mkSt posed []) "Invalid pose JSON") eq_refl).
  - exact (proj2 (C10_validation_errors_leave_state (JObj []) (allDeps newProp)
                    (mkSt posed []) "Pose missing joints") eq_refl).
Defined.

(** * The further properties at concrete inputs *)

Import SampleMore.
Import ModesController.

Lemma X1_witness :
  exists doc,
    serializePose (allDeps newProp) "now" posed = Ok doc /\
    structured (getProp doc "joints") = true /\
    matched (getProp doc "joints") (mkJoint "arm_L" (quat 5 6 7 8)) = true.
Proof.
  destruct (proj2 (X1_serializePose_outcome (allDeps newProp) "now" posed)
              [mkJoint "head" (quat 1 2 3 4); mkJoint "arm_L" (quat 5 6 7 8)]
              [mkProp 7 (JStr "ball") (Some (mkUserData (JStr "Sphere") (JBool true)))
                      (vec 1 2 3) (quat 0 0 1 0) (vec 2 2 2)]
              eq_refl eq_refl eq_refl eq_refl)
    as (doc & Hser & _ & _ & _ & _ & _ & _ & Hjoints & Hmatched).
  exists doc. split; [exact Hser | split; [exact Hjoints |]].
  apply Hmatched. right. left. reflexivity.
Defined.

Lemma X2_witness :
  getProp (getProp
             (JObj [("version", JNum 1%Z); ("notes", JStr EmptyString);
                    ("joints", JObj (serializeJoints
                                       [mkJoint "arm" (quat 1 0 0 0);
                                        mkJoint "head" (quat 0 1 0 0);
                                        mkJoint "arm" (quat 0 0 1 0)]));
                    ("props", JArr []); ("savedAt", JStr "now")])
             "joints") "arm" =
  Quaternion_toArray (quat 0 0 1 0) /\
  getProp (getProp
             (JObj [("version", JNum 1%Z); ("notes", JStr EmptyString);
                    ("joints", JObj (serializeJoints
                                       [mkJoint "arm" (quat 1 0 0 0);
                                        mkJoint "head" (quat 0 1 0 0);
                                        mkJoint "arm" (quat 0 0 1 0)]));
                    ("props", JArr []); ("savedAt", JStr "now")])
             "joints") "leg" =
  JUndefined.
Proof.
  split.
  - exact (proj1 (X2_serialized_joints_last_wins noFactoryDeps "now" twins _
                    [mkJoint "arm" (quat 1 0 0 0); mkJoint "head" (quat 0 1 0 0);
                     mkJoint "arm" (quat 0 0 1 0)] "arm" eq_refl eq_refl)
             (mkJoint "arm" (quat 0 0 1 0)) eq_refl).
  - exact (proj2 (X2_serialized_joints_last_wins noFactoryDeps "now" twins _
                    [mkJoint "arm" (quat 1 0 0 0); mkJoint "head" (quat 0 1 0 0);
                     mkJoint "arm" (quat 0 0 1 0)] "leg" eq_refl eq_refl)
             eq_refl eq_refl eq_refl).
Defined.

Lemma X3_witness :
  propType sphere_pd = "sphere" /\ toLowerCase (trim (propType sphere_pd)) = propType sphere_pd.
Proof.
  destruct (X3_propType_normal_form sphere_pd eq_refl eq_refl) as (_ & Hnormal & Htype & _).
  split; [apply Htype; discriminate | exact Hnormal].
Defined.

Lemma X4_witness :
  In (inferTypeFromLegacyName (JArr [JStr "Big"; JObj [("plane", JNull)]] : @jsval Z))
     inferable_types /\
  inferTypeFromLegacyName (JStr "dodeca" : @jsval Z) = "dodeca" /\
  inferTypeFromLegacyName (JStr "my torus" : @jsval Z) =
    inferTypeFromLegacyName (JStr "My Torus" : @jsval Z).
Proof.
  destruct (X4_inferType_range_and_case "My Torus"
              (JArr [JStr "Big"; JObj [("plane", JNull)]] : @jsval Z) eq_refl)
    as (Hin & Hself & Hcase & _).
  split; [exact Hin | split; [| exact Hcase]].
  apply Hself. unfold inferable_types. simpl. tauto.
Defined.

Lemma X5_witness :
  calls (snd (applyPose cube_then_blob (allDeps newProp) (mkSt fresh []))) =
  [CallAddProp "cube"; CallAddProp "blob"; CallUpdateOutline; CallForceRenderOnce;
   CallShowToast "Pose loaded" None].
Proof.
  exact (X5_applyPose_calls cube_then_blob (allDeps newProp) (mkSt fresh []) eq_refl).
Defined.

Lemma X6_witness :
  notes (live (snd (applyPose notes_only (allDeps newProp) (mkSt posed [])))) = "look up".
Proof.
  apply (X6_applyPose_notes notes_only (allDeps newProp) (mkSt posed []) eq_refl).
  intros f t l E. injection E as <-. unfold newProp. destruct (props l); reflexivity.
Defined.

Lemma X7_witness :
  props (live (snd (applyPose notes_only (allDeps newProp) (mkSt posed [])))) = props posed /\
  scene (live (snd (applyPose notes_only (allDeps newProp) (mkSt posed [])))) = scene posed.
Proof.
  destruct (X7_no_props_array_no_rebuild notes_only (allDeps newProp) (mkSt posed [])
              ltac:(intros pds; discriminate)) as (Hp & Hs & _).
  split; [exact Hp | exact Hs].
Defined.

Lemma X8_witness :
  props (live (snd (applyPose no_props (allDeps newProp) (mkSt posed [])))) = Some [] /\
  scene (live (snd (applyPose no_props (allDeps newProp) (mkSt posed [])))) = [3; 9].
Proof.
  destruct (X8_props_array_clears no_props (allDeps newProp) (mkSt posed [])
              [mkProp 7 (JStr "ball") (Some (mkUserData (JStr "Sphere") (JBool true)))
                      (vec 1 2 3) (quat 0 0 1 0) (vec 2 2 2)]
              [] eq_refl eq_refl eq_refl eq_refl eq_refl (or_intror eq_refl))
    as (_ & Hp & Hs & _).
  split; [exact Hp | exact Hs].
Defined.

Lemma X9_witness :
  joints (live (snd (applyPose preset (allDeps newProp)
                       (snd (applyPose preset (allDeps newProp) (mkSt posed [])))))) =
  joints (live (snd (applyPose preset (allDeps newProp) (mkSt posed [])))).
Proof.
  apply (X9_applyPose_joints_idempotent preset (allDeps newProp) (mkSt posed [])
           [mkJoint "head" (quat 1 2 3 4); mkJoint "arm_L" (quat 5 6 7 8)]
           eq_refl eq_refl eq_refl eq_refl).
  - intros f t l E. injection E as <-. apply newProp_contract.
  - reflexivity.
Defined.

Lemma X10_witness :
  joints (live (snd (applyPoseJointsOnly preset noResetDeps (mkSt posed [])))) =
  Some [mkJoint "head" (quat 9 9 9 9); mkJoint "arm_L" (quat 5 6 7 8)].
Proof.
  refine (proj2 (X10_jointsOnly_without_reset_is_joint_step preset noResetDeps
                   (mkSt posed [])
                   [mkJoint "head" (quat 1 2 3 4); mkJoint "arm_L" (quat 5 6 7 8)]
                   eq_refl eq_refl eq_refl eq_refl eq_refl eq_refl _)).
  intros f t l E. injection E as <-. apply newProp_contract.
Defined.

Lemma X11_witness :
  joints (live (snd (applyPoseJointsOnly preset (allDeps newProp) (mkSt posed [])))) =
  joints (live (snd (applyPoseJointsOnly preset (allDeps newProp)
                       (mkSt posed_otherwise [])))).
Proof.
  exact (proj2 (X11_jointsOnly_pose_is_determined preset (allDeps newProp)
                  (mkSt posed []) (mkSt posed_otherwise []) resetJoints
                  [mkJoint "head" (quat 1 2 3 4); mkJoint "arm_L" (quat 5 6 7 8)]
                  [mkJoint "head" (quat 4 3 2 1); mkJoint "arm_L" (quat 8 7 6 5)]
                  eq_refl eq_refl eq_refl eq_refl eq_refl eq_refl eq_refl
                  (fun l => eq_refl))).
Defined.

Lemma empty_document_applies (st : @St Z) :
  ready st ->
  fst (applyPose (JObj []) (allDeps newProp) st) = Ok tt /\
  ready (snd (applyPose (JObj []) (allDeps newProp) st)).
Proof.
  unfold ready. destruct st as [[[js |] [ps |] sc nt] cl]; intros H;
    try discriminate H; split; reflexivity.
Defined.

Lemma X13_witness :
  fst (importPosePack parse (Some [file_a; readme; file_c]) (importDeps true) start) =
  Ok (Some 2).
Proof.
  refine (proj1 (X13_import_all_candidates parse (importDeps true)
                   [file_a; readme; file_c] start ready
                   ltac:(discriminate) eq_refl _ _ _)).
  - intros file [<- | [<- | [<- | []]]] Hc; try discriminate Hc; discriminate.
  - intros file data ap a [<- | [<- | [<- | []]]] Hc Hd Hap Ha;
      try discriminate Hc; injection Hd as <-; injection Hap as <-;
      apply empty_document_applies; exact Ha.
  - intros file sv a Hin Hc Hsv Ha. injection Hsv as <-. split; [reflexivity | exact Ha].
Defined.

Lemma X14_witness :
  importPosePack parse (Some [readme]) (importDeps true) start =
  (Ok (Some 0),
   (closing_state (importDeps true) 0 (fst start),
    snd start ++ closing_calls (importDeps true) 0)).
Proof.
  refine (proj1 (X14_import_no_candidate parse (importDeps true) [readme] start
                   ltac:(discriminate) _)).
  intros file [<- | []]. reflexivity.
Defined.

Lemma X15_witness :
  importLoop parse (importDeps true) [file_null; file_a] 0 start =
  importLoop parse (importDeps true) [file_a] 0
    (mkSt fresh [],
     [] ++ [CallApplyPose JNull; ConsoleWarn (Some "n.json") InvalidPoseError]).
Proof.
  exact (X15_import_skips_invalid_document parse (allDeps newProp) (importDeps true)
           file_null [file_a] 0 (mkSt fresh []) [] "null" JNull
           eq_refl eq_refl eq_refl eq_refl eq_refl).
Defined.

Lemma orbiting_reachable : reachable orbiting.
Proof. apply reachable_step, reachable_new. Defined.

Lemma X16_witness :
  (state_mode orbiting = "rotate" \/ state_mode orbiting = "move" \/
   state_mode orbiting = "orbit" \/ state_mode orbiting = "scale") /\
  (g_enabled (mkGizmo false "rotate" true true true (None : option number)) = false /\
   g_mode (mkGizmo false "rotate" true true true (None : option number)) = "rotate" /\
   g_showX (mkGizmo false "rotate" true true true (None : option number)) = true /\
   g_showY (mkGizmo false "rotate" true true true (None : option number)) = true /\
   g_showZ (mkGizmo false "rotate" true true true (None : option number)) = true /\
   g_rotationSnap (mkGizmo false "rotate" true true true (None : option number)) = None).
Proof.
  split.
  - exact (proj1 (X16_controller_mode_and_gizmo orbiting orbiting_reachable)).
  - exact (proj2 (X16_controller_mode_and_gizmo orbiting orbiting_reachable) _ eq_refl).
Defined.

Lemma X17_witness :
  ~ (o_enabled (mkOrbit true) = true /\
     g_enabled (mkGizmo false "rotate" true true true (None : option number)) = true).
Proof.
  exact (proj2 (proj2 (X17_orbit_and_gizmo_exclusive orbiting (mkOrbit true)
                         (mkGizmo false "rotate" true true true None)
                         orbiting_reachable eq_refl eq_refl))).
Defined.

Lemma X18_witness :
  List.length (filter (has_class "btn--active")
                 [["btn"]; ["btn"]; ["btn"; "btn--active"]; ["btn"]]) = 1.
Proof.
  exact (proj2 (X18_buttons_show_state orbiting orbiting_reachable)
           ["btn"] ["btn"] ["btn"; "btn--active"] ["btn"]
           eq_refl eq_refl eq_refl eq_refl).
Defined.

Lemma X21_witness :
  same_controller (toggleAxis (JStr "y") (toggleAxis (JStr "y") fullController))
    (applyState fullController).
Proof. exact (X21_toggleAxis_twice "y" fullController (or_intror (or_introl eq_refl))). Defined.

Lemma X22_witness :
  perform (DraggingChanged false) (perform (DraggingChanged true) fullController) =
  mkController (ui fullController) (orbit fullController) (gizmo fullController) true
    [("Rotating…", 1100)] "rotate" true true true (Fin 10).
Proof.
  exact (proj2 (proj2 (X22_drag_suspends_orbit fullController (mkOrbit false)
                         (mkGizmo true "rotate" true true true (Some (Fin 0)))
                         eq_refl eq_refl eq_refl))).
Defined.


Lemma X25_witness :
  State.setSnapDeg State.createState (JStr "fast") =
    (State.createState, (Fin 10 : number)) /\
  snapDeg (setSnapDeg (JStr "fast") fullController) = Fin 0.
Proof.
  exact (proj1 (X25_state_setSnapDeg (JN := number_JsNumber) (JA := number_JsArith)
                  State.createState fullController (JStr "fast") eq_refl) eq_refl).
Defined.

Lemma X24_witness :
  snd (State.toggleAxis (State.createState : @State.AppState number) "x") =
    State.Own (JBool false) /\
  snd (State.toggleAxis (State.createState : @State.AppState number) "w") =
    State.Own (JBool true) /\
  snd (State.toggleAxis (State.createState : @State.AppState number) "toString") =
    State.Own (JBool false) /\
  snd (State.toggleAxis (State.createState : @State.AppState number) "__proto__") =
    State.Inherited.
Proof.
  split; [| split; [| split]].
  - exact (proj2 (proj1 (X24_state_toggleAxis (JN := number_JsNumber)
                           State.createState "x" "y") (or_introl eq_refl))).
  - exact (proj1 (proj2 (X24_state_toggleAxis (JN := number_JsNumber)
                           State.createState "w" "y")) eq_refl eq_refl).
  - refine (proj1 (proj2 (proj2 (X24_state_toggleAxis (JN := number_JsNumber)
                                   State.createState "toString" "y")))
              eq_refl eq_refl _).
    discriminate.
  - exact (proj2 (proj1 (proj2 (proj2 (proj2 (X24_state_toggleAxis (JN := number_JsNumber)
                                                State.createState "__proto__" "y"))))
                    eq_refl eq_refl)).
Defined.
